(** * Nodes of the library: YAML loaders, example, speech and audio

    A shallow embedding of the node classes under [src/nodes]:
    [yaml_loader_node.py] (class [YAMLLoaderNode]),
    [new_yaml_loader_node.py] (class [NEW_YAMLLoaderNode]),
    [example_node.py], [text_to_speech_node.py] and [save_audio_node.py].

    - [Py]      : the Python values a YAML document is made of, and the
                  string and dict builtins the nodes call;
    - [Host]    : the node state the host framework keeps for a node (its
                  parameter elements and the two value dictionaries);
    - [Flatten] : [_flatten_yaml], the same function in both classes;
    - [Loader]  : [YAMLLoaderNode.process] and [_purge_old_parameters];
    - [NewLoader] : [NEW_YAMLLoaderNode._load_yaml_file] and
                  [after_value_set];
    - [Spec]    : the notions the properties are stated with;
    - [LoaderCallback] : [YAMLLoaderNode.after_value_set];
    - [Example] : [ExampleNode];
    - [TextToSpeech] : [TextToSpeechNode];
    - [SaveAudio] : [to_audio_artifact] and [SaveAudio.process];
    - [Spec2]   : further notions the properties are stated with.

    The properties follow: [PyFacts] (strings and dicts), [FlattenSpec],
    [FilterSpec], [NamingSpec] (the names of a pass), [LoaderSpec],
    [FilterPassSpec] and [NewLoaderSpec]; then [FlattenMore], [FilterMore], [LoaderMore],
    [CallbackSpec], [NewLoaderMore], [ExampleSpec], [SpeechSpec] and
    [SaveAudioSpec]. *)

From Stdlib Require Import Ascii String ZArith List Lia.
From stdpp Require Import base option list gmap strings pretty.

#[local] Set Warnings "-register-all,-clear-no-such-hyp".

(* ===================================================================== *)
(** ** Python values and builtins *)
(* ===================================================================== *)

Module Py.

(** What [yaml.safe_load] returns: scalars, lists and dicts.  A dict keeps
    its insertion order, so it is an association list; a float is carried
    by its [repr].  Mapping keys are taken as strings ([str(k)] is then the
    identity): a key that is no string is carried by its text [str(k)],
    which is all that [_flatten_yaml] reads of a key. *)
Inductive value : Type :=
| VNone
| VBool (b : bool)
| VInt (z : Z)
| VFloat (repr : string)
| VStr (s : string)
| VList (l : list value)
| VDict (d : list (string * value)).

Definition dict : Type := list (string * value).

Definition is_dict (v : value) : bool :=
  match v with VDict _ => true | _ => false end.

Definition is_list (v : value) : bool :=
  match v with VList _ => true | _ => false end.

Definition is_scalar (v : value) : bool :=
  match v with VList _ | VDict _ => false | _ => true end.

(** Exceptions the nodes raise or let through, with their message. *)
Inductive exn : Type :=
| FileNotFoundError (msg : string)
| YAMLError (msg : string)
| ValueError (msg : string)
| TypeError (msg : string)
| IndexError (msg : string)
| AttributeError (msg : string)
| KeyError (msg : string)
| NameConflictError (msg : string)
| Exception (msg : string).

(** [str(e)] of an exception: its message. *)
Definition exn_msg (e : exn) : string :=
  match e with
  | FileNotFoundError m | YAMLError m | ValueError m | TypeError m
  | IndexError m | AttributeError m | KeyError m | NameConflictError m
  | Exception m => m
  end.

(** *** Strings *)

(** A [str] is a [string] of code points: the 256 characters of the type
    [ascii] stand for [U+0000] to [U+00FF]. *)

(** [s.replace(old, new)] for one-character [old] and [new]. *)
Fixpoint replace_char (old new : ascii) (s : string) : string :=
  match s with
  | EmptyString => EmptyString
  | String c s' =>
      String (if Ascii.eqb c old then new else c) (replace_char old new s')
  end.

(** [c.lower()]: the letters [A]..[Z] and [U+00C0]..[U+00DE] (the
    multiplication sign [U+00D7] is no letter) move to the lower-case
    letter 32 places on; no other code point up to [U+00FF] changes.
    Every result is a single code point of the range, so [s.lower()]
    works character by character. *)
Definition lower_char (c : ascii) : ascii :=
  let n := N_of_ascii c in
  if (((65 <=? n) && (n <=? 90))
      || ((192 <=? n) && (n <=? 222) && negb (n =? 215)))%N
  then ascii_of_N (n + 32) else c.

Fixpoint lower (s : string) : string :=
  match s with
  | EmptyString => EmptyString
  | String c s' => String (lower_char c) (lower s')
  end.

(** [s.startswith(p)]. *)
Fixpoint startswith (p s : string) : bool :=
  match p with
  | EmptyString => true
  | String x p' =>
      match s with
      | EmptyString => false
      | String c s' => Ascii.eqb x c && startswith p' s'
      end
  end.

(** [needle in hay] on strings: [needle] occurs at some position. *)
Fixpoint contains (needle hay : string) : bool :=
  startswith needle hay
  || match hay with
     | EmptyString => false
     | String _ hay' => contains needle hay'
     end.

(** Truth value of a string: non-empty. *)
Definition truthy (s : string) : bool :=
  match s with EmptyString => false | _ => true end.

(** [str(v)]; [repr] gives the text of a list or a dict. *)
Definition str (repr : value -> string) (v : value) : string :=
  match v with
  | VNone => "None"
  | VBool true => "True"
  | VBool false => "False"
  | VInt z => pretty z
  | VFloat r => r
  | VStr s => s
  | VList _ | VDict _ => repr v
  end.

(** *** Lists *)

(** [l[z]] for an integer [z]: negative indices count from the end. *)
Definition list_index (l : list value) (z : Z) : exn + value :=
  let len := Z.of_nat (length l) in
  let pos := if (z <? 0)%Z then (z + len)%Z else z in
  if ((0 <=? pos) && (pos <? len))%Z then
    match l !! Z.to_nat pos with
    | Some v => inr v
    | None => inl (IndexError "list index out of range")
    end
  else inl (IndexError "list index out of range").

(** *** Dicts, in insertion order *)

(** [d[k] = v]: an existing key keeps its position and takes the new
    value, a new key goes last. *)
Fixpoint setitem (d : dict) (k : string) (v : value) : dict :=
  match d with
  | [] => [(k, v)]
  | (k', v') :: d' =>
      if String.eqb k' k then (k', v) :: d' else (k', v') :: setitem d' k v
  end.

(** [dict(items)]. *)
Definition dict_of_items (items : list (string * value)) : dict :=
  fold_left (fun d kv => setitem d kv.1 kv.2) items [].

(** [d[k]]; [None] stands for [KeyError]. *)
Fixpoint getitem (d : dict) (k : string) : option value :=
  match d with
  | [] => None
  | (k', v) :: d' => if String.eqb k' k then Some v else getitem d' k
  end.

Definition keys (d : dict) : list string := map fst d.

(** [container[item]].  A list takes an [int] (so also a [bool]) and
    raises [TypeError] on any other index. *)
Definition subscript (container item : value) : exn + value :=
  match container with
  | VList l =>
      match item with
      | VInt z => list_index l z
      | VBool b => list_index l (if b then 1 else 0)%Z
      | _ => inl (TypeError "list indices must be integers or slices")
      end
  | VDict d =>
      match item with
      | VStr k =>
          match getitem d k with
          | Some v => inr v
          | None => inl (KeyError k)
          end
      | _ => inl (KeyError "")
      end
  | _ => inl (TypeError "object is not subscriptable")
  end.

(** The values a [for] loop over [container] visits: the elements of a
    list, the keys of a dict. *)
Definition iterate (container : value) : exn + list value :=
  match container with
  | VList l => inr l
  | VDict d => inr (map VStr (keys d))
  | _ => inl (TypeError "object is not iterable")
  end.

End Py.

Import Py.

(* ===================================================================== *)
(** ** [_flatten_yaml] *)
(* ===================================================================== *)

Module Flatten.

(** The inner loops of the list branch: one entry per key of a dict
    element, the element itself otherwise; nothing below is visited. *)
Definition list_item_entries (new_key : string) (i : nat) (item : value)
  : list (string * value) :=
  match item with
  | VDict d =>
      map (fun '(sub_k, sub_v) =>
             let sub_k := replace_char " " "_" sub_k in
             (new_key +:+ "[" +:+ pretty i +:+ "]." +:+ sub_k, sub_v)) d
  | _ => [(new_key +:+ "[" +:+ pretty i +:+ "]", item)]
  end.

(** [for i, item in enumerate(v, i)]. *)
Fixpoint list_entries (new_key : string) (i : nat) (v : list value)
  : list (string * value) :=
  match v with
  | [] => []
  | item :: v' => list_item_entries new_key i item ++ list_entries new_key (S i) v'
  end.

Definition join_key (parent_key sep k : string) : string :=
  if truthy parent_key then parent_key +:+ sep +:+ k else k.

(** [items], the list built by the loop over [data.items()], and the
    returned [dict(items)].  [data] is a dict at every call site; on any
    other value the loop has nothing to visit. *)
Fixpoint _flatten_yaml (data : value) (parent_key sep : string) {struct data}
  : dict :=
  match data with
  | VDict kvs =>
      dict_of_items
        ((fix loop (kvs : list (string * value)) : list (string * value) :=
            match kvs with
            | [] => []
            | (k, v) :: rest =>
                let k := replace_char " " "_" k in
                let new_key := join_key parent_key sep k in
                (match v with
                 | VDict _ => _flatten_yaml v new_key sep
                 | VList l => list_entries new_key 1 l
                 | _ => [(new_key, v)]
                 end) ++ loop rest
            end) kvs)
  | _ => []
  end.

(** The [items] list of one call, before [dict(items)]. *)
Fixpoint flatten_items (kvs : dict) (parent_key sep : string)
  : list (string * value) :=
  match kvs with
  | [] => []
  | (k, v) :: rest =>
      let k := replace_char " " "_" k in
      let new_key := join_key parent_key sep k in
      (match v with
       | VDict _ => _flatten_yaml v new_key sep
       | VList l => list_entries new_key 1 l
       | _ => [(new_key, v)]
       end) ++ flatten_items rest parent_key sep
  end.

End Flatten.

(* ===================================================================== *)
(** ** Node state and the host's parameter registry *)
(* ===================================================================== *)

Module Host.

(** Calls that add or remove a parameter element, in the order made. *)
Inductive event : Type :=
| Added (name : string)
| Removed (name : string).

(** Modelled from the spec: the host framework's node state
    ([griptape_nodes.exe_types.node_types.DataNode], not part of this
    repository's sources), through the registry interface of the
    specification: [exists], [create] (fails when the name exists),
    [remove] (safe when absent), [setValue] (fails when the slot is
    absent) and the list of parameter names.  A parameter element is kept
    by its name; tooltip, display name and modes are configuration the
    nodes pass through.  [journal] records the [create] and [remove]
    calls. *)
Record node : Type := Node {
  parameters : list string;
  parameter_values : gmap string value;
  parameter_output_values : gmap string value;
  journal : list event
}.

(** State and exceptions: a computation ends in a value or a raised
    exception, and either way leaves a state. *)
Definition M (S A : Type) : Type := S -> S * (exn + A).

Definition ret {S A} (a : A) : M S A := fun s => (s, inr a).
Definition raise {S A} (e : exn) : M S A := fun s => (s, inl e).
Definition bind {S A B} (m : M S A) (k : A -> M S B) : M S B :=
  fun s => match m s with
           | (s', inr a) => k a s'
           | (s', inl e) => (s', inl e)
           end.
Definition gets {S A} (f : S -> A) : M S A := fun s => (s, inr (f s)).
Definition modify {S} (f : S -> S) : M S unit := fun s => (f s, inr tt).

(** Result of a call or an exception, as a computation. *)
Definition lift {S A} (r : exn + A) : M S A := fun s => (s, r).

(** [try: body except Exception as e: handler e]. *)
Definition try_except {S A} (body : M S A) (handler : exn -> M S A) : M S A :=
  fun s => match body s with
           | (s', inl e) => handler e s'
           | r => r
           end.

(** A [for] loop whose body updates local variables [acc]. *)
Fixpoint for_each {S X Acc} (body : Acc -> X -> M S Acc) (acc : Acc)
    (xs : list X) : M S Acc :=
  match xs with
  | [] => ret acc
  | x :: xs' => bind (body acc x) (fun acc' => for_each body acc' xs')
  end.

Module Import Notations.
Notation "'let*' x ':=' m 'in' k" := (bind m (fun x => k))
  (at level 10, x name, m at level 100, k at level 200).
Notation "m '>>' k" := (bind m (fun _ => k))
  (at level 100, k at level 200, right associativity).
End Notations.

(** The host methods the nodes call, on that state. *)
Definition does_name_exist (n : node) (name : string) : bool :=
  bool_decide (name ∈ parameters n).

Definition add_parameter (name : string) : M node unit :=
  fun n =>
    if does_name_exist n name
    then (n, inl (NameConflictError name))
    else (Node (parameters n ++ [name]) (parameter_values n)
               (parameter_output_values n) (journal n ++ [Added name]),
          inr tt).

Definition remove_parameter_element (name : string) : M node unit :=
  modify (fun n =>
    Node (filter (fun x => x ≠ name) (parameters n)) (parameter_values n)
         (parameter_output_values n) (journal n ++ [Removed name])).

Definition set_parameter_value (name : string) (v : value) : M node unit :=
  fun n =>
    if does_name_exist n name
    then (Node (parameters n) (<[name := v]> (parameter_values n))
               (parameter_output_values n) (journal n),
          inr tt)
    else (n, inl (KeyError name)).

(** [self.parameter_values[name] = v]. *)
Definition assign_value (name : string) (v : value) : M node unit :=
  modify (fun n =>
    Node (parameters n) (<[name := v]> (parameter_values n))
         (parameter_output_values n) (journal n)).

(** [self.parameter_output_values[name] = v]. *)
Definition assign_output (name : string) (v : value) : M node unit :=
  modify (fun n =>
    Node (parameters n) (parameter_values n)
         (<[name := v]> (parameter_output_values n)) (journal n)).

(** [get_parameter_value] of a parameter declared with [type=STR]: its
    string, or Python's [None] when nothing is set. *)
Definition get_str (n : node) (name : string) : option string :=
  match parameter_values n !! name with
  | Some (VStr s) => Some s
  | _ => None
  end.

(** The parameters both constructors add. *)
Definition fixed_names : list string :=
  ["yaml_file"; "key_filter"; "yaml_data"; "status_message"].

Definition init_node : node :=
  Node fixed_names ∅ ∅ [].

(** Parameters the node synthesised: every one that is not fixed. *)
Definition managed_names (n : node) : list string :=
  filter (fun x => x ∉ fixed_names) (parameters n).

Definition created (evs : list event) : list string :=
  omap (fun e => match e with Added x => Some x | _ => None end) evs.

Definition deleted (evs : list event) : list string :=
  omap (fun e => match e with Removed x => Some x | _ => None end) evs.

(** One round of the loop of [_purge_old_parameters]. *)
Definition purge_param (valid_parameter_names : gset string)
    (modified_parameters_set : gset string) (name : string)
  : M node (gset string) :=
  if bool_decide (name ∉ valid_parameter_names)
  then (remove_parameter_element name >>
        ret (modified_parameters_set ∪ {[name]}))
  else ret modified_parameters_set.

(** [_purge_old_parameters], the same in both classes.  The set passed in
    is updated in place, so the caller sees the three names added; the
    loop runs over the parameters present at its start. *)
Definition _purge_old_parameters (valid_parameter_names : gset string)
  : M node (gset string * gset string) :=
  let valid_parameter_names :=
    valid_parameter_names ∪ {["yaml_file"; "yaml_data"; "status_message"]} in
  let* params := gets parameters in
  let* modified := for_each (purge_param valid_parameter_names) ∅ params in
  ret (valid_parameter_names, modified).

End Host.

Import Host Host.Notations Flatten.

(* ===================================================================== *)
(** ** [YAMLLoaderNode] *)
(* ===================================================================== *)

Module Loader.

(** The [while param_name in used_names] loop.  Each round tries the next
    of [base_name], [base_name_1], [base_name_2], ...; [fuel] bounds the
    rounds, and [first_unused_not_used] shows that [size used_names]
    rounds reach a name outside [used_names], where the loop exits. *)
Fixpoint first_unused (fuel : nat) (used_names : gset string)
    (base_name param_name : string) (counter : nat) : string :=
  if bool_decide (param_name ∈ used_names) then
    match fuel with
    | 0 => param_name
    | S fuel' =>
        first_unused fuel' used_names base_name
          (base_name +:+ "_" +:+ pretty counter) (S counter)
    end
  else param_name.

Definition unique_name (used_names : gset string) (base_name : string)
  : string :=
  first_unused (size used_names) used_names base_name base_name 1.

(** The names one pass gives to the keys of its entries, in order. *)
Fixpoint assign_names (used_names : gset string) (ks : list string)
  : list string :=
  match ks with
  | [] => []
  | key :: ks' =>
      let param_name := unique_name used_names ("output_" +:+ key) in
      param_name :: assign_names (used_names ∪ {[param_name]}) ks'
  end.

(** The dict comprehension that filters on [key_filter]. *)
Definition filter_items (key_filter : string) (d : dict) : dict :=
  dict_of_items
    (filter (fun kv => contains (lower key_filter) (lower kv.1)) d).

Definition apply_filter (key_filter : option string) (d : dict) : dict :=
  match key_filter with
  | Some f => if truthy f then filter_items f d else d
  | None => d
  end.

Definition set_status (msg : string) : M node unit :=
  assign_value "status_message" (VStr msg).

Section process.

(** [open(path)] followed by [yaml.safe_load]: the document, or the
    exception either of them raises. *)
Variable fs : string -> exn + value.
(** [str] of a list or a dict, and [yaml.dump(_, default_flow_style=False)];
    both are library code. *)
Variable repr : value -> string.
Variable yaml_dump : value -> string.

(** One round of the loop over [flattened_items.items()]. *)
Definition sync_entry (st : gset string * gset string) (kv : string * value)
  : M node (gset string * gset string) :=
  let '(used_names, valid_parameter_names) := st in
  let '(key, v) := kv in
  let base_name := "output_" +:+ key in
  let param_name := unique_name used_names base_name in
  let used_names := used_names ∪ {[param_name]} in
  let valid_parameter_names := valid_parameter_names ∪ {[param_name]} in
  let* present := gets (fun n => does_name_exist n param_name) in
  (if present then ret tt else add_parameter param_name) >>
  assign_output param_name (VStr (str repr v)) >>
  ret (used_names, valid_parameter_names).

Definition process : M node unit :=
  let* yaml_file := gets (fun n => get_str n "yaml_file") in
  let* key_filter := gets (fun n => get_str n "key_filter") in
  match yaml_file with
  | None => set_status "No YAML file specified"
  | Some yaml_file =>
      try_except
        (let* yaml_data := lift (fs yaml_file) in
         if negb (is_dict yaml_data) then
           set_status "YAML file must contain a dictionary at the root level"
         else
           let flattened_items := _flatten_yaml yaml_data "" "." in
           let flattened_items := apply_filter key_filter flattened_items in
           let valid_parameter_names : gset string :=
             {["yaml_file"; "yaml_data"; "status_message"; "key_filter"]} in
           let* purged := _purge_old_parameters valid_parameter_names in
           let valid_parameter_names := purged.1 in
           let* _ := for_each sync_entry (∅, valid_parameter_names)
                       flattened_items in
           assign_output "yaml_data" (VStr (yaml_dump (VDict flattened_items))) >>
           set_status "YAML file loaded successfully")
        (fun e =>
           set_status ("Error loading YAML file: " +:+ exn_msg e) >>
           raise e)
  end.

End process.

(** The parameter names a successful pass over [doc] asks for. *)
Definition desired_names (key_filter : option string) (doc : value)
  : list string :=
  assign_names ∅ (keys (apply_filter key_filter (_flatten_yaml doc "" "."))).

End Loader.

(* ===================================================================== *)
(** ** [NEW_YAMLLoaderNode] *)
(* ===================================================================== *)

Module NewLoader.

(** The instance: the host's node state, the two fields [__init__] sets,
    and the set the host hands to [after_value_set], which the method
    updates in place. *)
Record state : Type := State {
  host : node;
  yaml_dictionary : dict;
  yaml_list : value;
  modified_parameters_set : gset string
}.

Definition init_state : state := State init_node [] (VList []) ∅.

(** A host call, run on the [host] field. *)
Definition on_host {A} (m : M node A) : M state A :=
  fun s =>
    let '(n, r) := m (host s) in
    (State n (yaml_dictionary s) (yaml_list s) (modified_parameters_set s), r).

Definition set_yaml_dictionary (d : dict) : M state unit :=
  modify (fun s => State (host s) d (yaml_list s) (modified_parameters_set s)).

Definition set_yaml_list (v : value) : M state unit :=
  modify (fun s =>
    State (host s) (yaml_dictionary s) v (modified_parameters_set s)).

Definition mark_modified (name : string) : M state unit :=
  modify (fun s =>
    State (host s) (yaml_dictionary s) (yaml_list s)
          (modified_parameters_set s ∪ {[name]})).

Definition mark_all_modified (names : gset string) : M state unit :=
  modify (fun s =>
    State (host s) (yaml_dictionary s) (yaml_list s)
          (modified_parameters_set s ∪ names)).

Section after_value_set.

Variable fs : string -> exn + value.
Variable repr : value -> string.
Variable yaml_dump : value -> string.

Definition _load_yaml_file (file_path : string) : exn + value :=
  let body :=
    match fs file_path with
    | inr yaml_data =>
        if is_dict yaml_data then inr yaml_data
        else if is_list yaml_data then inr yaml_data
        else inl (ValueError
          "YAML file must contain a dictionary or a list at the root level")
    | inl e => inl e
    end in
  match body with
  | inr yaml_data => inr yaml_data
  | inl (FileNotFoundError _) =>
      inl (FileNotFoundError ("The file " +:+ file_path +:+ " was not found."))
  | inl (YAMLError m) => inl (ValueError ("Error parsing YAML file: " +:+ m))
  | inl e =>
      inl (Exception
        ("An unexpected error occurred while loading the YAML file: "
         +:+ exn_msg e))
  end.

(** The dict comprehension on [self.yaml_list.items()]. *)
Definition filter_yaml_list (key_filter : string) (yaml_list : value)
  : exn + value :=
  match yaml_list with
  | VDict d => inr (VDict (Loader.filter_items key_filter d))
  | _ => inl (AttributeError "object has no attribute 'items'")
  end.

(** One round of [for index, item in enumerate(self.yaml_list, start=1)];
    the local sets are [used_names] and [valid_parameter_names]. *)
Definition sync_item (st : nat * gset string * gset string) (item : value)
  : M state (nat * gset string * gset string) :=
  let '(index, used_names, valid_parameter_names) := st in
  let param_name := pretty index +:+ "_" +:+ str repr item in
  let used_names := used_names ∪ {[param_name]} in
  let valid_parameter_names := valid_parameter_names ∪ {[param_name]} in
  let* present := gets (fun s => does_name_exist (host s) param_name) in
  (if present then ret tt else on_host (add_parameter param_name)) >>
  let* container := gets yaml_list in
  let* v := lift (subscript container item) in
  on_host (set_parameter_value param_name v) >>
  mark_modified param_name >>
  ret (S index, used_names, valid_parameter_names).

(** [after_value_set(parameter, value, modified_parameters_set)]; the
    result is the returned set, [None] on the two early returns. *)
Definition after_value_set (parameter_name : string)
  : M state (option (gset string)) :=
  if bool_decide (parameter_name ∈ ["yaml_file"; "key_filter"]) then
    let* yaml_file := gets (fun s => get_str (host s) "yaml_file") in
    let* key_filter := gets (fun s => get_str (host s) "key_filter") in
    match yaml_file with
    | None =>
        on_host (Loader.set_status "No YAML file specified") >>
        mark_modified "status_message" >>
        ret None
    | Some yaml_file =>
        let* yaml_data := lift (_load_yaml_file yaml_file) in
        (match yaml_data with
         | VDict d => set_yaml_dictionary d
         | VList _ => set_yaml_list yaml_data
         | _ => ret tt
         end) >>
        let* stored := gets yaml_dictionary in
        (match stored with
         | [] => ret tt
         | _ => set_yaml_list (VDict (_flatten_yaml (VDict stored) "" "."))
         end) >>
        (match key_filter with
         | Some f =>
             if truthy f then
               let* current := gets yaml_list in
               let* filtered := lift (filter_yaml_list f current) in
               set_yaml_list filtered
             else ret tt
         | None => ret tt
         end) >>
        let* current := gets yaml_list in
        on_host (set_parameter_value "yaml_data" (VStr (yaml_dump current))) >>
        mark_modified "yaml_data" >>
        let valid_parameter_names : gset string :=
          {["yaml_file"; "yaml_data"; "status_message"; "key_filter"]} in
        let used_names : gset string := ∅ in
        let* items := lift (iterate current) in
        let* st := for_each sync_item (1, used_names, valid_parameter_names)
                     items in
        let* purged := on_host (_purge_old_parameters st.2) in
        mark_all_modified purged.2 >>
        let* modified := gets modified_parameters_set in
        ret (Some modified)
    end
  else ret None.

End after_value_set.

End NewLoader.

(* ===================================================================== *)
(** ** Notions the properties are stated with *)
(* ===================================================================== *)

Module Spec.

(** [d.update(items)]: the loop behind [dict(items)], from any dict. *)
Definition update_items (d : dict) (items : list (string * value)) : dict :=
  fold_left (fun d kv => setitem d kv.1 kv.2) items d.

(** The key [my<TAB>key]. *)
Definition tab_key : string := String "m" (String "y" (String "009" "key")).

(** Two characters are the same letter when they are equal or one is the
    upper-case letter of the other; the upper-case letters up to [U+00FF]
    are [A]..[Z] and [U+00C0]..[U+00DE] without [U+00D7], each 32 places
    before its lower-case letter. *)
Definition is_upper (c : ascii) : Prop :=
  (65 <= N_of_ascii c <= 90
   \/ (192 <= N_of_ascii c <= 222 /\ N_of_ascii c <> 215))%N.

Definition same_letter (a b : ascii) : Prop :=
  a = b
  \/ (is_upper a /\ N_of_ascii b = N_of_ascii a + 32)%N
  \/ (is_upper b /\ N_of_ascii a = N_of_ascii b + 32)%N.

Inductive caseless_eq : string -> string -> Prop :=
| caseless_nil : caseless_eq "" ""
| caseless_cons a b s t :
    same_letter a b -> caseless_eq s t -> caseless_eq (String a s) (String b t).


(** The candidate the naming loop tries in round [c]. *)
Definition suffixed (base_name : string) (c : nat) : string :=
  base_name +:+ "_" +:+ pretty c.

(** The parameter list after [add_parameter] was called for each of
    [names] that was missing, and the names it was called for. *)
Fixpoint ensure_all (params names : list string) : list string :=
  match names with
  | [] => params
  | x :: names' =>
      ensure_all (if bool_decide (x ∈ params) then params else params ++ [x])
                 names'
  end.

Fixpoint added (params names : list string) : list string :=
  match names with
  | [] => []
  | x :: names' =>
      if bool_decide (x ∈ params) then added params names'
      else x :: added (params ++ [x]) names'
  end.

(** [parameter_output_values] after one pass wrote [str(v)] under each
    name. *)
Fixpoint set_outputs (repr : value -> string) (out : gmap string value)
    (names : list string) (vs : list value) : gmap string value :=
  match names, vs with
  | x :: names', v :: vs' =>
      set_outputs repr (<[x := VStr (str repr v)]> out) names' vs'
  | _, _ => out
  end.

(** The events of a pass: what [journal] gained. *)
Definition pass_events (before after : node) : list event :=
  drop (length (journal before)) (journal after).

(** The node with the status message replaced, and nothing else. *)
Definition with_status (n : node) (msg : string) : node :=
  Node (parameters n) (<["status_message" := VStr msg]> (parameter_values n))
       (parameter_output_values n) (journal n).

(** Decimal digits, and strings made of them. *)
Definition is_digit (c : ascii) : Prop := (48 <= N_of_ascii c <= 57)%N.

Fixpoint all_digits (s : string) : Prop :=
  match s with
  | EmptyString => True
  | String c s' => is_digit c /\ all_digits s'
  end.

(** The names [NEW_YAMLLoaderNode] gives the keys of a dict, counting
    from [index]: [f"{index}_{key}"]. *)
Fixpoint slot_names (index : nat) (ks : list string) : list string :=
  match ks with
  | [] => []
  | k :: ks' => (pretty index +:+ "_" +:+ k) :: slot_names (S index) ks'
  end.

(** [item] is an [int] (or [bool]) that indexes [l] without
    [IndexError]. *)
Definition valid_index (l : list value) (item : value) : bool :=
  match item with
  | VInt z => ((- Z.of_nat (length l) <=? z) && (z <? Z.of_nat (length l)))%Z
  | VBool b => ((if b then 1 else 0) <? Z.of_nat (length l))%Z
  | _ => false
  end.

Definition is_int (item : value) : bool :=
  match item with VInt _ | VBool _ => true | _ => false end.

(** [parameter_values] after [set_parameter_value] wrote each value of
    [entries] under its [slot_names] name. *)
Fixpoint set_values (values : gmap string value) (index : nat)
    (entries : list (string * value)) : gmap string value :=
  match entries with
  | [] => values
  | (k, v) :: entries' =>
      set_values (<[pretty index +:+ "_" +:+ k := v]> values) (S index)
                 entries'
  end.

(** A computation that leaves [self.yaml_dictionary] as it found it,
    whether it returns or raises. *)
Definition keeps_dictionary {A} (m : M NewLoader.state A) : Prop :=
  forall s, NewLoader.yaml_dictionary (m s).1 = NewLoader.yaml_dictionary s.

(** What [after_value_set] does once the document is loaded and stored:
    lines 158 to 203 of [new_yaml_loader_node.py]. *)
Definition synchronise (repr yaml_dump : value -> string)
    (key_filter : option string) : M NewLoader.state (option (gset string)) :=
  let* stored := gets NewLoader.yaml_dictionary in
  (match stored with
   | [] => ret tt
   | _ => NewLoader.set_yaml_list (VDict (_flatten_yaml (VDict stored) "" "."))
   end) >>
  (match key_filter with
   | Some f =>
       if truthy f then
         let* current := gets NewLoader.yaml_list in
         let* filtered := lift (NewLoader.filter_yaml_list f current) in
         NewLoader.set_yaml_list filtered
       else ret tt
   | None => ret tt
   end) >>
  let* current := gets NewLoader.yaml_list in
  NewLoader.on_host
    (set_parameter_value "yaml_data" (VStr (yaml_dump current))) >>
  NewLoader.mark_modified "yaml_data" >>
  let valid_parameter_names : gset string :=
    {["yaml_file"; "yaml_data"; "status_message"; "key_filter"]} in
  let used_names : gset string := ∅ in
  let* items := lift (iterate current) in
  let* st := for_each (NewLoader.sync_item repr)
               (1, used_names, valid_parameter_names) items in
  let* purged := NewLoader.on_host (_purge_old_parameters st.2) in
  NewLoader.mark_all_modified purged.2 >>
  let* modified := gets NewLoader.modified_parameters_set in
  ret (Some modified).

(** The document a pass loads, if it gets that far. *)
Definition loaded (fs : string -> exn + value) (parameter_name : string)
    (s : NewLoader.state) : option value :=
  if bool_decide (parameter_name ∈ ["yaml_file"; "key_filter"]) then
    match get_str (NewLoader.host s) "yaml_file" with
    | Some yaml_file =>
        match NewLoader._load_yaml_file fs yaml_file with
        | inr yaml_data => Some yaml_data
        | inl _ => None
        end
    | None => None
    end
  else None.

(** A call of [after_value_set] by the host: the document source, and
    the parameter that was set. *)
Record pass : Type := Pass {
  pass_fs : string -> exn + value;
  pass_parameter : string;
  pass_value : value
}.

(** The host stores the new value, then calls [after_value_set]; the
    state is kept whether the call returns or raises. *)
Definition run_pass (repr yaml_dump : value -> string) (s : NewLoader.state)
    (p : pass) : NewLoader.state :=
  let s0 :=
    NewLoader.State
      (Node (parameters (NewLoader.host s))
            (<[pass_parameter p := pass_value p]>
               (parameter_values (NewLoader.host s)))
            (parameter_output_values (NewLoader.host s))
            (journal (NewLoader.host s)))
      (NewLoader.yaml_dictionary s) (NewLoader.yaml_list s) ∅ in
  (NewLoader.after_value_set (pass_fs p) repr yaml_dump (pass_parameter p)
     s0).1.

Definition run_passes (repr yaml_dump : value -> string) (s : NewLoader.state)
    (ps : list pass) : NewLoader.state :=
  fold_left (run_pass repr yaml_dump) ps s.

(** The state in which the host calls [after_value_set] for the pass
    [p]: the new value is stored, and a fresh set is handed in. *)
Definition pass_start (s : NewLoader.state) (p : pass) : NewLoader.state :=
  NewLoader.State
    (Node (parameters (NewLoader.host s))
          (<[pass_parameter p := pass_value p]>
             (parameter_values (NewLoader.host s)))
          (parameter_output_values (NewLoader.host s))
          (journal (NewLoader.host s)))
    (NewLoader.yaml_dictionary s) (NewLoader.yaml_list s) ∅.

(** The document the pass [p] loads when it is run from [s]; none when
    the parameter set is not [yaml_file] or [key_filter], when no file is
    named, or when the load fails. *)
Definition pass_loaded (s : NewLoader.state) (p : pass) : option value :=
  loaded (pass_fs p) (pass_parameter p) (pass_start s p).

(** None of the passes [ps], run one after the other from [s], loads a
    mapping: each loads a sequence, or nothing. *)
Fixpoint load_no_mapping (repr yaml_dump : value -> string)
    (s : NewLoader.state) (ps : list pass) : Prop :=
  match ps with
  | [] => True
  | p :: ps' =>
      (forall d, pass_loaded s p <> Some (VDict d))
      /\ load_no_mapping repr yaml_dump (run_pass repr yaml_dump s p) ps'
  end.

End Spec.

Import Spec.

(* ===================================================================== *)
(** ** [YAMLLoaderNode.after_value_set] *)
(* ===================================================================== *)

Module LoaderCallback.

(** The node, and the set the host hands to [after_value_set], which the
    method updates in place. *)
Record frame : Type := Frame {
  self : node;
  modified_parameters_set : gset string
}.

Definition on_self {A} (m : M node A) : M frame A :=
  fun f =>
    let '(n, r) := m (self f) in (Frame n (modified_parameters_set f), r).

Definition mark_modified (name : string) : M frame unit :=
  modify (fun f => Frame (self f) (modified_parameters_set f ∪ {[name]})).

Section after_value_set.

Variable fs : string -> exn + value.
Variable repr : value -> string.
Variable yaml_dump : value -> string.

(** One round of the loop over [flattened_items.items()]; it ends with
    [modified_parameters_set.add(param_name)]. *)
Definition sync_entry (st : gset string * gset string) (kv : string * value)
  : M frame (gset string * gset string) :=
  let '(used_names, valid_parameter_names) := st in
  let '(key, v) := kv in
  let base_name := "output_" +:+ key in
  let param_name := Loader.unique_name used_names base_name in
  let used_names := used_names ∪ {[param_name]} in
  let valid_parameter_names := valid_parameter_names ∪ {[param_name]} in
  let* present := gets (fun f => does_name_exist (self f) param_name) in
  (if present then ret tt else on_self (add_parameter param_name)) >>
  on_self (assign_output param_name (VStr (str repr v))) >>
  mark_modified param_name >>
  ret (used_names, valid_parameter_names).

Definition after_value_set (parameter_name : string) : M frame unit :=
  if bool_decide (parameter_name ∈ ["yaml_file"; "key_filter"]) then
    let* yaml_file := gets (fun f => get_str (self f) "yaml_file") in
    let* key_filter := gets (fun f => get_str (self f) "key_filter") in
    match yaml_file with
    | None =>
        on_self (Loader.set_status "No YAML file specified") >>
        mark_modified "status_message"
    | Some yaml_file =>
        try_except
          (let* yaml_data := lift (fs yaml_file) in
           if negb (is_dict yaml_data) then
             on_self (Loader.set_status
               "YAML file must contain a dictionary at the root level") >>
             mark_modified "status_message"
           else
             let flattened_items := _flatten_yaml yaml_data "" "." in
             let flattened_items :=
               Loader.apply_filter key_filter flattened_items in
             let valid_parameter_names : gset string :=
               {["yaml_file"; "yaml_data"; "status_message"; "key_filter"]} in
             let* purged :=
               on_self (_purge_old_parameters valid_parameter_names) in
             let valid_parameter_names := purged.1 in
             let* _ := for_each sync_entry (∅, valid_parameter_names)
                         flattened_items in
             on_self (assign_output "yaml_data"
                        (VStr (yaml_dump (VDict flattened_items)))) >>
             mark_modified "yaml_data" >>
             on_self (Loader.set_status "YAML file loaded successfully") >>
             mark_modified "status_message")
          (fun e =>
             on_self (Loader.set_status
                        ("Error loading YAML file: " +:+ exn_msg e)) >>
             mark_modified "status_message" >>
             raise e)
    end
  else if bool_decide (parameter_name = "status_message"%string) then
    mark_modified "status_message"
  else ret tt.

End after_value_set.

End LoaderCallback.

(* ===================================================================== *)
(** ** [ExampleNode] *)
(* ===================================================================== *)

Module Example.

(** [c.isspace()], for the code points up to [U+00FF]: tab to carriage
    return, the four separators [U+001C]..[U+001F], the space, the next
    line control [U+0085] and the no-break space [U+00A0]. *)
Definition isspace (c : ascii) : bool :=
  let n := N_of_ascii c in
  (((9 <=? n) && (n <=? 13)) || ((28 <=? n) && (n <=? 32))
   || (n =? 133) || (n =? 160))%N.

Definition starts_word (s : string) : bool :=
  match s with
  | EmptyString => false
  | String c _ => negb (isspace c)
  end.

(** [s.split()]: the maximal runs of non-whitespace characters. *)
Fixpoint split (s : string) : list string :=
  match s with
  | EmptyString => []
  | String c s' =>
      if isspace c then split s'
      else if starts_word s' then
        match split s' with
        | w :: ws => String c w :: ws
        | [] => [String c EmptyString]
        end
      else String c EmptyString :: split s'
  end.

(** [sep.join(ws)]. *)
Fixpoint join (sep : string) (ws : list string) : string :=
  match ws with
  | [] => EmptyString
  | [w] => w
  | w :: ws' => w +:+ sep +:+ join sep ws'
  end.

(** The instance: the host's node state and the dict [__init__] makes. *)
Record state : Type := State {
  host : node;
  incoming_connections : gmap string bool
}.

Definition init_state : state :=
  State (Node ["free_text"; "dropdown"; "integer_slider"; "reversed_text";
               "random_float"] ∅ ∅ [])
        {["free_text" := false]}.

Definition on_host {A} (m : M node A) : M state A :=
  fun s => let '(n, r) := m (host s) in (State n (incoming_connections s), r).

(** [' '.join(reversed(free_text.split()))]. *)
Definition reversed_words (free_text : string) : string :=
  join " " (reverse (split free_text)).

(** [process], given the number [round(random.uniform(0, integer_slider),
    3)] came to; the line it prints is not part of the state. *)
Definition process (random_float : value) : M state unit :=
  let* free_text := gets (fun s => get_str (host s) "free_text") in
  (match free_text with
   | Some t =>
       if truthy t
       then on_host (assign_output "reversed_text" (VStr (reversed_words t)))
       else on_host (assign_output "reversed_text" (VStr ""))
   | None => on_host (assign_output "reversed_text" (VStr ""))
   end) >>
  on_host (assign_output "random_float" random_float).

Definition after_incoming_connection (target_parameter : string)
  : M state unit :=
  modify (fun s =>
    State (host s) (<[target_parameter := true]> (incoming_connections s))).

Definition after_incoming_connection_removed (target_parameter : string)
  : M state unit :=
  modify (fun s =>
    State (host s) (<[target_parameter := false]> (incoming_connections s))).

(** [validate_before_workflow_run]: the errors, or [None] when there are
    none. *)
Definition validate_before_workflow_run (s : state) : option (list exn) :=
  let errors : list exn := [] in
  let free_text_value := get_str (host s) "free_text" in
  let errors :=
    if negb (from_option truthy false free_text_value)
    then errors ++ [ValueError "The 'free_text' parameter is empty."]
    else errors in
  let errors :=
    if negb (default false (incoming_connections s !! "free_text"))
    then errors ++ [ValueError
           "The 'free_text' parameter does not have an incoming connection."]
    else errors in
  match errors with
  | [] => None
  | _ => Some errors
  end.

End Example.

(* ===================================================================== *)
(** ** [TextToSpeechNode] *)
(* ===================================================================== *)

Module TextToSpeech.

Section node.

(** What the driver returns: an [AudioArtifact]. *)
Variable artifact : Type.

(** The values [process] reads with [get_parameter_value], and the two
    entries it writes: [parameter_values["status_message"]] and
    [parameter_output_values["audio_output"]]. *)
Record state : Type := State {
  text : option string;
  voice : option string;
  format : option string;
  status_message : option string;
  audio_output : option artifact
}.

(** [self.get_config_value("OpenAI", "OPENAI_API_KEY")]. *)
Variable get_config_value : exn + option string.
(** [OpenAiTextToSpeechDriver(model="tts-1", voice=voice, format=format,
    api_key=api_key).run_text_to_audio(prompts=[text])]. *)
Variable run_text_to_audio :
  option string -> option string -> string -> string -> exn + artifact.
(** [openai.OpenAI(api_key=api_key).models.list()], and whether an
    exception is an [openai.AuthenticationError]. *)
Variable models_list : string -> exn + unit.
Variable is_authentication_error : exn -> bool.

Definition set_status (msg : string) : M state unit :=
  modify (fun s =>
    State (text s) (voice s) (format s) (Some msg) (audio_output s)).

Definition set_audio_output (a : artifact) : M state unit :=
  modify (fun s =>
    State (text s) (voice s) (format s) (status_message s) (Some a)).

Definition process : M state unit :=
  let* text := gets text in
  let* voice := gets voice in
  let* format := gets format in
  match text with
  | Some (String c t) =>
      try_except
        (let* api_key := lift get_config_value in
         match api_key with
         | Some (String k key) =>
             let* audio_artifact :=
               lift (run_text_to_audio voice format (String k key)
                       (String c t)) in
             set_audio_output audio_artifact >>
             set_status "Audio generated successfully"
         | _ => set_status "OpenAI API key not found in configuration"
         end)
        (fun e =>
           set_status ("Error generating audio: " +:+ exn_msg e) >>
           raise e)
  | _ => set_status "No text provided"
  end.

(** [validate_before_workflow_run]: the list of exceptions, [None] when
    it is empty; an exception that is no [AuthenticationError] is not
    caught. *)
Definition validate_before_workflow_run : exn + option (list exn) :=
  let exceptions : list exn := [] in
  match get_config_value with
  | inl e => inl e
  | inr (Some (String k key)) =>
      match models_list (String k key) with
      | inr _ => inr None
      | inl e =>
          if is_authentication_error e then inr (Some (exceptions ++ [e]))
          else inl e
      end
  | inr _ =>
      inr (Some (exceptions
                   ++ [KeyError "OPENAI_API_KEY is not defined in configuration"]))
  end.

End node.

Arguments State {artifact} _ _ _ _ _.
Arguments text {artifact} _.
Arguments voice {artifact} _.
Arguments format {artifact} _.
Arguments status_message {artifact} _.
Arguments audio_output {artifact} _.
Arguments set_status {artifact} _.
Arguments set_audio_output {artifact} _.
Arguments process {artifact} _ _.

End TextToSpeech.

(* ===================================================================== *)
(** ** [SaveAudio] *)
(* ===================================================================== *)

Module SaveAudio.

Definition DEFAULT_FILENAME : string := "griptape_nodes.mp3".

Section node.

(** An object that is not a dict: an [AudioArtifact], as a rule. *)
Variable artifact : Type.

Inductive audio_input : Type :=
| AudioDict (d : dict)
| AudioObject (a : artifact).

(** The entries [process] reads from [parameter_values] (absent ones
    are [None]), and [parameter_output_values["output_path"]]. *)
Record state : Type := State {
  audio : option audio_input;
  output_path : option value;
  output_path_value : option value
}.

(** [bool(a)] of an object. *)
Variable truth : artifact -> bool.
(** [AudioLoader().parse(url)]. *)
Variable parse : value -> exn + artifact.
(** [GriptapeNodes.StaticFilesManager().save_static_file(a.to_bytes(),
    output_file)]: the saved path. *)
Variable save_static_file : artifact -> value -> exn + string.

Definition to_audio_artifact (audio : audio_input) : exn + artifact :=
  match audio with
  | AudioDict d =>
      match getitem d "url" with
      | Some url => parse url
      | None => inl (ValueError "Dictionary must contain 'url' key")
      end
  | AudioObject a => inr a
  end.

(** [bool(audio)] of what [parameter_values.get("audio")] gave. *)
Definition provided (audio : option audio_input) : bool :=
  match audio with
  | None => false
  | Some (AudioDict []) => false
  | Some (AudioDict _) => true
  | Some (AudioObject a) => truth a
  end.

(** [self.parameter_output_values["output_path"] = output_file]. *)
Definition set_output_path_value (output_file : value) : M state unit :=
  modify (fun s => State (audio s) (output_path s) (Some output_file)).

Definition process : M state unit :=
  let* audio := gets audio in
  match audio with
  | Some a =>
      if provided (Some a) then
        let* output_file :=
          gets (fun s => default (VStr DEFAULT_FILENAME) (output_path s)) in
        set_output_path_value output_file >>
        try_except
          (let* audio_artifact := lift (to_audio_artifact a) in
           let* saved_path :=
             lift (save_static_file audio_artifact output_file) in
           ret tt)
          (fun e => raise (ValueError ("Error saving audio: " +:+ exn_msg e)))
      else ret tt
  | None => ret tt
  end.

End node.

Arguments AudioDict {artifact} _.
Arguments AudioObject {artifact} _.
Arguments State {artifact} _ _ _.
Arguments audio {artifact} _.
Arguments output_path {artifact} _.
Arguments output_path_value {artifact} _.
Arguments set_output_path_value {artifact} _.
Arguments to_audio_artifact {artifact} _ _.
Arguments provided {artifact} _ _.
Arguments process {artifact} _ _ _.

(** What the [try] block of [process] comes to: the saved path, or the
    exception of the conversion or of the saving. *)
Definition saved {artifact : Type} (parse : value -> exn + artifact)
    (save_static_file : artifact -> value -> exn + string)
    (a : audio_input artifact) (output_file : value) : exn + string :=
  match to_audio_artifact parse a with
  | inl e => inl e
  | inr audio_artifact => save_static_file audio_artifact output_file
  end.

End SaveAudio.

(* ===================================================================== *)
(** ** Notions the further properties are stated with *)
(* ===================================================================== *)

Module Spec2.

(** [c in s]. *)
Fixpoint has_char (c : ascii) (s : string) : bool :=
  match s with
  | EmptyString => false
  | String x s' => Ascii.eqb x c || has_char c s'
  end.

(** A value that flattening gets no entry from: a sequence of empty
    mappings (the empty sequence among them), or a mapping of such
    values. *)
Fixpoint hollow (v : value) : bool :=
  match v with
  | VDict d =>
      (fix all (d : list (string * value)) : bool :=
         match d with
         | [] => true
         | (_, v') :: d' => hollow v' && all d'
         end) d
  | VList l =>
      forallb (fun item => match item with VDict [] => true | _ => false end) l
  | _ => false
  end.

(** An element of a sequence that flattening turns into scalars only. *)
Definition flat_element (item : value) : bool :=
  match item with
  | VDict d => forallb (fun kv => is_scalar kv.2) d
  | VList _ => false
  | _ => true
  end.

(** A document in which every sequence holds scalars and mappings of
    scalars. *)
Fixpoint shallow (v : value) : bool :=
  match v with
  | VDict d =>
      (fix all (d : list (string * value)) : bool :=
         match d with
         | [] => true
         | (_, v') :: d' => shallow v' && all d'
         end) d
  | VList l => forallb flat_element l
  | _ => true
  end.

(** The keys [k[i]], [k[i+1]], ... of the elements of a sequence. *)
Fixpoint indexed_keys (new_key : string) (i : nat) (n : nat) : list string :=
  match n with
  | 0 => []
  | S n' => (new_key +:+ "[" +:+ pretty i +:+ "]") :: indexed_keys new_key (S i) n'
  end.

(** A word: non-empty, and free of whitespace. *)
Fixpoint no_space (w : string) : bool :=
  match w with
  | EmptyString => true
  | String c w' => negb (Example.isspace c) && no_space w'
  end.

Definition is_word (w : string) : bool := truthy w && no_space w.

(** What a pass of [NEW_YAMLLoaderNode] over the sequence [l] writes for
    the element [item]: the tail [str(item)] of the name, and the value
    [l[item]]. *)
Definition item_entry (repr : value -> string) (l : list value)
    (item : value) : string * value :=
  (str repr item,
   match subscript (VList l) item with
   | inr v => v
   | inl _ => VNone
   end).

(** A connection made to, or removed from, a parameter of an
    [ExampleNode]; the host reports each with the matching callback. *)
Inductive connection_event : Type :=
| Connected (target_parameter : string)
| Disconnected (target_parameter : string).

Definition deliver (s : Example.state) (e : connection_event)
  : Example.state :=
  match e with
  | Connected t => (Example.after_incoming_connection t s).1
  | Disconnected t => (Example.after_incoming_connection_removed t s).1
  end.

(** Whether the last event on [target] made a connection; [init] when
    there is no event on it. *)
Fixpoint last_connected (init : bool) (evs : list connection_event)
    (target : string) : bool :=
  match evs with
  | [] => init
  | Connected t :: evs' =>
      last_connected (if String.eqb t target then true else init) evs' target
  | Disconnected t :: evs' =>
      last_connected (if String.eqb t target then false else init) evs' target
  end.

End Spec2.

Import Spec2.

(* ===================================================================== *)
(** * Properties *)
(* ===================================================================== *)

(** ** Strings and dicts *)

Module PyFacts.

Lemma app_String (c : ascii) (a b : string) :
  String c a +:+ b = String c (a +:+ b).
Proof. reflexivity. Qed.

Lemma app_empty_l (b : string) : "" +:+ b = b.
Proof. reflexivity. Qed.

Ltac str_simpl := simpl; rewrite ?app_String, ?app_empty_l; simpl.

Lemma string_app_assoc (a b c : string) : (a +:+ b) +:+ c = a +:+ b +:+ c.
Proof. induction a as [|x a IH]; str_simpl; [done|by rewrite IH]. Qed.

Lemma string_app_length (a b : string) :
  String.length (a +:+ b) = String.length a + String.length b.
Proof. induction a as [|x a IH]; str_simpl; [done|by rewrite IH]. Qed.





Lemma replace_char_no_old (old new : ascii) (s : string) (i : nat) :
  old <> new -> String.get i (replace_char old new s) <> Some old.
Proof.
  intros Hne. revert i. induction s as [|c s IH]; intros i; simpl; [done|].
  destruct i as [|i]; [|apply IH].
  destruct (Ascii.eqb_spec c old); congruence.
Qed.

(** *** [setitem] and [dict(items)] *)

Lemma update_items_cons (d : dict) k v items :
  update_items d ((k, v) :: items) = update_items (setitem d k v) items.
Proof. reflexivity. Qed.

Lemma setitem_fresh (d : dict) k v :
  k ∉ keys d -> setitem d k v = d ++ [(k, v)].
Proof.
  induction d as [|[k' v'] d IH]; simpl; intros Hk; [done|].
  apply not_elem_of_cons in Hk as [Hne Hk].
  destruct (String.eqb_spec k' k); [congruence|]. by rewrite IH.
Qed.

Lemma keys_setitem (d : dict) k v :
  keys (setitem d k v) = if decide (k ∈ keys d) then keys d else keys d ++ [k].
Proof.
  induction d as [|[k' v'] d IH]; simpl; [done|].
  destruct (String.eqb_spec k' k) as [->|Hne]; simpl.
  - rewrite decide_True; [done|left].
  - rewrite IH. destruct (decide (k ∈ keys d)).
    + rewrite decide_True; [done|by right].
    + rewrite decide_False; [done|]. rewrite elem_of_cons. naive_solver.
Qed.

Lemma getitem_setitem (d : dict) k v k' :
  getitem (setitem d k v) k' = if decide (k = k') then Some v else getitem d k'.
Proof.
  induction d as [|[k0 v0] d IH]; simpl.
  - destruct (String.eqb_spec k k'), (decide (k = k')); congruence.
  - destruct (String.eqb_spec k0 k) as [->|Hne]; simpl.
    + destruct (String.eqb_spec k k'), (decide (k = k')); congruence.
    + rewrite IH. destruct (String.eqb_spec k0 k'), (decide (k = k')); congruence.
Qed.

Lemma getitem_app (d1 d2 : dict) k :
  getitem (d1 ++ d2) k
  = match getitem d1 k with Some v => Some v | None => getitem d2 k end.
Proof.
  induction d1 as [|[k0 v0] d1 IH]; simpl; [done|].
  by destruct (String.eqb_spec k0 k).
Qed.

Lemma getitem_Some_elem (d : dict) k v : getitem d k = Some v -> (k, v) ∈ d.
Proof.
  induction d as [|[k0 v0] d IH]; simpl; [done|].
  destruct (String.eqb_spec k0 k) as [->|Hne].
  - intros [= ->]. left.
  - intros H. right. by apply IH.
Qed.

Lemma elem_getitem (d : dict) k v :
  NoDup (keys d) -> (k, v) ∈ d -> getitem d k = Some v.
Proof.
  induction d as [|[k0 v0] d IH]; simpl; intros Hnd Hin.
  - by apply elem_of_nil in Hin.
  - apply NoDup_cons in Hnd as [Hk0 Hnd].
    apply elem_of_cons in Hin as [[= -> ->]|Hin].
    + by rewrite String.eqb_refl.
    + destruct (String.eqb_spec k0 k) as [->|Hne]; [|by apply IH].
      destruct Hk0. apply (list_elem_of_fmap_2 fst) in Hin. exact Hin.
Qed.

Lemma keys_update_items (d : dict) items :
  forall k, k ∈ keys (update_items d items) <-> k ∈ keys d \/ k ∈ keys items.
Proof.
  revert d. induction items as [|[k0 v0] items IH]; intros d k.
  - simpl. rewrite elem_of_nil. naive_solver.
  - rewrite update_items_cons, IH, keys_setitem. simpl.
    rewrite elem_of_cons. destruct (decide (k0 ∈ keys d)).
    + naive_solver.
    + rewrite elem_of_app, list_elem_of_singleton. naive_solver.
Qed.

Lemma NoDup_keys_setitem (d : dict) k v :
  NoDup (keys d) -> NoDup (keys (setitem d k v)).
Proof.
  intros Hnd. rewrite keys_setitem. destruct (decide (k ∈ keys d)); [done|].
  apply NoDup_app. split_and!; [done| |apply NoDup_singleton].
  intros x Hx Hx'. apply list_elem_of_singleton in Hx'. by subst.
Qed.

Lemma NoDup_keys_update_items (d : dict) items :
  NoDup (keys d) -> NoDup (keys (update_items d items)).
Proof.
  revert d. induction items as [|[k0 v0] items IH]; intros d Hnd; [done|].
  rewrite update_items_cons. apply IH. by apply NoDup_keys_setitem.
Qed.

(** A dict has each key once. *)
Lemma NoDup_keys_dict_of_items items : NoDup (keys (dict_of_items items)).
Proof. apply (NoDup_keys_update_items []). apply NoDup_nil_2. Qed.

Lemma keys_dict_of_items items k :
  k ∈ keys (dict_of_items items) <-> k ∈ keys items.
Proof.
  unfold dict_of_items. fold (update_items [] items).
  rewrite keys_update_items. simpl. rewrite elem_of_nil. naive_solver.
Qed.

Lemma getitem_update_items (d : dict) items k :
  getitem (update_items d items) k
  = match getitem (reverse items) k with
    | Some v => Some v
    | None => getitem d k
    end.
Proof.
  revert d. induction items as [|[k0 v0] items IH]; intros d; [done|].
  rewrite update_items_cons, IH, reverse_cons, getitem_app. simpl.
  destruct (getitem (reverse items) k); [done|].
  rewrite getitem_setitem.
  destruct (String.eqb_spec k0 k), (decide (k0 = k)); congruence.
Qed.

(** The value kept for a key is the one of its last entry. *)
Lemma getitem_dict_of_items items k :
  getitem (dict_of_items items) k = getitem (reverse items) k.
Proof.
  unfold dict_of_items. fold (update_items [] items).
  rewrite getitem_update_items. by destruct (getitem (reverse items) k).
Qed.

Lemma update_items_NoDup (d : dict) items :
  NoDup (keys (d ++ items)) -> update_items d items = d ++ items.
Proof.
  revert d. induction items as [|[k0 v0] items IH]; intros d Hnd.
  - simpl. by rewrite app_nil_r.
  - rewrite update_items_cons, setitem_fresh.
    + rewrite IH; rewrite <- app_assoc; [done|]. exact Hnd.
    + unfold keys in Hnd. rewrite fmap_app in Hnd.
      apply NoDup_app in Hnd as (_ & Hdisj & _). intros Hin.
      apply (Hdisj _ Hin). simpl. left.
Qed.

(** Entries with distinct keys already form a dict. *)
Lemma dict_of_items_NoDup items :
  NoDup (keys items) -> dict_of_items items = items.
Proof. intros H. by apply (update_items_NoDup []). Qed.

Lemma elem_dict_of_items items k v :
  (k, v) ∈ dict_of_items items -> (k, v) ∈ items.
Proof.
  intros H. apply elem_getitem in H; [|apply NoDup_keys_dict_of_items].
  rewrite getitem_dict_of_items in H. apply getitem_Some_elem in H.
  by rewrite elem_of_reverse in H.
Qed.

End PyFacts.

(* ===================================================================== *)
(** ** The flattener *)
(* ===================================================================== *)

Module FlattenSpec.

Import PyFacts.

(** The inner [fix] of [_flatten_yaml] is [flatten_items]. *)
Lemma _flatten_yaml_eq kvs parent_key sep :
  _flatten_yaml (VDict kvs) parent_key sep
  = dict_of_items (flatten_items kvs parent_key sep).
Proof.
  simpl. f_equal. induction kvs as [|[k v] rest IH]; [done|].
  simpl. by rewrite IH.
Qed.

Lemma NoDup_keys_flatten data parent_key sep :
  NoDup (keys (_flatten_yaml data parent_key sep)).
Proof.
  destruct data; try apply NoDup_nil_2.
  rewrite _flatten_yaml_eq. apply NoDup_keys_dict_of_items.
Qed.

Example flatten_key_shape :
  _flatten_yaml
    (VDict [("a", VDict [("b", VInt 1)]);
            ("list", VList [VDict [("x", VInt 1)]; VInt 2])]) "" "."
  = [("a.b", VInt 1); ("list[1].x", VInt 1); ("list[2]", VInt 2)].
Proof. reflexivity. Qed.

Example flatten_empty_containers :
  _flatten_yaml (VDict [("a", VDict []); ("b", VList [])]) "" "." = [].
Proof. reflexivity. Qed.

(** *** Duplicate keys *)

(** C1, as stated, fails.  The document
    [{"list": [{"x": 1}], "list[1].x": 2}] makes the loop emit two entries
    under the key [list[1].x], one from the sequence and one from the
    mapping; [dict(items)] keeps a single entry, so the first of the two is
    not in the result. *)
Lemma C1_counterexample :
  let doc := [("list", VList [VDict [("x", VInt 1)]]); ("list[1].x", VInt 2)] in
  ("list[1].x", VInt 1) ∈ flatten_items doc "" "."
  /\ ("list[1].x", VInt 2) ∈ flatten_items doc "" "."
  /\ _flatten_yaml (VDict doc) "" "." = [("list[1].x", VInt 2)]
  /\ ~ ("list[1].x", VInt 1) ∈ _flatten_yaml (VDict doc) "" ".".
Proof.
  split_and!.
  - vm_compute. left.
  - vm_compute. right. left.
  - reflexivity.
  - vm_compute. intros H. apply list_elem_of_singleton in H. discriminate H.
Qed.

(** C1, amended: [_flatten_yaml] returns [dict(items)].  Every emitted key
    is in the result exactly once, and the value kept for a key is the one
    of the last entry emitted under it. *)
Theorem C1_flatten_keeps_one_entry_per_key kvs parent_key sep :
  let items := flatten_items kvs parent_key sep in
  let result := _flatten_yaml (VDict kvs) parent_key sep in
  result = dict_of_items items
  /\ NoDup (keys result)
  /\ (forall k, k ∈ keys result <-> k ∈ keys items)
  /\ (forall k, getitem result k = getitem (reverse items) k).
Proof.
  cbv zeta. rewrite _flatten_yaml_eq. split_and!.
  - done.
  - apply NoDup_keys_dict_of_items.
  - apply keys_dict_of_items.
  - apply getitem_dict_of_items.
Qed.

Lemma C1_flatten_keeps_one_entry_per_key_witness :
  let kvs := [("list", VList [VDict [("x", VInt 1)]]); ("list[1].x", VInt 2)] in
  let items := flatten_items kvs "" "." in
  let result := _flatten_yaml (VDict kvs) "" "." in
  keys items = ["list[1].x"; "list[1].x"]%string
  /\ result = dict_of_items items
  /\ NoDup (keys result)
  /\ (forall k, k ∈ keys result <-> k ∈ keys items)
  /\ (forall k, getitem result k = getitem (reverse items) k).
Proof.
  split; [reflexivity|].
  apply (C1_flatten_keeps_one_entry_per_key
           [("list", VList [VDict [("x", VInt 1)]]); ("list[1].x", VInt 2)]
           "" ".").
Defined.

(** *** Mappings inside sequences *)

Lemma elem_list_entries new_key (l : list value) (i j : nat) d sub_k sub_v :
  l !! i = Some (VDict d) -> (sub_k, sub_v) ∈ d ->
  (new_key +:+ "[" +:+ pretty (j + i) +:+ "]."
     +:+ replace_char " " "_" sub_k, sub_v) ∈ list_entries new_key j l.
Proof.
  revert i j. induction l as [|item l IH]; intros i j Hi Hin; [done|].
  simpl. apply elem_of_app. destruct i as [|i]; simpl in Hi.
  - left. injection Hi as ->. simpl. rewrite Nat.add_0_r.
    apply (list_elem_of_fmap_2
      (fun '(sub_k, sub_v) =>
         (new_key +:+ "[" +:+ pretty j +:+ "]."
            +:+ replace_char " " "_" sub_k, sub_v)) _ (sub_k, sub_v)).
    exact Hin.
  - right. replace (j + S i) with (S j + i) by lia. by apply IH.
Qed.

(** C2, as stated, fails.  In [{"l": [{"x": {"y": 1}}]}] the mapping
    [{"y": 1}] sits below a sequence-element mapping; it is emitted whole
    under [l[1].x], and the emitted value is not a scalar. *)
Lemma C2_counterexample :
  let doc := [("l", VList [VDict [("x", VDict [("y", VInt 1)])]])] in
  _flatten_yaml (VDict doc) "" "." = [("l[1].x", VDict [("y", VInt 1)])]
  /\ ~ (forall k v, (k, v) ∈ _flatten_yaml (VDict doc) "" "." ->
                    is_scalar v = true).
Proof.
  split; [reflexivity|]. intros H.
  specialize (H "l[1].x"%string (VDict [("y", VInt 1)])).
  discriminate H. vm_compute. left.
Qed.

(** C2, amended: for a sequence [l] under key [k] and an element of [l]
    at (0-based) position [i] that is a mapping, each pair
    [(sub_k, sub_v)] of that mapping is emitted once under the key
    [f"{new_key}[{i+1}].{sub_k}"] with [sub_v] itself as the value: the
    loop does not go into [sub_v], whatever it is.  The key is in the
    returned dict, and the entry is too when no two emitted keys
    collide. *)
Theorem C2_sequence_element_mapping_emitted_as_is
    kvs parent_key sep k (l : list value) (i : nat) d sub_k sub_v :
  (k, VList l) ∈ kvs ->
  l !! i = Some (VDict d) ->
  (sub_k, sub_v) ∈ d ->
  let list_key :=
    join_key parent_key sep (replace_char " " "_" k)
      +:+ "[" +:+ pretty (S i) +:+ "]." +:+ replace_char " " "_" sub_k in
  (list_key, sub_v) ∈ flatten_items kvs parent_key sep
  /\ list_key ∈ keys (_flatten_yaml (VDict kvs) parent_key sep)
  /\ (NoDup (keys (flatten_items kvs parent_key sep)) ->
      (list_key, sub_v) ∈ _flatten_yaml (VDict kvs) parent_key sep).
Proof.
  intros Hk Hi Hin list_key.
  assert ((list_key, sub_v) ∈ flatten_items kvs parent_key sep) as Hitem.
  { induction kvs as [|[k0 v0] rest IH].
    - by apply elem_of_nil in Hk.
    - simpl. apply elem_of_app. apply elem_of_cons in Hk as [[= <- <-]|Hk].
      + left. by apply (elem_list_entries _ l i 1 d).
      + right. by apply IH. }
  rewrite _flatten_yaml_eq. split_and!.
  - done.
  - apply keys_dict_of_items.
    by apply (list_elem_of_fmap_2 fst _ (list_key, sub_v)).
  - intros Hnd. by rewrite dict_of_items_NoDup.
Qed.

Lemma C2_sequence_element_mapping_emitted_as_is_witness :
  let kvs := [("l", VList [VDict [("x", VDict [("y", VInt 1)])]])] in
  let list_key :=
    join_key "" "." (replace_char " " "_" "l")
      +:+ "[" +:+ pretty 1 +:+ "]." +:+ replace_char " " "_" "x" in
  list_key = "l[1].x"%string
  /\ (list_key, VDict [("y", VInt 1)]) ∈ flatten_items kvs "" "."
  /\ list_key ∈ keys (_flatten_yaml (VDict kvs) "" ".")
  /\ (NoDup (keys (flatten_items kvs "" ".")) ->
      (list_key, VDict [("y", VInt 1)]) ∈ _flatten_yaml (VDict kvs) "" ".").
Proof.
  split; [reflexivity|].
  apply (C2_sequence_element_mapping_emitted_as_is
           [("l", VList [VDict [("x", VDict [("y", VInt 1)])]])] "" "."
           "l" [VDict [("x", VDict [("y", VInt 1)])]] 0
           [("x", VDict [("y", VInt 1)])] "x" (VDict [("y", VInt 1)])).
  - left.
  - reflexivity.
  - left.
Defined.

(** *** Key normalisation *)

(** C7 at the failing input: the space of ["my key"] becomes [_], the tab
    of ["my<TAB>key"] stays. *)
Theorem C7_only_spaces_are_replaced :
  _flatten_yaml (VDict [("my key", VInt 5)]) "" "." = [("my_key", VInt 5)]
  /\ _flatten_yaml (VDict [(tab_key, VInt 5)]) "" "." = [(tab_key, VInt 5)]
  /\ String.get 2 tab_key = Some "009"%char.
Proof. split_and!; reflexivity. Qed.

End FlattenSpec.

(* ===================================================================== *)
(** ** The key filter *)
(* ===================================================================== *)

Module FilterSpec.

Import PyFacts FlattenSpec.

Lemma lower_char_upper c :
  is_upper c -> N_of_ascii (lower_char c) = (N_of_ascii c + 32)%N.
Proof.
  intros H. unfold lower_char.
  assert ((((65 <=? N_of_ascii c) && (N_of_ascii c <=? 90))
           || ((192 <=? N_of_ascii c) && (N_of_ascii c <=? 222)
               && negb (N_of_ascii c =? 215)))%N = true) as ->.
  { unfold is_upper in H.
    destruct (N.leb_spec 65 (N_of_ascii c)), (N.leb_spec (N_of_ascii c) 90),
      (N.leb_spec 192 (N_of_ascii c)), (N.leb_spec (N_of_ascii c) 222),
      (N.eqb_spec (N_of_ascii c) 215); simpl; try done; lia. }
  apply N_ascii_embedding. unfold is_upper in H. lia.
Qed.

Lemma lower_char_other c : ~ is_upper c -> lower_char c = c.
Proof.
  intros H. unfold lower_char, is_upper in *.
  destruct (N.leb_spec 65 (N_of_ascii c)), (N.leb_spec (N_of_ascii c) 90),
    (N.leb_spec 192 (N_of_ascii c)), (N.leb_spec (N_of_ascii c) 222),
    (N.eqb_spec (N_of_ascii c) 215); simpl; try done; lia.
Qed.

Lemma N_of_ascii_inj a b : N_of_ascii a = N_of_ascii b -> a = b.
Proof.
  intros H. rewrite <- (ascii_N_embedding a), <- (ascii_N_embedding b).
  by rewrite H.
Qed.

Lemma is_upper_dec c : is_upper c \/ ~ is_upper c.
Proof. unfold is_upper. lia. Qed.

Lemma lower_char_same_letter a b :
  lower_char a = lower_char b <-> same_letter a b.
Proof.
  split.
  - intros H. apply (f_equal N_of_ascii) in H.
    destruct (is_upper_dec a) as [Ha|Ha], (is_upper_dec b) as [Hb|Hb].
    + rewrite !lower_char_upper in H by done. left. apply N_of_ascii_inj. lia.
    + rewrite lower_char_upper, (lower_char_other b) in H by done.
      right. left. split; [done|lia].
    + rewrite (lower_char_other a), lower_char_upper in H by done.
      right. right. split; [done|lia].
    + rewrite !lower_char_other in H by done. left. by apply N_of_ascii_inj.
  - intros [->|[[Ha Hb]|[Hb Ha]]]; [done| |]; apply N_of_ascii_inj.
    + rewrite lower_char_upper by done.
      rewrite lower_char_other; [lia|]. unfold is_upper in *. lia.
    + rewrite (lower_char_upper b) by done.
      rewrite lower_char_other; [lia|]. unfold is_upper in *. lia.
Qed.

Lemma lower_caseless_eq s t : lower s = lower t <-> caseless_eq s t.
Proof.
  split.
  - revert t. induction s as [|a s IH]; intros [|b t] H; simpl in H; try done.
    + constructor.
    + injection H as Hc Hs. constructor; [by apply lower_char_same_letter|].
      by apply IH.
  - induction 1 as [|a b s t Hab _ IH]; simpl; [done|].
    apply lower_char_same_letter in Hab. by rewrite Hab, IH.
Qed.


(** On a dict the comprehension is a plain filter: no key repeats. *)
Lemma filter_items_eq f (d : dict) :
  NoDup (keys d) ->
  Loader.filter_items f d
  = filter (fun kv => contains (lower f) (lower kv.1)) d.
Proof.
  intros Hnd. unfold Loader.filter_items. apply dict_of_items_NoDup.
  eapply sublist_NoDup; [exact Hnd|]. apply fmap_sublist, sublist_filter.
Qed.

Lemma NoDup_keys_apply_filter key_filter data :
  NoDup (keys (Loader.apply_filter key_filter (_flatten_yaml data "" "."))).
Proof.
  unfold Loader.apply_filter. destruct key_filter as [f|].
  - destruct (truthy f).
    + apply NoDup_keys_dict_of_items.
    + apply NoDup_keys_flatten.
  - apply NoDup_keys_flatten.
Qed.

Example filter_name :
  keys (Loader.apply_filter (Some "name"%string)
          [("Name.First", VStr "a"); ("Name.Last", VStr "b"); ("Age", VInt 3)])
  = ["Name.First"; "Name.Last"]%string.
Proof. reflexivity. Qed.

(** [U+00C4] and [U+00E4] are one letter: the key [Äb] is retained
    under the filter [ä]. *)
Example filter_beyond_ascii :
  keys (Loader.apply_filter (Some (String "228" ""))
          [(String "196" "b", VInt 1); ("b", VInt 2)])
  = [String "196" "b"].
Proof. reflexivity. Qed.


End FilterSpec.

(* ===================================================================== *)
(** ** Parameter names of a pass *)
(* ===================================================================== *)

Module NamingSpec.

Import PyFacts FlattenSpec FilterSpec.

Lemma suffixed_inj base_name c c' :
  suffixed base_name c = suffixed base_name c' -> c = c'.
Proof.
  unfold suffixed. intros H. apply (inj (String.app base_name)) in H.
  rewrite !app_String, !app_empty_l in H. injection H as H.
  by apply (inj pretty) in H.
Qed.

Lemma suffixed_ne_base base_name c : base_name <> suffixed base_name c.
Proof.
  intros H. apply (f_equal String.length) in H. unfold suffixed in H.
  rewrite !string_app_length in H. simpl in H. lia.
Qed.

Lemma first_unused_not_used fuel :
  forall (used_names U : gset string) base_name param_name counter,
    size U <= fuel ->
    (forall x, x ∈ used_names ->
       x ∈ U \/ (x <> param_name
                 /\ forall c, counter <= c -> x <> suffixed base_name c)) ->
    (forall c, counter <= c -> param_name <> suffixed base_name c) ->
    Loader.first_unused fuel used_names base_name param_name counter
      ∉ used_names.
Proof.
  induction fuel as [|fuel IH]; intros used U base p c Hsize Hcover Hp; simpl.
  - case_bool_decide as Hin; [|done].
    destruct (Hcover _ Hin) as [HU|[Hne _]]; [|done].
    assert (U = ∅) as -> by (apply leibniz_equiv, size_empty_iff; lia).
    by apply not_elem_of_empty in HU.
  - case_bool_decide as Hin; [|done].
    destruct (Hcover _ Hin) as [HU|[Hne _]]; [|done].
    apply (IH used (U ∖ {[p]})).
    + assert (size (U ∖ {[p]}) = size U - size ({[p]} : gset string)) as ->.
      { apply size_difference. set_solver. }
      rewrite size_singleton. assert (size U <> 0); [|lia].
      intros H0. apply size_empty_iff in H0. set_solver.
    + intros x Hx. destruct (decide (x = p)) as [->|Hxp].
      * right. split; [apply Hp; lia|]. intros c' Hc'. apply Hp. lia.
      * destruct (Hcover _ Hx) as [HxU|[_ Hsuf]].
        -- left. set_solver.
        -- right. split; [apply Hsuf; lia|]. intros c' Hc'. apply Hsuf. lia.
    + intros c' Hc' Heq. apply suffixed_inj in Heq. lia.
Qed.

(** More rounds than [size used_names] change nothing: the loop has
    exited by then. *)
Lemma first_unused_fuel_irrelevant fuel1 :
  forall fuel2 (used_names U : gset string) base_name param_name counter,
    size U <= fuel1 -> size U <= fuel2 ->
    (forall x, x ∈ used_names ->
       x ∈ U \/ (x <> param_name
                 /\ forall c, counter <= c -> x <> suffixed base_name c)) ->
    (forall c, counter <= c -> param_name <> suffixed base_name c) ->
    Loader.first_unused fuel1 used_names base_name param_name counter
    = Loader.first_unused fuel2 used_names base_name param_name counter.
Proof.
  induction fuel1 as [|fuel1 IH];
    intros fuel2 used U base p c Hs1 Hs2 Hcover Hp.
  - destruct fuel2 as [|fuel2]; [done|]. simpl.
    case_bool_decide as Hin; [|done].
    destruct (Hcover _ Hin) as [HU|[Hne _]]; [|done].
    assert (U = ∅) as -> by (apply leibniz_equiv, size_empty_iff; lia).
    by apply not_elem_of_empty in HU.
  - destruct fuel2 as [|fuel2]; simpl.
    + case_bool_decide as Hin; [|done].
      destruct (Hcover _ Hin) as [HU|[Hne _]]; [|done].
      assert (U = ∅) as -> by (apply leibniz_equiv, size_empty_iff; lia).
      by apply not_elem_of_empty in HU.
    + case_bool_decide as Hin; [|done].
      destruct (Hcover _ Hin) as [HU|[Hne _]]; [|done].
      assert (size (U ∖ {[p]}) = size U - 1) as Hsz.
      { rewrite size_difference by set_solver. by rewrite size_singleton. }
      assert (size U <> 0).
      { intros H0. apply size_empty_iff in H0. set_solver. }
      apply (IH fuel2 used (U ∖ {[p]})); [lia|lia| |].
      * intros x Hx. destruct (decide (x = p)) as [->|Hxp].
        -- right. split; [apply Hp; lia|]. intros c' Hc'. apply Hp. lia.
        -- destruct (Hcover _ Hx) as [HxU|[_ Hsuf]].
           ++ left. set_solver.
           ++ right. split; [apply Hsuf; lia|]. intros c' Hc'. apply Hsuf. lia.
      * intros c' Hc' Heq. apply suffixed_inj in Heq. lia.
Qed.

Lemma first_unused_shape fuel :
  forall used_names base_name param_name counter,
    Loader.first_unused fuel used_names base_name param_name counter
      = param_name
    \/ exists c, counter <= c
         /\ Loader.first_unused fuel used_names base_name param_name counter
            = suffixed base_name c.
Proof.
  induction fuel as [|fuel IH]; intros used base p c; simpl.
  - left. by case_bool_decide.
  - case_bool_decide; [|by left]. right.
    destruct (IH used base (suffixed base c) (S c)) as [H'|(c' & Hc' & H')].
    + exists c. split; [lia|exact H'].
    + exists c'. split; [lia|exact H'].
Qed.

(** The loop exits with a name that is not in use. *)
Lemma unique_name_not_used used_names base_name :
  Loader.unique_name used_names base_name ∉ used_names.
Proof.
  apply (first_unused_not_used _ used_names used_names); [done| |].
  - intros x Hx. by left.
  - intros c _. apply suffixed_ne_base.
Qed.

Lemma unique_name_fuel fuel used_names base_name :
  size used_names <= fuel ->
  Loader.first_unused fuel used_names base_name base_name 1
  = Loader.unique_name used_names base_name.
Proof.
  intros H. apply (first_unused_fuel_irrelevant _ _ used_names used_names);
    [done|done| |].
  - intros x Hx. by left.
  - intros c _. apply suffixed_ne_base.
Qed.

Lemma unique_name_shape used_names base_name :
  Loader.unique_name used_names base_name = base_name
  \/ exists c, 1 <= c
       /\ Loader.unique_name used_names base_name = suffixed base_name c.
Proof. apply first_unused_shape. Qed.

Lemma unique_name_unused used_names base_name :
  base_name ∉ used_names -> Loader.unique_name used_names base_name = base_name.
Proof.
  intros H. unfold Loader.unique_name.
  destruct (size used_names); simpl; by rewrite bool_decide_false.
Qed.

Lemma unique_name_prefix used_names key :
  exists rest,
    Loader.unique_name used_names ("output_" +:+ key) = "output_" +:+ rest.
Proof.
  destruct (unique_name_shape used_names ("output_" +:+ key))
    as [->|(c & _ & ->)].
  - by exists key.
  - exists (key +:+ "_" +:+ pretty c). unfold suffixed.
    by rewrite string_app_assoc.
Qed.

Lemma assign_names_length used_names ks :
  length (Loader.assign_names used_names ks) = length ks.
Proof.
  revert used_names. induction ks as [|k ks IH]; intros used; simpl; [done|].
  by rewrite IH.
Qed.

Lemma assign_names_not_used ks :
  forall used_names x,
    x ∈ Loader.assign_names used_names ks -> x ∉ used_names.
Proof.
  induction ks as [|k ks IH]; intros used x; simpl.
  - by intros ?%elem_of_nil.
  - intros [->|Hx]%elem_of_cons.
    + apply unique_name_not_used.
    + apply IH in Hx. set_solver.
Qed.

(** The names of one pass are pairwise distinct. *)
Lemma assign_names_NoDup ks :
  forall used_names, NoDup (Loader.assign_names used_names ks).
Proof.
  induction ks as [|k ks IH]; intros used; simpl; [apply NoDup_nil_2|].
  apply NoDup_cons; split; [|apply IH].
  intros Hin. apply assign_names_not_used in Hin. set_solver.
Qed.

Lemma assign_names_prefix ks :
  forall used_names x,
    x ∈ Loader.assign_names used_names ks ->
    exists rest, x = "output_" +:+ rest.
Proof.
  induction ks as [|k ks IH]; intros used x; simpl.
  - by intros ?%elem_of_nil.
  - intros [->|Hx]%elem_of_cons; [apply unique_name_prefix|by eapply IH].
Qed.

Lemma output_name_not_fixed rest : "output_" +:+ rest ∉ fixed_names.
Proof.
  unfold fixed_names. rewrite !not_elem_of_cons. rewrite !app_String.
  split_and!; try discriminate. apply not_elem_of_nil.
Qed.

Lemma assign_names_not_fixed used_names ks x :
  x ∈ Loader.assign_names used_names ks -> x ∉ fixed_names.
Proof.
  intros (rest & ->)%assign_names_prefix. apply output_name_not_fixed.
Qed.

(** Keys that differ get their plain names: no suffix is needed. *)
Lemma assign_names_distinct_keys ks :
  forall used_names,
    NoDup ks ->
    (forall k, k ∈ ks -> "output_" +:+ k ∉ used_names) ->
    Loader.assign_names used_names ks = map (String.app "output_") ks.
Proof.
  induction ks as [|k ks IH]; intros used Hnd Hfree; simpl; [done|].
  apply NoDup_cons in Hnd as [Hk Hnd].
  rewrite unique_name_unused by (apply Hfree; left).
  f_equal. apply IH; [done|].
  intros k' Hk'. apply not_elem_of_union. split.
  - apply Hfree. by right.
  - intros Heq%elem_of_singleton. apply (inj (String.app "output_")) in Heq.
    by subst.
Qed.

Lemma assign_names_same_key k :
  Loader.assign_names ∅ [k; k]
  = ["output_" +:+ k; "output_" +:+ k +:+ "_1"].
Proof.
  simpl. rewrite unique_name_unused by set_solver. f_equal.
  rewrite union_empty_l_L. unfold Loader.unique_name.
  rewrite size_singleton. simpl.
  rewrite bool_decide_true by set_solver.
  rewrite bool_decide_false.
  - by rewrite string_app_assoc.
  - intros Heq%elem_of_singleton. symmetry in Heq.
    by apply suffixed_ne_base in Heq.
Qed.

Lemma desired_names_plain key_filter doc :
  Loader.desired_names key_filter doc
  = map (String.app "output_")
      (keys (Loader.apply_filter key_filter (_flatten_yaml doc "" "."))).
Proof.
  apply assign_names_distinct_keys.
  - apply NoDup_keys_apply_filter.
  - intros k _. apply not_elem_of_empty.
Qed.

End NamingSpec.

(* ===================================================================== *)
(** ** [YAMLLoaderNode.process] *)
(* ===================================================================== *)

Module LoaderSpec.

Import PyFacts FlattenSpec FilterSpec NamingSpec.

Lemma filter_all {A} (P : A -> Prop) `{!forall x, Decision (P x)} (l : list A) :
  (forall x, x ∈ l -> P x) -> filter P l = l.
Proof.
  induction l as [|a l IH]; intros HP; [done|].
  rewrite filter_cons_True by (apply HP; left).
  f_equal. apply IH. intros x Hx. apply HP. by right.
Qed.

Lemma filter_none {A} (P : A -> Prop) `{!forall x, Decision (P x)} (l : list A) :
  (forall x, x ∈ l -> ~ P x) -> filter P l = [].
Proof.
  induction l as [|a l IH]; intros HP; [done|].
  rewrite filter_cons_False by (apply HP; left).
  apply IH. intros x Hx. apply HP. by right.
Qed.

Lemma filter_iff_on {A} (P Q : A -> Prop) `{!forall x, Decision (P x)}
    `{!forall x, Decision (Q x)} (l : list A) :
  (forall x, x ∈ l -> P x <-> Q x) -> filter P l = filter Q l.
Proof.
  induction l as [|a l IH]; intros HPQ; [done|].
  rewrite !filter_cons. rewrite IH by (intros x Hx; apply HPQ; by right).
  destruct (decide (P a)) as [HPa|HPa], (decide (Q a)) as [HQa|HQa];
    try done; exfalso; apply (HPQ a (list_elem_of_here _ _)) in HPa || apply (HPQ a (list_elem_of_here _ _)) in HQa; done.
Qed.

(** *** The purge loop *)

Lemma purge_loop (valid : gset string) (l : list string) :
  forall n acc, exists acc',
    for_each (purge_param valid) acc l n
    = (Node (filter (fun x => x ∈ valid \/ x ∉ l) (parameters n))
            (parameter_values n) (parameter_output_values n)
            (journal n ++ map Removed (filter (fun x => x ∉ valid) l)),
       inr acc').
Proof.
  induction l as [|name l IH]; intros n acc.
  - exists acc. simpl. unfold ret. f_equal.
    rewrite filter_all, app_nil_r; [by destruct n|].
    intros x _. right. apply not_elem_of_nil.
  - simpl. unfold bind, purge_param. case_bool_decide as Hv.
    + unfold remove_parameter_element, bind, modify, ret. simpl.
      edestruct IH as [acc' ->]. exists acc'. simpl. f_equal.
      rewrite list_filter_filter, filter_cons_True by done.
      rewrite <- app_assoc. simpl. f_equal.
      apply list_filter_iff. intros x. rewrite not_elem_of_cons.
      destruct (decide (x = name)) as [->|Hne]; naive_solver.
    + unfold ret. edestruct IH as [acc' ->]. exists acc'. f_equal.
      rewrite filter_cons_False by naive_solver. f_equal.
      apply list_filter_iff. intros x. rewrite not_elem_of_cons.
      destruct (decide (x = name)) as [->|Hne]; naive_solver.
Qed.

(** The set the caller ends up with: the four fixed names. *)
Lemma elem_of_purge_valid x :
  x ∈ ({["yaml_file"; "yaml_data"; "status_message"; "key_filter"]}
         ∪ {["yaml_file"; "yaml_data"; "status_message"]} : gset string)
  <-> x ∈ fixed_names.
Proof. unfold fixed_names. set_solver. Qed.

Lemma purge_spec n :
  exists modified,
    _purge_old_parameters
      {["yaml_file"; "yaml_data"; "status_message"; "key_filter"]} n
    = (Node (filter (fun x => x ∈ fixed_names) (parameters n))
            (parameter_values n) (parameter_output_values n)
            (journal n
               ++ map Removed (filter (fun x => x ∉ fixed_names) (parameters n))),
       inr ({["yaml_file"; "yaml_data"; "status_message"; "key_filter"]}
              ∪ {["yaml_file"; "yaml_data"; "status_message"]}, modified)).
Proof.
  unfold _purge_old_parameters, bind, gets.
  edestruct (purge_loop
    ({["yaml_file"; "yaml_data"; "status_message"; "key_filter"]}
       ∪ {["yaml_file"; "yaml_data"; "status_message"]}) (parameters n) n ∅)
    as [acc' ->].
  exists acc'. unfold ret. f_equal. f_equal.
  - apply filter_iff_on. intros x Hx. rewrite elem_of_purge_valid. naive_solver.
  - do 2 f_equal. apply filter_iff_on. intros x Hx.
    by rewrite elem_of_purge_valid.
Qed.

(** *** The loop over the flattened entries *)

Lemma elem_of_ensure_all names :
  forall params x, x ∈ ensure_all params names <-> x ∈ params \/ x ∈ names.
Proof.
  induction names as [|y names IH]; intros params x; simpl.
  - rewrite elem_of_nil. naive_solver.
  - rewrite IH, elem_of_cons. case_bool_decide as Hy.
    + naive_solver.
    + rewrite elem_of_app, list_elem_of_singleton. naive_solver.
Qed.

(** Names that are new and distinct are all created, in order. *)
Lemma ensure_all_fresh names :
  forall params,
    NoDup names -> (forall x, x ∈ names -> x ∉ params) ->
    ensure_all params names = params ++ names
    /\ added params names = names.
Proof.
  induction names as [|y names IH]; intros params Hnd Hfresh; simpl.
  - by rewrite app_nil_r.
  - apply NoDup_cons in Hnd as [Hy Hnd].
    rewrite bool_decide_false by (apply Hfresh; left).
    destruct (IH (params ++ [y])) as [-> ->]; [done| |].
    + intros x Hx. rewrite elem_of_app, list_elem_of_singleton.
      intros [Hp| ->]; [|done]. eapply Hfresh; [by right|done].
    + by rewrite <- app_assoc.
Qed.

Lemma for_each_cons {S X Acc} (body : Acc -> X -> M S Acc) acc x xs s :
  for_each body acc (x :: xs) s
  = match body acc x s with
    | (s', inr acc') => for_each body acc' xs s'
    | (s', inl e) => (s', inl e)
    end.
Proof. reflexivity. Qed.

Lemma sync_entry_step repr used valid key v n :
  let p := Loader.unique_name used ("output_" +:+ key) in
  Loader.sync_entry repr (used, valid) (key, v) n
  = (Node (if bool_decide (p ∈ parameters n) then parameters n
           else parameters n ++ [p])
          (parameter_values n)
          (<[p := VStr (str repr v)]> (parameter_output_values n))
          (if bool_decide (p ∈ parameters n) then journal n
           else journal n ++ [Added p]),
     inr (used ∪ {[p]}, valid ∪ {[p]})).
Proof.
  intros p. unfold Loader.sync_entry, bind, gets, does_name_exist.
  fold p. case_bool_decide as Hp; [done|].
  unfold add_parameter, does_name_exist. by rewrite bool_decide_false.
Qed.

Lemma sync_loop repr (entries : dict) :
  forall n used valid, exists st,
    for_each (Loader.sync_entry repr) (used, valid) entries n
    = (Node (ensure_all (parameters n)
               (Loader.assign_names used (keys entries)))
            (parameter_values n)
            (set_outputs repr (parameter_output_values n)
               (Loader.assign_names used (keys entries)) (map snd entries))
            (journal n
               ++ map Added (added (parameters n)
                               (Loader.assign_names used (keys entries)))),
       inr st).
Proof.
  induction entries as [|[key v] entries IH]; intros n used valid.
  - exists (used, valid). simpl. unfold ret. f_equal.
    rewrite app_nil_r. by destruct n.
  - rewrite for_each_cons, sync_entry_step.
    edestruct IH as [st ->]. exists st. simpl.
    case_bool_decide; [done|]. by rewrite <- app_assoc.
Qed.

(** *** A pass over a document with a mapping at the root *)

(** The state a successful pass leaves: the fixed parameters that were
    there, then one parameter per flattened entry; every other parameter
    was removed first, and every name was then created. *)
Lemma process_success fs repr yaml_dump n path kvs :
  get_str n "yaml_file" = Some path ->
  fs path = inr (VDict kvs) ->
  let key_filter := get_str n "key_filter" in
  let flat := Loader.apply_filter key_filter (_flatten_yaml (VDict kvs) "" ".") in
  let names := Loader.desired_names key_filter (VDict kvs) in
  Loader.process fs repr yaml_dump n
  = (Node (filter (fun x => x ∈ fixed_names) (parameters n) ++ names)
          (<["status_message" := VStr "YAML file loaded successfully"]>
             (parameter_values n))
          (<["yaml_data" := VStr (yaml_dump (VDict flat))]>
             (set_outputs repr (parameter_output_values n) names
                (map snd flat)))
          (journal n
             ++ map Removed (filter (fun x => x ∉ fixed_names) (parameters n))
             ++ map Added names),
     inr tt).
Proof.
  intros Hfile Hload key_filter flat names.
  unfold Loader.process, bind at 1, gets at 1. rewrite Hfile.
  unfold bind at 1, gets at 1. fold key_filter.
  unfold try_except, bind at 1, lift. rewrite Hload.
  change (negb (is_dict (VDict kvs))) with false. cbv iota.
  unfold bind at 1. destruct (purge_spec n) as [modified ->]. simpl fst.
  unfold bind at 1. fold flat.
  edestruct (sync_loop repr flat) as [st ->]. simpl.
  unfold Loader.desired_names in names. fold flat in names. fold names.
  destruct (ensure_all_fresh names
              (filter (fun x => x ∈ fixed_names) (parameters n))) as [-> ->].
  - apply assign_names_NoDup.
  - intros x Hx Hin. apply list_elem_of_filter in Hin as [Hfix _].
    by apply assign_names_not_fixed in Hx.
  - by rewrite <- app_assoc.
Qed.

Lemma managed_names_after kept names :
  (forall x, x ∈ kept -> x ∈ fixed_names) ->
  (forall x, x ∈ names -> x ∉ fixed_names) ->
  filter (fun x => x ∉ fixed_names) (kept ++ names) = names
  /\ filter (fun x => x ∈ fixed_names) (kept ++ names) = kept.
Proof.
  intros Hk Hn. rewrite !filter_app. split.
  - rewrite filter_none, filter_all; [done|done|]. intros x Hx Hnot.
    by apply Hnot, Hk.
  - rewrite filter_all, filter_none; [by rewrite app_nil_r|done|done].
Qed.

(** C6: after a pass that loaded a mapping, the managed parameters are
    exactly the names the pass gave to its entries (in entry order), and
    the fixed parameters are the ones that were there before. *)
Theorem C6_managed_names_are_the_names_of_the_pass
    fs repr yaml_dump n path kvs :
  get_str n "yaml_file" = Some path ->
  fs path = inr (VDict kvs) ->
  let r := Loader.process fs repr yaml_dump n in
  r.2 = inr tt
  /\ managed_names r.1
     = Loader.desired_names (get_str n "key_filter") (VDict kvs)
  /\ filter (fun x => x ∈ fixed_names) (parameters r.1)
     = filter (fun x => x ∈ fixed_names) (parameters n)
  /\ (forall x, x ∈ fixed_names -> x ∈ parameters n -> x ∈ parameters r.1).
Proof.
  intros Hfile Hload r. unfold r.
  rewrite (process_success _ _ _ _ _ _ Hfile Hload). simpl.
  destruct (managed_names_after
              (filter (fun x => x ∈ fixed_names) (parameters n))
              (Loader.desired_names (get_str n "key_filter") (VDict kvs)))
    as [Hm Hf].
  - by intros x [? _]%list_elem_of_filter.
  - intros x. apply assign_names_not_fixed.
  - unfold managed_names. simpl. split_and!; [done|done|done|].
    intros x Hx Hin. apply elem_of_app. left. by apply list_elem_of_filter.
Qed.

Lemma C6_managed_names_are_the_names_of_the_pass_witness :
  let fs := fun _ : string => inr (VDict [("a", VInt 1); ("b", VInt 2)]) in
  let n := Node (fixed_names ++ ["output_old"])
                {["yaml_file" := VStr "doc.yaml"]} ∅ [] in
  let r := Loader.process fs (fun _ => ""%string) (fun _ => ""%string) n in
  r.2 = inr tt
  /\ managed_names r.1
     = Loader.desired_names (get_str n "key_filter")
         (VDict [("a", VInt 1); ("b", VInt 2)])
  /\ filter (fun x => x ∈ fixed_names) (parameters r.1)
     = filter (fun x => x ∈ fixed_names) (parameters n)
  /\ (forall x, x ∈ fixed_names -> x ∈ parameters n -> x ∈ parameters r.1).
Proof.
  apply (C6_managed_names_are_the_names_of_the_pass
           (fun _ : string => inr (VDict [("a", VInt 1); ("b", VInt 2)]))
           (fun _ => ""%string) (fun _ => ""%string)
           (Node (fixed_names ++ ["output_old"])
                 {["yaml_file" := VStr "doc.yaml"]} ∅ [])
           "doc.yaml" [("a", VInt 1); ("b", VInt 2)]).
  - reflexivity.
  - reflexivity.
Defined.

(** What a second pass over the same document does: it removes every
    parameter the first pass made and makes each of them again. *)
Lemma second_pass_events fs repr yaml_dump n path kvs :
  get_str n "yaml_file" = Some path ->
  fs path = inr (VDict kvs) ->
  let names := Loader.desired_names (get_str n "key_filter") (VDict kvs) in
  let n1 := (Loader.process fs repr yaml_dump n).1 in
  let n2 := (Loader.process fs repr yaml_dump n1).1 in
  pass_events n1 n2 = map Removed names ++ map Added names
  /\ parameters n2 = parameters n1.
Proof.
  intros Hfile Hload names n1 n2.
  assert (Hn1 := process_success fs repr yaml_dump n path kvs Hfile Hload).
  cbv zeta in Hn1. fold names in Hn1.
  assert (get_str n1 "yaml_file" = Some path) as Hfile1.
  { unfold n1. rewrite Hn1. simpl. unfold get_str in *. simpl.
    by rewrite lookup_insert_ne. }
  assert (get_str n1 "key_filter" = get_str n "key_filter") as Hfilter1.
  { unfold n1. rewrite Hn1. simpl. unfold get_str. simpl.
    by rewrite lookup_insert_ne. }
  assert (Hn2 := process_success fs repr yaml_dump n1 path kvs Hfile1 Hload).
  cbv zeta in Hn2. rewrite Hfilter1 in Hn2. fold names in Hn2.
  destruct (managed_names_after
              (filter (fun x => x ∈ fixed_names) (parameters n)) names)
    as [Hm Hf].
  { by intros x [? _]%list_elem_of_filter. }
  { intros x. apply assign_names_not_fixed. }
  assert (parameters n1
          = filter (fun x => x ∈ fixed_names) (parameters n) ++ names) as Hp1.
  { unfold n1. by rewrite Hn1. }
  unfold n2, pass_events. rewrite Hn2. simpl. rewrite Hp1, Hm, Hf.
  split; [|done]. by rewrite drop_app_length.
Qed.

(** C3 at the failing input [{"a": 1}], no filter: the two passes leave
    the same parameter names and the same output values, but the second
    pass removes [output_a] and creates it again. *)
Theorem C3_second_pass_removes_and_recreates :
  let fs := fun _ : string => inr (VDict [("a", VInt 1)]) in
  let repr := fun _ : value => ""%string in
  let yaml_dump := fun _ : value => "a: 1"%string in
  let n0 := Node fixed_names {["yaml_file" := VStr "doc.yaml"]} ∅ [] in
  let n1 := (Loader.process fs repr yaml_dump n0).1 in
  let n2 := (Loader.process fs repr yaml_dump n1).1 in
  managed_names n1 = ["output_a"]%string
  /\ managed_names n2 = ["output_a"]%string
  /\ parameter_output_values n2 = parameter_output_values n1
  /\ deleted (pass_events n1 n2) = ["output_a"]%string
  /\ created (pass_events n1 n2) = ["output_a"]%string.
Proof. vm_compute. split_and!; reflexivity. Qed.

(** *** Names under collisions *)

Lemma first_unused_least fuel :
  forall used_names base_name param_name counter,
    Loader.first_unused fuel used_names base_name param_name counter
      = param_name
    \/ exists c, counter <= c
         /\ Loader.first_unused fuel used_names base_name param_name counter
            = suffixed base_name c
         /\ param_name ∈ used_names
         /\ forall c', counter <= c' < c -> suffixed base_name c' ∈ used_names.
Proof.
  induction fuel as [|fuel IH]; intros used base p c; simpl.
  - left. by case_bool_decide.
  - case_bool_decide as Hp; [|by left]. right.
    destruct (IH used base (suffixed base c) (S c))
      as [H'|(c' & Hc' & H' & Hin & Hbelow)].
    + exists c. split_and!; [lia|exact H'|done|]. intros c' Hc'. lia.
    + exists c'. split_and!; [lia|exact H'|done|]. intros c'' Hc''.
      destruct (decide (c'' = c)) as [->|Hne]; [done|]. apply Hbelow. lia.
Qed.

(** C5, as stated, fails.  In [{"my item": 1, "my_item": 2}] two
    entries are emitted under the key [my_item]; the pass makes the one
    parameter [output_my_item], and neither a second parameter with a
    suffix nor parameters named by the bare key. *)
Lemma C5_counterexample :
  let doc := [("my item", VInt 1); ("my_item", VInt 2)] in
  let n0 := Node fixed_names {["yaml_file" := VStr "doc.yaml"]} ∅ [] in
  let n1 :=
    (Loader.process (fun _ => inr (VDict doc)) (fun _ => ""%string)
       (fun _ => ""%string) n0).1 in
  keys (flatten_items doc "" ".") = ["my_item"; "my_item"]%string
  /\ managed_names n1 = ["output_my_item"]%string
  /\ ~ ("output_my_item_1"%string ∈ parameters n1)
  /\ ~ ("my_item"%string ∈ parameters n1 /\ "my_item_1"%string ∈ parameters n1).
Proof.
  vm_compute. split_and!; [reflexivity|reflexivity| |].
  - intros H. repeat (apply elem_of_cons in H as [H|H]; [discriminate H|]).
    by apply elem_of_nil in H.
  - intros [H _].
    repeat (apply elem_of_cons in H as [H|H]; [discriminate H|]).
    by apply elem_of_nil in H.
Qed.

(** C5, amended: the name of an entry is [output_<key>], or, when that
    is taken in this pass, [output_<key>_c] for the least [c >= 1] that is
    free; the names of one pass are pairwise distinct, and two entries
    with one key [k] would get [output_k] and [output_k_1].  The entries
    of a pass come from a dict, so their keys differ and every name of a
    pass is the plain [output_<key>]. *)
Theorem C5_names_of_a_pass :
  (forall used_names key,
     let base_name := "output_" +:+ key in
     let param_name := Loader.unique_name used_names base_name in
     (param_name ∉ used_names)
     /\ (param_name = base_name
         \/ (exists c, 1 <= c /\ param_name = suffixed base_name c
               /\ base_name ∈ used_names
               /\ forall c', 1 <= c' < c ->
                    suffixed base_name c' ∈ used_names)))
  /\ (forall used_names ks,
        NoDup (Loader.assign_names used_names ks)
        /\ length (Loader.assign_names used_names ks) = length ks)
  /\ (forall k,
        Loader.assign_names ∅ [k; k]
        = ["output_" +:+ k; "output_" +:+ k +:+ "_1"])
  /\ (forall key_filter doc,
        Loader.desired_names key_filter doc
        = map (String.app "output_")
            (keys (Loader.apply_filter key_filter (_flatten_yaml doc "" ".")))).
Proof.
  split_and!.
  - intros used key base p. split; [apply unique_name_not_used|].
    apply first_unused_least.
  - intros used ks. split; [apply assign_names_NoDup|apply assign_names_length].
  - apply assign_names_same_key.
  - apply desired_names_plain.
Qed.

Lemma C5_names_of_a_pass_witness :
  Loader.assign_names ∅ ["item"; "item"]%string
  = ["output_" +:+ "item"; "output_" +:+ "item" +:+ "_1"].
Proof.
  apply (proj1 (proj2 (proj2 C5_names_of_a_pass)) "item"%string).
Defined.

(** *** Passes that fail *)

Lemma process_load_error fs repr yaml_dump n path e :
  get_str n "yaml_file" = Some path ->
  fs path = inl e ->
  Loader.process fs repr yaml_dump n
  = (with_status n ("Error loading YAML file: " +:+ exn_msg e), inl e).
Proof.
  intros Hfile Hload. unfold Loader.process, bind at 1, gets at 1.
  rewrite Hfile. unfold bind at 1, gets at 1.
  unfold try_except, bind at 1, lift. by rewrite Hload.
Qed.

Lemma process_root_not_dict fs repr yaml_dump n path doc :
  get_str n "yaml_file" = Some path ->
  fs path = inr doc ->
  is_dict doc = false ->
  Loader.process fs repr yaml_dump n
  = (with_status n "YAML file must contain a dictionary at the root level",
     inr tt).
Proof.
  intros Hfile Hload Hdoc. unfold Loader.process, bind at 1, gets at 1.
  rewrite Hfile. unfold bind at 1, gets at 1.
  unfold try_except, bind at 1, lift. rewrite Hload, Hdoc. done.
Qed.

Lemma process_no_file fs repr yaml_dump n :
  get_str n "yaml_file" = None ->
  Loader.process fs repr yaml_dump n
  = (with_status n "No YAML file specified", inr tt).
Proof.
  intros Hfile. unfold Loader.process, bind at 1, gets at 1.
  rewrite Hfile. unfold bind at 1, gets at 1. done.
Qed.

End LoaderSpec.

(* ===================================================================== *)
(** ** The filter of a pass *)
(* ===================================================================== *)

Module FilterPassSpec.

Import PyFacts FlattenSpec FilterSpec NamingSpec LoaderSpec.



End FilterPassSpec.

(* ===================================================================== *)
(** ** [NEW_YAMLLoaderNode.after_value_set] *)
(* ===================================================================== *)

Module NewLoaderSpec.

Import PyFacts FlattenSpec FilterSpec NamingSpec LoaderSpec.

(** *** Decimal numerals *)

Lemma is_digit_pretty_N_char x : is_digit (pretty_N_char x).
Proof.
  unfold pretty_N_char, is_digit.
  repeat case_match; vm_compute; split; congruence.
Qed.

Lemma all_digits_pretty_N_go x :
  forall s, all_digits s -> all_digits (pretty_N_go x s).
Proof.
  induction (N.lt_wf_0 x) as [x _ IH]; intros s Hs.
  destruct (decide (0 < x)%N) as [Hx|Hx].
  - rewrite pretty_N_go_step by done. apply IH.
    + by apply N.div_lt.
    + split; [apply is_digit_pretty_N_char|done].
  - assert (x = 0%N) as -> by lia. by rewrite pretty_N_go_0.
Qed.

Lemma pretty_N_go_nonempty x :
  forall s, s <> ""%string -> pretty_N_go x s <> ""%string.
Proof.
  induction (N.lt_wf_0 x) as [x _ IH]; intros s Hs.
  destruct (decide (0 < x)%N) as [Hx|Hx].
  - rewrite pretty_N_go_step by done. apply IH; [by apply N.div_lt|done].
  - assert (x = 0%N) as -> by lia. by rewrite pretty_N_go_0.
Qed.

Lemma all_digits_pretty (i : nat) : all_digits (pretty i).
Proof.
  unfold pretty, pretty_nat, pretty, pretty_N. case_decide.
  - simpl. split; [|done]. vm_compute. split; congruence.
  - by apply all_digits_pretty_N_go.
Qed.

Lemma pretty_nonempty (i : nat) : pretty i <> ""%string.
Proof.
  unfold pretty, pretty_nat, pretty, pretty_N. case_decide; [done|].
  assert (0 < N.of_nat i)%N as Hpos by lia.
  rewrite pretty_N_go_step by done. by apply pretty_N_go_nonempty.
Qed.

(** A numeral begins with a digit. *)
Lemma pretty_head (i : nat) :
  exists c rest, pretty i = String c rest /\ is_digit c.
Proof.
  assert (Hd := all_digits_pretty i). assert (Hn := pretty_nonempty i).
  destruct (pretty i) as [|c rest]; [done|]. exists c, rest. by destruct Hd.
Qed.

Lemma split_at_underscore a1 :
  forall a2 b1 b2,
    all_digits a1 -> all_digits a2 ->
    a1 +:+ "_" +:+ b1 = a2 +:+ "_" +:+ b2 -> a1 = a2 /\ b1 = b2.
Proof.
  induction a1 as [|c a1 IH]; intros [|c' a2] b1 b2 H1 H2 Heq;
    rewrite ?app_String, ?app_empty_l in Heq.
  - by injection Heq.
  - injection Heq as <- _. destruct H2 as [[_ H] _]. vm_compute in H. congruence.
  - injection Heq as -> _. destruct H1 as [[_ H] _]. vm_compute in H. congruence.
  - injection Heq as -> Heq. destruct H1 as [_ H1], H2 as [_ H2].
    destruct (IH _ _ _ H1 H2 Heq) as [-> ->]. done.
Qed.

Lemma slot_name_inj (i j : nat) k k' :
  pretty i +:+ "_" +:+ k = pretty j +:+ "_" +:+ k' -> i = j /\ k = k'.
Proof.
  intros H. apply split_at_underscore in H as [Hi Hk];
    [|apply all_digits_pretty..].
  split; [by apply (inj pretty)|done].
Qed.

Lemma slot_name_not_fixed (i : nat) k : pretty i +:+ "_" +:+ k ∉ fixed_names.
Proof.
  destruct (pretty_head i) as (c & rest & -> & Hc).
  unfold fixed_names. rewrite !not_elem_of_cons, !app_String.
  split_and!; try apply not_elem_of_nil;
    intros [= -> _]; vm_compute in Hc; destruct Hc; congruence.
Qed.

(** *** The shape of [after_value_set] *)

Lemma bind_eq {S A B} (m : M S A) (k : A -> M S B) s :
  bind m k s
  = match m s with
    | (s', inr a) => k a s'
    | (s', inl e) => (s', inl e)
    end.
Proof. reflexivity. Qed.

Lemma for_each_app {S X Acc} (body : Acc -> X -> M S Acc) xs ys :
  forall acc s,
    for_each body acc (xs ++ ys) s
    = match for_each body acc xs s with
      | (s', inr acc') => for_each body acc' ys s'
      | (s', inl e) => (s', inl e)
      end.
Proof.
  induction xs as [|x xs IH]; intros acc s; [done|].
  rewrite <- app_comm_cons, !for_each_cons.
  destruct (body acc x s) as [s' [e|acc']]; [done|]. apply IH.
Qed.

(** After the early return and the load, the method stores the document
    and goes on to [synchronise]. *)
Lemma after_value_set_loaded fs repr yaml_dump parameter_name s yaml_data :
  loaded fs parameter_name s = Some yaml_data ->
  NewLoader.after_value_set fs repr yaml_dump parameter_name s
  = bind (match yaml_data with
          | VDict d => NewLoader.set_yaml_dictionary d
          | VList _ => NewLoader.set_yaml_list yaml_data
          | _ => ret tt
          end)
         (fun _ => synchronise repr yaml_dump (get_str (NewLoader.host s) "key_filter"))
         s.
Proof.
  unfold loaded, NewLoader.after_value_set. case_bool_decide; [|done].
  rewrite bind_eq. unfold gets at 1. rewrite bind_eq. unfold gets at 1.
  destruct (get_str (NewLoader.host s) "yaml_file") as [yaml_file|]; [|done].
  destruct (NewLoader._load_yaml_file fs yaml_file) as [e|v] eqn:Hload;
    [done|]. intros [= ->]. reflexivity.
Qed.

(** A pass whose load fails raises the error and leaves the whole state,
    status message included, as it was. *)
Lemma after_value_set_load_error fs repr yaml_dump parameter_name s path e :
  parameter_name ∈ ["yaml_file"; "key_filter"]%string ->
  get_str (NewLoader.host s) "yaml_file" = Some path ->
  NewLoader._load_yaml_file fs path = inl e ->
  NewLoader.after_value_set fs repr yaml_dump parameter_name s = (s, inl e).
Proof.
  intros Hp Hfile Hload. unfold NewLoader.after_value_set.
  rewrite bool_decide_true by done.
  rewrite bind_eq. unfold gets at 1. rewrite bind_eq. unfold gets at 1.
  rewrite Hfile, bind_eq. unfold lift at 1. by rewrite Hload.
Qed.

Lemma after_value_set_not_loaded fs repr yaml_dump parameter_name s :
  loaded fs parameter_name s = None ->
  NewLoader.yaml_dictionary
    (NewLoader.after_value_set fs repr yaml_dump parameter_name s).1
  = NewLoader.yaml_dictionary s.
Proof.
  unfold loaded, NewLoader.after_value_set. case_bool_decide; [|done].
  rewrite bind_eq. unfold gets at 1. rewrite bind_eq. unfold gets at 1.
  destruct (get_str (NewLoader.host s) "yaml_file") as [yaml_file|]; [|done].
  destruct (NewLoader._load_yaml_file fs yaml_file) as [e|v] eqn:Hload;
    [|done]. intros _. reflexivity.
Qed.

(** *** [self.yaml_dictionary] is only written when a mapping is loaded *)

Lemma keeps_ret {A} (a : A) : keeps_dictionary (ret a).
Proof. by intros s. Qed.

Lemma keeps_lift {A} (r : exn + A) : keeps_dictionary (lift r).
Proof. by intros s. Qed.

Lemma keeps_gets {A} (f : NewLoader.state -> A) : keeps_dictionary (gets f).
Proof. by intros s. Qed.

Lemma keeps_bind {A B} (m : M NewLoader.state A) (k : A -> M NewLoader.state B) :
  keeps_dictionary m -> (forall a, keeps_dictionary (k a)) ->
  keeps_dictionary (bind m k).
Proof.
  intros Hm Hk s. rewrite bind_eq. specialize (Hm s).
  destruct (m s) as [s' [e|a]]; [done|]. simpl in Hm. by rewrite Hk.
Qed.

Lemma keeps_on_host {A} (m : M node A) : keeps_dictionary (NewLoader.on_host m).
Proof. intros s. unfold NewLoader.on_host. by destruct (m (NewLoader.host s)). Qed.

Lemma keeps_set_yaml_list v : keeps_dictionary (NewLoader.set_yaml_list v).
Proof. by intros s. Qed.

Lemma keeps_mark_modified x : keeps_dictionary (NewLoader.mark_modified x).
Proof. by intros s. Qed.

Lemma keeps_mark_all_modified X :
  keeps_dictionary (NewLoader.mark_all_modified X).
Proof. by intros s. Qed.

Lemma keeps_for_each {X Acc} (body : Acc -> X -> M NewLoader.state Acc) xs :
  (forall acc x, keeps_dictionary (body acc x)) ->
  forall acc, keeps_dictionary (for_each body acc xs).
Proof.
  intros Hbody. induction xs as [|x xs IH]; intros acc; simpl.
  - apply keeps_ret.
  - apply keeps_bind; [apply Hbody|apply IH].
Qed.

Ltac keeps :=
  repeat first
    [ apply keeps_ret | apply keeps_lift | apply keeps_gets
    | apply keeps_on_host | apply keeps_set_yaml_list
    | apply keeps_mark_modified | apply keeps_mark_all_modified
    | apply keeps_bind; [|intros ?]
    | apply keeps_for_each; intros ? ?
    | case_match ].

Lemma keeps_sync_item repr st item :
  keeps_dictionary (NewLoader.sync_item repr st item).
Proof. unfold NewLoader.sync_item. destruct st as [[index used] valid]. keeps. Qed.

Lemma keeps_synchronise repr yaml_dump key_filter :
  keeps_dictionary (synchronise repr yaml_dump key_filter).
Proof.
  unfold synchronise. keeps. apply keeps_sync_item.
Qed.

(** The field after a pass: the mapping the pass loaded, or else the
    mapping that was there. *)
Lemma yaml_dictionary_after fs repr yaml_dump parameter_name s :
  NewLoader.yaml_dictionary
    (NewLoader.after_value_set fs repr yaml_dump parameter_name s).1
  = match loaded fs parameter_name s with
    | Some (VDict d) => d
    | _ => NewLoader.yaml_dictionary s
    end.
Proof.
  destruct (loaded fs parameter_name s) as [yaml_data|] eqn:Hl.
  - rewrite (after_value_set_loaded _ _ _ _ _ _ Hl), bind_eq.
    destruct yaml_data; simpl; by rewrite keeps_synchronise.
  - by apply after_value_set_not_loaded.
Qed.

(** *** One round of the loop over [self.yaml_list] *)

Lemma sync_item_eq repr index used valid item s :
  let p := pretty index +:+ "_" +:+ str repr item in
  let h := NewLoader.host s in
  let h1 :=
    if does_name_exist h p then h
    else Node (parameters h ++ [p]) (parameter_values h)
              (parameter_output_values h) (journal h ++ [Added p]) in
  NewLoader.sync_item repr (index, used, valid) item s
  = match subscript (NewLoader.yaml_list s) item with
    | inl e =>
        (NewLoader.State h1 (NewLoader.yaml_dictionary s)
           (NewLoader.yaml_list s) (NewLoader.modified_parameters_set s),
         inl e)
    | inr v =>
        (NewLoader.State
           (Node (parameters h1) (<[p := v]> (parameter_values h1))
                 (parameter_output_values h1) (journal h1))
           (NewLoader.yaml_dictionary s) (NewLoader.yaml_list s)
           (NewLoader.modified_parameters_set s ∪ {[p]}),
         inr (S index, used ∪ {[p]}, valid ∪ {[p]}))
    end.
Proof.
  intros p h h1. unfold NewLoader.sync_item. fold p.
  rewrite bind_eq. unfold gets at 1. fold h.
  destruct (does_name_exist h p) eqn:Hex.
  - rewrite bind_eq. unfold ret at 1. rewrite bind_eq. unfold gets at 1.
    rewrite bind_eq. unfold lift at 1.
    destruct (subscript (NewLoader.yaml_list s) item) as [e|v].
    + subst h1 h. by destruct s.
    + rewrite bind_eq. unfold NewLoader.on_host at 1, set_parameter_value.
      simpl. fold h. rewrite Hex. reflexivity.
  - rewrite bind_eq. unfold NewLoader.on_host at 1, add_parameter. fold h.
    rewrite Hex. rewrite bind_eq. unfold gets at 1.
    rewrite bind_eq. unfold lift at 1. simpl NewLoader.yaml_list.
    destruct (subscript (NewLoader.yaml_list s) item) as [e|v]; [done|].
    rewrite bind_eq. unfold NewLoader.on_host at 1, set_parameter_value.
    simpl. unfold does_name_exist. simpl.
    rewrite bool_decide_true; [reflexivity|].
    apply elem_of_app. right. by apply list_elem_of_singleton.
Qed.

(** *** Indexing a list with its own elements *)

Lemma list_index_valid (l : list value) z :
  (- Z.of_nat (length l) <= z < Z.of_nat (length l))%Z ->
  exists v, list_index l z = inr v.
Proof.
  intros Hz. unfold list_index.
  set (pos := if (z <? 0)%Z then (z + Z.of_nat (length l))%Z else z).
  assert (0 <= pos < Z.of_nat (length l))%Z as Hpos.
  { unfold pos. destruct (Z.ltb_spec z 0); lia. }
  destruct (Z.leb_spec 0 pos); [|lia].
  destruct (Z.ltb_spec pos (Z.of_nat (length l))); [|lia]. simpl.
  destruct (lookup_lt_is_Some_2 l (Z.to_nat pos)) as [v ->]; [lia|].
  by exists v.
Qed.

Lemma list_index_invalid (l : list value) z :
  ~ (- Z.of_nat (length l) <= z < Z.of_nat (length l))%Z ->
  list_index l z = inl (IndexError "list index out of range").
Proof.
  intros Hz. unfold list_index.
  set (pos := if (z <? 0)%Z then (z + Z.of_nat (length l))%Z else z).
  assert (~ (0 <= pos < Z.of_nat (length l))%Z) as Hpos.
  { unfold pos. destruct (Z.ltb_spec z 0); lia. }
  destruct (Z.leb_spec 0 pos); [|done].
  destruct (Z.ltb_spec pos (Z.of_nat (length l))); [lia|done].
Qed.

Lemma subscript_valid l item :
  valid_index l item = true -> exists v, subscript (VList l) item = inr v.
Proof.
  destruct item as [|b|z| | | |]; try done; simpl; intros H.
  - apply list_index_valid. apply Z.ltb_lt in H. destruct b; lia.
  - apply andb_true_iff in H as [H1 H2]. apply list_index_valid. lia.
Qed.

Lemma subscript_out_of_range l item :
  is_int item = true -> valid_index l item = false ->
  subscript (VList l) item = inl (IndexError "list index out of range").
Proof.
  destruct item as [|b|z| | | |]; try done; simpl; intros _ H.
  - apply list_index_invalid. apply Z.ltb_ge in H. destruct b; lia.
  - apply list_index_invalid. apply andb_false_iff in H as [H|H]; lia.
Qed.

Lemma subscript_not_int l item :
  is_int item = false ->
  subscript (VList l) item
  = inl (TypeError "list indices must be integers or slices").
Proof. by destruct item. Qed.

(** The loop over integer elements goes on while they are in range. *)
Lemma list_loop repr l pre :
  forall st s,
    NewLoader.yaml_list s = VList l ->
    forallb is_int pre = true ->
    if forallb (valid_index l) pre then
      exists s' st',
        for_each (NewLoader.sync_item repr) st pre s = (s', inr st')
        /\ NewLoader.yaml_list s' = VList l
    else
      exists s',
        for_each (NewLoader.sync_item repr) st pre s
        = (s', inl (IndexError "list index out of range")).
Proof.
  induction pre as [|x pre IH]; intros [[index used] valid] s Hl Hint.
  - simpl. by exists s, (index, used, valid).
  - simpl in Hint. apply andb_true_iff in Hint as [Hx Hint].
    simpl forallb. rewrite for_each_cons, sync_item_eq, Hl.
    destruct (valid_index l x) eqn:Hv; simpl andb.
    + destruct (subscript_valid _ _ Hv) as [v ->]. apply IH; done.
    + rewrite subscript_out_of_range by done. eauto.
Qed.

Lemma load_list fs path l :
  fs path = inr (VList l) -> NewLoader._load_yaml_file fs path = inr (VList l).
Proof. intros H. unfold NewLoader._load_yaml_file. by rewrite H. Qed.

Lemma loaded_ok fs parameter_name s path doc :
  parameter_name ∈ ["yaml_file"; "key_filter"]%string ->
  get_str (NewLoader.host s) "yaml_file" = Some path ->
  NewLoader._load_yaml_file fs path = inr doc ->
  loaded fs parameter_name s = Some doc.
Proof.
  intros Hp Hfile Hload. unfold loaded.
  by rewrite bool_decide_true, Hfile, Hload.
Qed.

(** C10, as stated, fails.  On the sequence [[5, "a"]] the loop first
    evaluates [self.yaml_list[5]], so the pass ends in an [IndexError]
    before it reaches the string. *)
Lemma C10_counterexample :
  let fs := fun _ : string => inr (VList [VInt 5; VStr "a"]) in
  let s := NewLoader.State
             (Node fixed_names {["yaml_file" := VStr "doc.yaml"]} ∅ [])
             [] (VList []) ∅ in
  let r := NewLoader.after_value_set fs (fun _ => ""%string)
             (fun _ => ""%string) "yaml_file" s in
  r.2 = inl (IndexError "list index out of range")
  /\ ~ (exists msg, r.2 = inl (TypeError msg)).
Proof.
  vm_compute. split; [reflexivity|]. intros [msg H]. discriminate H.
Qed.

(** C10, amended: with no stored mapping and an empty filter, a pass
    over a sequence that has a non-integer element never completes.  The
    loop evaluates [self.yaml_list[item]] element by element: it raises
    [TypeError] at the first non-integer element when every integer before
    it is a valid index of the sequence, and [IndexError] at the first
    integer that is not. *)
Theorem C10_sequence_pass_raises
    fs repr yaml_dump parameter_name s path pre item post :
  parameter_name ∈ ["yaml_file"; "key_filter"]%string ->
  get_str (NewLoader.host s) "yaml_file" = Some path ->
  fs path = inr (VList (pre ++ item :: post)) ->
  NewLoader.yaml_dictionary s = [] ->
  match get_str (NewLoader.host s) "key_filter" with
  | Some f => f = ""%string
  | None => True
  end ->
  "yaml_data"%string ∈ parameters (NewLoader.host s) ->
  forallb is_int pre = true ->
  is_int item = false ->
  (NewLoader.after_value_set fs repr yaml_dump parameter_name s).2
  = inl (if forallb (valid_index (pre ++ item :: post)) pre
         then TypeError "list indices must be integers or slices"
         else IndexError "list index out of range").
Proof.
  intros Hp Hfile Hfs Hdict Hfilter Hdata Hpre Hitem.
  rewrite (after_value_set_loaded _ _ _ _ _ (VList (pre ++ item :: post)))
    by (eapply loaded_ok; [done|done|by apply load_list]).
  rewrite bind_eq. unfold NewLoader.set_yaml_list at 1, modify at 1.
  unfold synchronise. rewrite bind_eq. unfold gets at 1.
  simpl NewLoader.yaml_dictionary. rewrite Hdict.
  rewrite bind_eq. unfold ret at 1.
  assert ((match get_str (NewLoader.host s) "key_filter" with
           | Some f =>
               if truthy f
               then
                 let* current := gets NewLoader.yaml_list
                 in let* filtered := lift (NewLoader.filter_yaml_list f current)
                    in NewLoader.set_yaml_list filtered
               else ret ()
           | None => ret ()
           end) = ret tt) as ->.
  { destruct (get_str (NewLoader.host s) "key_filter") as [f|]; [|done].
    by rewrite Hfilter. }
  rewrite bind_eq. unfold ret at 1. rewrite bind_eq. unfold gets at 1.
  simpl NewLoader.yaml_list. rewrite bind_eq.
  unfold NewLoader.on_host at 1, set_parameter_value, does_name_exist.
  simpl NewLoader.host. rewrite bool_decide_true by done.
  rewrite bind_eq. unfold NewLoader.mark_modified at 1, modify at 1.
  rewrite bind_eq. unfold lift at 1, iterate.
  rewrite bind_eq, for_each_app.
  match goal with
  | |- context [for_each ?body ?st pre ?s0] =>
      assert (Hloop := list_loop repr (pre ++ item :: post) pre st s0 eq_refl Hpre)
  end.
  destruct (forallb (valid_index (pre ++ item :: post)) pre).
  - destruct Hloop as (s' & [[index used] valid] & -> & Hl).
    rewrite for_each_cons, sync_item_eq, Hl.
    by rewrite subscript_not_int.
  - destruct Hloop as (s' & ->). done.
Qed.

(** *** The loop over the keys of a dict *)

Lemma dict_loop repr (flat entries : dict) :
  forall index used valid s,
    NewLoader.yaml_list s = VDict flat ->
    (forall k v, (k, v) ∈ entries -> getitem flat k = Some v) ->
    exists used' valid' modified',
      for_each (NewLoader.sync_item repr) (index, used, valid)
        (map VStr (keys entries)) s
      = (NewLoader.State
           (Node (ensure_all (parameters (NewLoader.host s))
                    (slot_names index (keys entries)))
                 (set_values (parameter_values (NewLoader.host s)) index
                    entries)
                 (parameter_output_values (NewLoader.host s))
                 (journal (NewLoader.host s)
                    ++ map Added (added (parameters (NewLoader.host s))
                                    (slot_names index (keys entries)))))
           (NewLoader.yaml_dictionary s) (NewLoader.yaml_list s) modified',
         inr (index + length entries, used', valid'))
      /\ (forall x, x ∈ valid'
                    <-> x ∈ valid \/ x ∈ slot_names index (keys entries)).
Proof.
  induction entries as [|[k v] entries IH]; intros index used valid s Hl Hget.
  - exists used, valid, (NewLoader.modified_parameters_set s). simpl. split.
    + unfold ret. rewrite Nat.add_0_r, app_nil_r.
      destruct s as [[] ? ? ?]. done.
    + intros x. rewrite elem_of_nil. naive_solver.
  - simpl map. rewrite for_each_cons, sync_item_eq, Hl. simpl str.
    simpl subscript. rewrite (Hget k v) by left.
    set (p := pretty index +:+ "_" +:+ k).
    match goal with
    | |- context [for_each _ _ _ ?s1] =>
        destruct (IH (S index) (used ∪ {[p]}) (valid ∪ {[p]}) s1)
          as (used' & valid' & modified' & -> & Hvalid)
    end.
    + done.
    + intros k' v' Hin. apply Hget. by right.
    + exists used', valid', modified'. split.
      * simpl. fold p. unfold does_name_exist.
        destruct (bool_decide (p ∈ parameters (NewLoader.host s))); simpl.
        -- do 4 f_equal. lia.
        -- rewrite <- app_assoc. simpl. do 4 f_equal. lia.
      * intros x. rewrite Hvalid. simpl. fold p.
        rewrite elem_of_union, elem_of_singleton, elem_of_cons. naive_solver.
Qed.

Lemma elem_of_slot_names ks :
  forall index x,
    x ∈ slot_names index ks
    <-> exists j k, ks !! j = Some k /\ x = pretty (index + j) +:+ "_" +:+ k.
Proof.
  induction ks as [|k ks IH]; intros index x; simpl.
  - rewrite elem_of_nil. split; [done|]. by intros (j & k & ? & _).
  - rewrite elem_of_cons, IH. split.
    + intros [->|(j & k' & Hj & ->)].
      * exists 0, k. by rewrite Nat.add_0_r.
      * exists (S j), k'. split; [done|]. do 2 f_equal. lia.
    + intros ([|j] & k' & Hj & ->); simpl in Hj.
      * left. injection Hj as ->. by rewrite Nat.add_0_r.
      * right. exists j, k'. split; [done|]. do 2 f_equal. lia.
Qed.

Lemma slot_names_not_fixed index ks x :
  x ∈ slot_names index ks -> x ∉ fixed_names.
Proof.
  intros (j & k & _ & ->)%elem_of_slot_names. apply slot_name_not_fixed.
Qed.

Lemma set_values_other entries :
  forall values index name,
    name ∉ slot_names index (keys entries) ->
    set_values values index entries !! name = values !! name.
Proof.
  induction entries as [|[k v] entries IH]; intros values index name Hn;
    simpl; [done|].
  simpl in Hn. apply not_elem_of_cons in Hn as [Hne Hn].
  rewrite IH by done. by rewrite lookup_insert_ne.
Qed.

(** Each entry's value is under the entry's own name: later names differ
    in their number. *)
Lemma set_values_lookup entries :
  forall values index j k v,
    entries !! j = Some (k, v) ->
    set_values values index entries !! (pretty (index + j) +:+ "_" +:+ k)
    = Some v.
Proof.
  induction entries as [|[k0 v0] entries IH];
    intros values index j k v Hj; [done|].
  destruct j as [|j]; simpl in Hj.
  - injection Hj as -> ->. simpl. rewrite Nat.add_0_r.
    rewrite set_values_other; [by rewrite lookup_insert_eq|].
    intros (j & k' & _ & Heq)%elem_of_slot_names.
    apply slot_name_inj in Heq as [Heq _]. lia.
  - simpl. replace (index + S j) with (S index + j) by lia. by apply IH.
Qed.

Lemma purge_spec_any (valid : gset string) n :
  exists modified,
    _purge_old_parameters valid n
    = (Node (filter (fun x => x ∈ valid ∪ {["yaml_file"; "yaml_data";
                                             "status_message"]})
               (parameters n))
            (parameter_values n) (parameter_output_values n)
            (journal n
               ++ map Removed
                    (filter (fun x => x ∉ valid ∪ {["yaml_file"; "yaml_data";
                                                    "status_message"]})
                       (parameters n))),
       inr (valid ∪ {["yaml_file"; "yaml_data"; "status_message"]},
            modified)).
Proof.
  unfold _purge_old_parameters. rewrite bind_eq. unfold gets at 1.
  rewrite bind_eq.
  edestruct (purge_loop
    (valid ∪ {["yaml_file"; "yaml_data"; "status_message"]})
    (parameters n) n ∅) as [acc' ->].
  exists acc'. unfold ret. do 2 f_equal.
  apply filter_iff_on. intros x Hx. naive_solver.
Qed.

(** *** A pass while a mapping is stored *)

Lemma filter_step key_filter s flat0 :
  NewLoader.yaml_list s = VDict flat0 ->
  (match key_filter with
   | Some f =>
       if truthy f then
         let* current := gets NewLoader.yaml_list in
         let* filtered := lift (NewLoader.filter_yaml_list f current) in
         NewLoader.set_yaml_list filtered
       else ret tt
   | None => ret tt
   end) s
  = (NewLoader.State (NewLoader.host s) (NewLoader.yaml_dictionary s)
       (VDict (Loader.apply_filter key_filter flat0))
       (NewLoader.modified_parameters_set s), inr tt).
Proof.
  intros Hl. destruct s as [h d yl m]. simpl in Hl. subst yl.
  destruct key_filter as [f|]; simpl; [|done].
  destruct (truthy f); done.
Qed.

(** With a non-empty mapping stored, what [synchronise] writes depends on
    the stored mapping and the filter only, not on [self.yaml_list]. *)
Lemma synchronise_stored repr yaml_dump key_filter s :
  NewLoader.yaml_dictionary s <> [] ->
  "yaml_data"%string ∈ parameters (NewLoader.host s) ->
  let flat :=
    Loader.apply_filter key_filter
      (_flatten_yaml (VDict (NewLoader.yaml_dictionary s)) "" ".") in
  let names := slot_names 1 (keys flat) in
  exists (valid' modified : gset string) jnl,
    synchronise repr yaml_dump key_filter s
    = (NewLoader.State
         (Node (filter (fun x => x ∈ valid')
                  (ensure_all (parameters (NewLoader.host s)) names))
               (set_values
                  (<["yaml_data" := VStr (yaml_dump (VDict flat))]>
                     (parameter_values (NewLoader.host s))) 1 flat)
               (parameter_output_values (NewLoader.host s)) jnl)
         (NewLoader.yaml_dictionary s) (VDict flat) modified,
       inr (Some modified))
    /\ (forall x, x ∈ valid' <-> x ∈ fixed_names \/ x ∈ names).
Proof.
  intros Hstored Hdata flat names. unfold synchronise.
  rewrite bind_eq. unfold gets at 1.
  destruct (NewLoader.yaml_dictionary s) as [|kv stored] eqn:Hd; [done|].
  rewrite bind_eq. unfold NewLoader.set_yaml_list at 1, modify at 1.
  rewrite bind_eq.
  rewrite (filter_step key_filter _ (_flatten_yaml (VDict (kv :: stored)) "" "."))
    by done.
  fold flat. simpl NewLoader.host. simpl NewLoader.yaml_dictionary.
  simpl NewLoader.modified_parameters_set.
  rewrite bind_eq. unfold gets at 1. simpl NewLoader.yaml_list.
  rewrite bind_eq.
  unfold NewLoader.on_host at 1, set_parameter_value, does_name_exist.
  simpl NewLoader.host. rewrite bool_decide_true by done.
  rewrite bind_eq. unfold NewLoader.mark_modified at 1, modify at 1.
  rewrite bind_eq. unfold lift at 1, iterate. rewrite bind_eq.
  match goal with
  | |- context [for_each _ (?i, ?u, ?v) _ ?s1] =>
      destruct (dict_loop repr flat flat i u v s1)
        as (used' & valid1 & modified1 & -> & Hvalid)
  end.
  { done. }
  { intros k v Hin. apply elem_getitem; [|done].
    subst flat. rewrite <- Hd. apply NoDup_keys_apply_filter. }
  rewrite bind_eq. unfold NewLoader.on_host at 1. simpl NewLoader.host.
  simpl snd.
  match goal with
  | |- context [_purge_old_parameters valid1 ?n1] =>
      destruct (purge_spec_any valid1 n1) as [modified2 ->]
  end.
  rewrite bind_eq. unfold NewLoader.mark_all_modified at 1, modify at 1.
  rewrite bind_eq. unfold gets at 1. unfold ret.
  cbn [NewLoader.host parameters parameter_values parameter_output_values
       journal NewLoader.yaml_dictionary NewLoader.yaml_list
       NewLoader.modified_parameters_set fst snd].
  rewrite Hd. eexists _, _, _. split; [reflexivity|].
  intros x. rewrite elem_of_union, Hvalid. fold names.
  unfold fixed_names. set_solver.
Qed.

(** [_load_yaml_file] returns what was read, or raises. *)
Lemma load_inr fs path doc :
  NewLoader._load_yaml_file fs path = inr doc -> fs path = inr doc.
Proof.
  unfold NewLoader._load_yaml_file. destruct (fs path) as [e|v].
  - by destruct e.
  - destruct (is_dict v); [congruence|]. destruct (is_list v); [congruence|done].
Qed.

Lemma run_pass_dictionary repr yaml_dump s p :
  NewLoader.yaml_dictionary (run_pass repr yaml_dump s p)
  = match pass_loaded s p with
    | Some (VDict d) => d
    | _ => NewLoader.yaml_dictionary s
    end.
Proof.
  unfold run_pass, pass_loaded. fold (pass_start s p).
  by rewrite yaml_dictionary_after.
Qed.

(** C9, as stated, fails.  After a pass that loaded [{"a": 1}], a pass
    that loads the empty mapping replaces the stored mapping; the pass
    after it, which loads the sequence [[0]], computes its slot from that
    sequence. *)
Lemma C9_counterexample :
  let repr := fun _ : value => ""%string in
  let yaml_dump := fun _ : value => ""%string in
  let load doc := Pass (fun _ => inr doc) "yaml_file" (VStr "doc.yaml") in
  let s1 := run_pass repr yaml_dump NewLoader.init_state
              (load (VDict [("a", VInt 1)])) in
  let s2 := run_pass repr yaml_dump s1 (load (VDict [])) in
  let s3 := run_pass repr yaml_dump s2 (load (VList [VInt 0])) in
  NewLoader.yaml_dictionary s1 = [("a", VInt 1)]
  /\ NewLoader.yaml_dictionary s2 = []
  /\ NewLoader.yaml_list s3 = VList [VInt 0]
  /\ managed_names (NewLoader.host s3) = ["1_0"]%string
  /\ parameter_values (NewLoader.host s3) !! "1_0"%string = Some (VInt 0).
Proof. vm_compute. split_and!; reflexivity. Qed.

(** C9, amended.  [self.yaml_dictionary] is written only by a pass that
    loads a mapping.  A pass that loads a mapping stores it, in place of
    the mapping stored before; the field keeps its mapping through all
    passes that load none (they load a sequence, or their load fails, or
    no file is named).  While the stored mapping is non-empty, a pass that
    loads a sequence completes, and its [yaml_data] output, its slot names
    and its slot values are those of the flattened (and filtered) stored
    mapping; the sequence [l] does not occur in them. *)
Theorem C9_stored_mapping_shadows_sequences repr yaml_dump :
  (forall s p d,
     pass_loaded s p = Some (VDict d) ->
     NewLoader.yaml_dictionary (run_pass repr yaml_dump s p) = d)
  /\ (forall s ps,
        load_no_mapping repr yaml_dump s ps ->
        NewLoader.yaml_dictionary (run_passes repr yaml_dump s ps)
        = NewLoader.yaml_dictionary s)
  /\ (forall fs parameter_name s path l,
        parameter_name ∈ ["yaml_file"; "key_filter"]%string ->
        get_str (NewLoader.host s) "yaml_file" = Some path ->
        fs path = inr (VList l) ->
        NewLoader.yaml_dictionary s <> [] ->
        "yaml_data"%string ∈ parameters (NewLoader.host s) ->
        let flat :=
          Loader.apply_filter (get_str (NewLoader.host s) "key_filter")
            (_flatten_yaml (VDict (NewLoader.yaml_dictionary s)) "" ".") in
        let r := NewLoader.after_value_set fs repr yaml_dump parameter_name s in
        (exists modified, r.2 = inr (Some modified))
        /\ NewLoader.yaml_dictionary r.1 = NewLoader.yaml_dictionary s
        /\ NewLoader.yaml_list r.1 = VDict flat
        /\ parameter_values (NewLoader.host r.1) !! "yaml_data"%string
           = Some (VStr (yaml_dump (VDict flat)))
        /\ (forall x, x ∈ managed_names (NewLoader.host r.1)
                      <-> x ∈ slot_names 1 (keys flat))
        /\ (forall j k v,
              flat !! j = Some (k, v) ->
              parameter_values (NewLoader.host r.1)
                !! (pretty (S j) +:+ "_" +:+ k) = Some v)).
Proof.
  split_and!.
  - intros s p d Hl. by rewrite run_pass_dictionary, Hl.
  - intros s ps. revert s. induction ps as [|p ps IH]; intros s Hps; [done|].
    destruct Hps as [Hp Hps]. unfold run_passes. simpl.
    unfold run_passes in IH. rewrite IH by done.
    rewrite run_pass_dictionary.
    destruct (pass_loaded s p) as [[| | | | | |d]|]; try done.
    by destruct (Hp d).
  - intros fs parameter_name s path l Hp Hfile Hfs Hstored Hdata flat r.
    assert (exists (valid' modified : gset string) jnl,
      r = (NewLoader.State
             (Node (filter (fun x => x ∈ valid')
                      (ensure_all (parameters (NewLoader.host s))
                         (slot_names 1 (keys flat))))
                   (set_values
                      (<["yaml_data" := VStr (yaml_dump (VDict flat))]>
                         (parameter_values (NewLoader.host s))) 1 flat)
                   (parameter_output_values (NewLoader.host s)) jnl)
             (NewLoader.yaml_dictionary s) (VDict flat) modified,
           inr (Some modified))
      /\ (forall x, x ∈ valid'
                    <-> x ∈ fixed_names \/ x ∈ slot_names 1 (keys flat)))
      as (valid' & modified & jnl & -> & Hvalid).
    { unfold r.
      rewrite (after_value_set_loaded _ _ _ _ _ (VList l))
        by (eapply loaded_ok; [done|done|by apply load_list]).
      rewrite bind_eq. unfold NewLoader.set_yaml_list at 1, modify at 1.
      match goal with
      | |- context [synchronise _ _ ?kf ?s1] =>
          destruct (synchronise_stored repr yaml_dump kf s1 Hstored Hdata)
            as (valid' & modified & jnl & -> & Hvalid)
      end.
      by exists valid', modified, jnl. }
    cbn [NewLoader.host parameters parameter_values parameter_output_values
         journal NewLoader.yaml_dictionary NewLoader.yaml_list
         NewLoader.modified_parameters_set fst snd].
    fold flat. split_and!.
    + by exists modified.
    + done.
    + done.
    + rewrite set_values_other; [by rewrite lookup_insert_eq|].
      intros H%slot_names_not_fixed. apply H. unfold fixed_names. set_solver.
    + intros x. unfold managed_names. cbn [parameters].
      rewrite !list_elem_of_filter, Hvalid, elem_of_ensure_all. split.
      * naive_solver.
      * intros Hx. split_and!; [by eapply slot_names_not_fixed| |]; by right.
    + intros j k v Hj. by apply (set_values_lookup flat _ 1 j k v).
Qed.

Lemma C9_stored_mapping_shadows_sequences_witness :
  let repr := fun _ : value => ""%string in
  let yaml_dump := fun _ : value => ""%string in
  let load doc := Pass (fun _ => inr doc) "yaml_file" (VStr "doc.yaml") in
  let s1 := run_pass repr yaml_dump NewLoader.init_state
              (load (VDict [("a", VInt 1)])) in
  let later :=
    [load (VList [VStr "x"]);
     Pass (fun _ => inl (FileNotFoundError "No such file")) "yaml_file"
          (VStr "gone.yaml");
     Pass (fun _ => inr (VDict [("b", VInt 2)])) "yaml_file" VNone] in
  let s4 := run_passes repr yaml_dump s1 later in
  let s5 := run_pass repr yaml_dump s4 (load (VDict [("b", VInt 2)])) in
  let r := NewLoader.after_value_set (fun _ => inr (VList [VStr "x"]))
             repr yaml_dump "yaml_file" s1 in
  NewLoader.yaml_dictionary s1 = [("a", VInt 1)]
  /\ NewLoader.yaml_dictionary s4 = NewLoader.yaml_dictionary s1
  /\ NewLoader.yaml_dictionary s5 = [("b", VInt 2)]
  /\ NewLoader.yaml_list r.1 = VDict [("a", VInt 1)]
  /\ (forall x, x ∈ managed_names (NewLoader.host r.1)
                <-> x ∈ slot_names 1 ["a"]%string).
Proof.
  intros repr yaml_dump load s1 later s4 s5 r.
  destruct (C9_stored_mapping_shadows_sequences repr yaml_dump)
    as (Hstore & Hkeep & Hshadow).
  split; [apply Hstore; reflexivity|].
  split.
  { apply Hkeep. simpl.
    repeat split; intros d H; vm_compute in H; discriminate H. }
  split; [apply Hstore; reflexivity|].
  destruct (Hshadow (fun _ => inr (VList [VStr "x"])) "yaml_file"%string s1
              "doc.yaml"%string [VStr "x"])
    as (_ & _ & Hl & _ & Hm & _).
  - left.
  - reflexivity.
  - reflexivity.
  - discriminate.
  - vm_compute. do 2 right. left.
  - split; [exact Hl|exact Hm].
Defined.

Lemma C10_sequence_pass_raises_witness :
  let s := NewLoader.State
             (Node fixed_names {["yaml_file" := VStr "doc.yaml"]} ∅ [])
             [] (VList []) ∅ in
  (NewLoader.after_value_set
     (fun _ => inr (VList ([VInt 0; VInt (-1)] ++ VStr "a" :: [])))
     (fun _ => ""%string) (fun _ => ""%string) "yaml_file" s).2
  = inl (if forallb (valid_index ([VInt 0; VInt (-1)] ++ VStr "a" :: []))
              [VInt 0; VInt (-1)]
         then TypeError "list indices must be integers or slices"
         else IndexError "list index out of range").
Proof.
  apply (C10_sequence_pass_raises
           (fun _ => inr (VList ([VInt 0; VInt (-1)] ++ VStr "a" :: [])))
           (fun _ => ""%string) (fun _ => ""%string) "yaml_file"
           (NewLoader.State
              (Node fixed_names {["yaml_file" := VStr "doc.yaml"]} ∅ [])
              [] (VList []) ∅)
           "doc.yaml" [VInt 0; VInt (-1)] (VStr "a") []).
  - left.
  - reflexivity.
  - reflexivity.
  - reflexivity.
  - vm_compute. exact I.
  - vm_compute. do 2 right. left.
  - reflexivity.
  - reflexivity.
Defined.

(** *** Passes that fail *)

Lemma load_fails fs path :
  (exists e, fs path = inl e)
  \/ (exists doc, fs path = inr doc /\ is_dict doc = false
                  /\ is_list doc = false) ->
  exists e, NewLoader._load_yaml_file fs path = inl e.
Proof.
  unfold NewLoader._load_yaml_file.
  intros [[e ->]|(doc & -> & -> & ->)]; [|by eexists].
  destruct e; by eexists.
Qed.

(** C4, as stated, fails.  On a document whose root is the scalar [5],
    [YAMLLoaderNode.process] writes the status message and returns
    normally: nothing is raised to the caller. *)
Lemma C4_counterexample :
  let n := Node fixed_names {["yaml_file" := VStr "doc.yaml"]} ∅ [] in
  let r := Loader.process (fun _ => inr (VInt 5)) (fun _ => ""%string)
             (fun _ => ""%string) n in
  r.2 = inr tt
  /\ ~ (exists e, r.2 = inl e)
  /\ parameter_values r.1 !! "status_message"%string
     = Some (VStr "YAML file must contain a dictionary at the root level").
Proof.
  vm_compute. split_and!; [reflexivity| |reflexivity].
  intros [e H]. discriminate H.
Qed.

(** C4, amended.  In [YAMLLoaderNode.process] a pass whose load raises
    (file not found, parse error) creates, updates and deletes no slot
    and changes nothing but the status message, which becomes
    [Error loading YAML file: <message>], and raises the error again; a
    pass whose root is not a mapping changes nothing but the status
    message either, and returns normally.  In
    [NEW_YAMLLoaderNode.after_value_set] a pass whose load fails in any of
    the three ways raises, and leaves the node exactly as it was: no slot
    is created, updated or deleted, and the status message is not
    written. *)
Theorem C4_failed_pass_touches_no_slot fs repr yaml_dump :
  (forall n path e,
     get_str n "yaml_file" = Some path ->
     fs path = inl e ->
     Loader.process fs repr yaml_dump n
     = (with_status n ("Error loading YAML file: " +:+ exn_msg e), inl e))
  /\ (forall n path doc,
        get_str n "yaml_file" = Some path ->
        fs path = inr doc ->
        is_dict doc = false ->
        Loader.process fs repr yaml_dump n
        = (with_status n
             "YAML file must contain a dictionary at the root level",
           inr tt))
  /\ (forall parameter_name s path,
        parameter_name ∈ ["yaml_file"; "key_filter"]%string ->
        get_str (NewLoader.host s) "yaml_file" = Some path ->
        (exists e, fs path = inl e)
        \/ (exists doc, fs path = inr doc /\ is_dict doc = false
                        /\ is_list doc = false) ->
        let r := NewLoader.after_value_set fs repr yaml_dump parameter_name s in
        (exists e, r.2 = inl e) /\ r.1 = s).
Proof.
  split_and!.
  - intros n path e. apply process_load_error.
  - intros n path doc. apply process_root_not_dict.
  - intros parameter_name s path Hp Hfile Hfail r.
    destruct (load_fails _ _ Hfail) as [e He]. unfold r.
    rewrite (after_value_set_load_error _ _ _ _ _ _ _ Hp Hfile He). simpl.
    split; [by exists e|done].
Qed.

Lemma C4_failed_pass_touches_no_slot_witness :
  let fs := fun _ : string => inl (FileNotFoundError "No such file") in
  let n := Node (fixed_names ++ ["output_a"])
             {["yaml_file" := VStr "doc.yaml"]} ∅ [] in
  Loader.process fs (fun _ => ""%string) (fun _ => ""%string) n
  = (with_status n ("Error loading YAML file: "
                      +:+ exn_msg (FileNotFoundError "No such file")),
     inl (FileNotFoundError "No such file")).
Proof.
  apply (proj1 (C4_failed_pass_touches_no_slot
                  (fun _ : string => inl (FileNotFoundError "No such file"))
                  (fun _ => ""%string) (fun _ => ""%string))
               (Node (fixed_names ++ ["output_a"])
                  {["yaml_file" := VStr "doc.yaml"]} ∅ [])
               "doc.yaml"%string (FileNotFoundError "No such file")).
  - reflexivity.
  - reflexivity.
Defined.

End NewLoaderSpec.

(* ===================================================================== *)
(** ** More on the flattener *)
(* ===================================================================== *)

Module FlattenMore.

Import PyFacts FlattenSpec FilterSpec NamingSpec LoaderSpec NewLoaderSpec.

(** Induction on a document, through its sequences and mappings. *)
Lemma value_ind_deep (P : value -> Prop) :
  P VNone -> (forall b, P (VBool b)) -> (forall z, P (VInt z)) ->
  (forall r, P (VFloat r)) -> (forall s, P (VStr s)) ->
  (forall l, Forall P l -> P (VList l)) ->
  (forall d, Forall (fun kv => P kv.2) d -> P (VDict d)) ->
  forall v, P v.
Proof.
  intros HN HB HI HF HS HL HD. fix IH 1. intros [|b|z|r|s|l|d].
  - apply HN.
  - apply HB.
  - apply HI.
  - apply HF.
  - apply HS.
  - apply HL. induction l as [|x l IHl]; constructor; [apply IH|apply IHl].
  - apply HD. induction d as [|[k x] d IHd]; constructor; [apply IH|apply IHd].
Qed.

Lemma has_char_app c (a b : string) :
  has_char c (a +:+ b) = has_char c a || has_char c b.
Proof.
  induction a as [|x a IH]; [done|]. rewrite app_String. simpl.
  by rewrite IH, orb_assoc.
Qed.

Lemma has_char_replace (old new : ascii) s :
  old <> new -> has_char old (replace_char old new s) = false.
Proof.
  intros Hne. induction s as [|x s IH]; [done|]. simpl. rewrite IH.
  destruct (Ascii.eqb_spec x old) as [->|Hx].
  - destruct (Ascii.eqb_spec new old); [congruence|done].
  - destruct (Ascii.eqb_spec x old); [congruence|done].
Qed.

Lemma replace_char_id (old new : ascii) s :
  has_char old s = false -> replace_char old new s = s.
Proof.
  induction s as [|x s IH]; [done|]. simpl. intros H.
  apply orb_false_iff in H as [Hx Hs]. by rewrite Hx, IH.
Qed.

Lemma all_digits_no_space s : all_digits s -> has_char " " s = false.
Proof.
  induction s as [|x s IH]; [done|]. intros [Hx Hs]. simpl. rewrite IH by done.
  destruct (Ascii.eqb_spec x " ") as [->|]; [|done].
  destruct Hx as [Hx _]. vm_compute in Hx. congruence.
Qed.

Lemma has_char_join_key parent_key sep k :
  has_char " " parent_key = false -> has_char " " sep = false ->
  has_char " " k = false ->
  has_char " " (join_key parent_key sep k) = false.
Proof.
  intros Hp Hs Hk. unfold join_key. destruct (truthy parent_key); [|done].
  by rewrite !has_char_app, Hp, Hs, Hk.
Qed.

Lemma indexed_key_no_space new_key (i : nat) rest :
  has_char " " new_key = false -> has_char " " rest = false ->
  has_char " " (new_key +:+ "[" +:+ pretty i +:+ rest) = false.
Proof.
  intros Hn Hr. rewrite !has_char_app, Hn, Hr.
  by rewrite (all_digits_no_space (pretty i)) by apply all_digits_pretty.
Qed.

Lemma list_entries_no_space new_key (l : list value) :
  has_char " " new_key = false ->
  forall i k, k ∈ keys (list_entries new_key i l) -> has_char " " k = false.
Proof.
  intros Hn. induction l as [|item l IH]; intros i k; simpl.
  - by intros ?%elem_of_nil.
  - unfold keys. rewrite fmap_app, elem_of_app. intros [Hk|Hk]; [|by eapply IH].
    destruct item; simpl in Hk;
      try (apply list_elem_of_singleton in Hk as ->;
           by apply indexed_key_no_space).
    apply list_elem_of_fmap in Hk as ([k' v'] & -> & Hin).
    apply list_elem_of_fmap in Hin as ([sub_k sub_v] & [= -> ->] & _). simpl.
    apply indexed_key_no_space; [done|].
    rewrite (has_char_app _ "]."), has_char_replace by done. done.
Qed.

Lemma flatten_no_space data parent_key sep :
  has_char " " parent_key = false ->
  has_char " " sep = false ->
  forall k, k ∈ keys (_flatten_yaml data parent_key sep) ->
            has_char " " k = false.
Proof.
  revert parent_key. induction data as [| | | | | |d IH] using value_ind_deep;
    intros parent_key Hp Hs k; try by intros ?%elem_of_nil.
  rewrite _flatten_yaml_eq, keys_dict_of_items.
  induction d as [|[k0 v0] d IHd]; simpl.
  - by intros ?%elem_of_nil.
  - apply Forall_cons in IH as [Hv0 IH]. simpl in Hv0.
    unfold keys. rewrite fmap_app, elem_of_app.
    intros [Hk|Hk]; [|by apply IHd].
    assert (has_char " " (join_key parent_key sep (replace_char " " "_" k0))
            = false) as Hnew.
    { apply has_char_join_key; [done|done|]. by apply has_char_replace. }
    destruct v0; try (apply list_elem_of_singleton in Hk as ->; exact Hnew).
    + by eapply list_entries_no_space.
    + by eapply Hv0.
Qed.

(** X1.  No key of a flattening contains a space, as long as the prefix
    and the separator contain none (the node's calls pass [""] and
    ["."]). *)
Theorem flatten_keys_have_no_space data parent_key sep :
  has_char " " parent_key = false ->
  has_char " " sep = false ->
  forall k, k ∈ keys (_flatten_yaml data parent_key sep) ->
            has_char " " k = false.
Proof. apply flatten_no_space. Qed.

Lemma flatten_keys_have_no_space_witness :
  has_char " " "" = false
  /\ has_char " " "." = false
  /\ forall k,
       k ∈ keys (_flatten_yaml
                   (VDict [("my key", VList [VDict [("sub key", VInt 1)]])])
                   "" ".") ->
       has_char " " k = false.
Proof.
  split; [reflexivity|]. split; [reflexivity|].
  apply (flatten_keys_have_no_space
           (VDict [("my key", VList [VDict [("sub key", VInt 1)]])]) "" ".").
  - reflexivity.
  - reflexivity.
Defined.

Lemma flatten_items_flat (d : dict) sep :
  (forall k v, (k, v) ∈ d -> is_scalar v = true /\ has_char " " k = false) ->
  flatten_items d "" sep = d.
Proof.
  induction d as [|[k v] d IH]; intros Hd; [done|]. simpl.
  destruct (Hd k v) as [Hv Hk]; [left|].
  rewrite replace_char_id by done. rewrite IH.
  - unfold join_key. simpl. by destruct v.
  - intros k' v' Hin. apply Hd. by right.
Qed.

Lemma flatten_flat (d : dict) sep :
  NoDup (keys d) ->
  (forall k v, (k, v) ∈ d -> is_scalar v = true /\ has_char " " k = false) ->
  _flatten_yaml (VDict d) "" sep = d.
Proof.
  intros Hnd Hd. rewrite _flatten_yaml_eq, flatten_items_flat by done.
  by apply dict_of_items_NoDup.
Qed.

(** X2.  A mapping that is flat already is returned entry by entry, in
    order: when the values are scalars and the texts [str(k)] of the keys
    (which is how a [dict] carries its keys) are distinct and free of
    spaces, the result has the key [str(k)] and the same value for each
    entry, so a mapping with string keys comes back as it is. *)
Theorem flatten_flat_mapping_unchanged (d : dict) sep :
  NoDup (keys d) ->
  (forall k v, (k, v) ∈ d -> is_scalar v = true /\ has_char " " k = false) ->
  _flatten_yaml (VDict d) "" sep = d.
Proof. apply flatten_flat. Qed.

Lemma flatten_flat_mapping_unchanged_witness :
  _flatten_yaml (VDict [("a.b", VInt 1); ("list[1]", VStr "two words")]) "" "."
  = [("a.b", VInt 1); ("list[1]", VStr "two words")].
Proof.
  apply (flatten_flat_mapping_unchanged
           [("a.b", VInt 1); ("list[1]", VStr "two words")] ".").
  - apply (bool_decide_unpack _). reflexivity.
  - intros k v Hin.
    repeat (apply elem_of_cons in Hin as [[= -> ->]|Hin]; [by split|]).
    by apply elem_of_nil in Hin.
Defined.

(** X3.  Flattening a second time changes nothing when the first result
    holds scalars only; a result that still holds a sequence or a mapping
    is flattened further. *)
Theorem flatten_twice data :
  let once := _flatten_yaml data "" "." in
  (forall k v, (k, v) ∈ once -> is_scalar v = true) ->
  _flatten_yaml (VDict once) "" "." = once.
Proof.
  intros once Hs. apply flatten_flat.
  - apply NoDup_keys_flatten.
  - intros k v Hin. split; [by eapply Hs|].
    apply (flatten_no_space data "" "."); [done|done|].
    by apply (list_elem_of_fmap_2 fst _ (k, v)).
Qed.

Lemma flatten_twice_witness :
  let once :=
    _flatten_yaml
      (VDict [("a", VDict [("b c", VInt 1)]); ("l", VList [VInt 2; VInt 3])])
      "" "." in
  once = [("a.b_c", VInt 1); ("l[1]", VInt 2); ("l[2]", VInt 3)]
  /\ _flatten_yaml (VDict once) "" "." = once.
Proof.
  split; [reflexivity|].
  apply (flatten_twice
    (VDict [("a", VDict [("b c", VInt 1)]); ("l", VList [VInt 2; VInt 3])])).
  intros k v Hin.
  repeat (apply elem_of_cons in Hin as [[= -> ->]|Hin]; [reflexivity|]).
  by apply elem_of_nil in Hin.
Defined.

(** *** What yields no entry *)

Lemma hollow_dict (d : dict) :
  hollow (VDict d) = forallb (fun kv => hollow kv.2) d.
Proof. induction d as [|[k v] d IH]; [done|]. simpl in *. by rewrite IH. Qed.

Lemma shallow_dict (d : dict) :
  shallow (VDict d) = forallb (fun kv => shallow kv.2) d.
Proof. induction d as [|[k v] d IH]; [done|]. simpl in *. by rewrite IH. Qed.

Lemma dict_of_items_nil items : dict_of_items items = [] <-> items = [].
Proof.
  split; [|by intros ->]. intros H. destruct items as [|[k v] items]; [done|].
  assert (k ∈ keys (dict_of_items ((k, v) :: items))) as Hk.
  { apply keys_dict_of_items. left. }
  rewrite H in Hk. by apply elem_of_nil in Hk.
Qed.

Lemma list_entries_nil new_key (l : list value) :
  forall i,
    list_entries new_key i l = []
    <-> forallb (fun item => match item with VDict [] => true | _ => false end)
          l = true.
Proof.
  induction l as [|item l IH]; intros i; simpl; [done|].
  rewrite andb_true_iff, <- (IH (S i)). split.
  - intros [H1 H2]%app_eq_nil. split; [|done].
    destruct item as [| | | | | |[|[]]]; done.
  - intros [H1 H2]. rewrite H2, app_nil_r.
    destruct item as [| | | | | |[|[]]]; done.
Qed.

(** X4.  A mapping flattens to nothing exactly when it is hollow: every
    value in it is a sequence of empty mappings (the empty sequence
    included) or a mapping that is hollow itself. *)
Theorem flatten_empty_iff_hollow kvs parent_key sep :
  _flatten_yaml (VDict kvs) parent_key sep = [] <-> hollow (VDict kvs) = true.
Proof.
  revert parent_key.
  assert (forall v, match v with
                    | VDict d => forall p, _flatten_yaml v p sep = []
                                           <-> hollow v = true
                    | _ => True
                    end) as H; [|exact (H (VDict kvs))].
  induction v as [| | | | | |d IH] using value_ind_deep; try done.
  intros p. rewrite _flatten_yaml_eq, dict_of_items_nil, hollow_dict.
  induction d as [|[k0 v0] d IHd]; [done|].
  apply Forall_cons in IH as [Hv0 IH]. simpl in Hv0. simpl.
  rewrite andb_true_iff, <- (IHd IH). split.
  - intros [H1 H2]%app_eq_nil. split; [|done].
    destruct v0; try done.
    + by apply list_entries_nil in H1.
    + by apply Hv0 in H1.
  - intros [H1 H2]. rewrite H2, app_nil_r.
    destruct v0; try done.
    + by apply list_entries_nil.
    + by apply Hv0.
Qed.

(** X5.  When every sequence of the document holds scalars and mappings
    of scalars only, every value of the flattening is a scalar. *)
Theorem flatten_shallow_gives_scalars kvs parent_key sep :
  shallow (VDict kvs) = true ->
  forall k v, (k, v) ∈ _flatten_yaml (VDict kvs) parent_key sep ->
              is_scalar v = true.
Proof.
  revert parent_key.
  assert (forall x, match x with
                    | VDict d =>
                        shallow x = true ->
                        forall p k v, (k, v) ∈ _flatten_yaml x p sep ->
                                      is_scalar v = true
                    | _ => True
                    end) as H;
    [|intros p Hs k v; by apply (H (VDict kvs))].
  induction x as [| | | | | |d IH] using value_ind_deep; try done.
  intros Hs p k v Hin. rewrite _flatten_yaml_eq in Hin.
  apply elem_dict_of_items in Hin. rewrite shallow_dict in Hs.
  induction d as [|[k0 v0] d IHd]; [by apply elem_of_nil in Hin|].
  apply Forall_cons in IH as [Hv0 IH]. simpl in Hv0, Hs, Hin.
  apply andb_true_iff in Hs as [Hs0 Hs].
  apply elem_of_app in Hin as [Hin|Hin]; [|by apply IHd].
  destruct v0 as [| | | | |l|d0];
    try (by apply list_elem_of_singleton in Hin as [= _ ->]).
  - (* a sequence *)
    clear -Hin Hs0. simpl in Hs0.
    revert Hin. generalize 1. induction l as [|item l IHl]; intros i Hin.
    + by apply elem_of_nil in Hin.
    + simpl in Hs0, Hin. apply andb_true_iff in Hs0 as [Hitem Hs0].
      apply elem_of_app in Hin as [Hin|Hin]; [|by eapply IHl].
      destruct item; simpl in Hin;
        try (by apply list_elem_of_singleton in Hin as [= _ ->]).
      apply list_elem_of_fmap in Hin as ([sub_k sub_v] & [= _ ->] & Hd).
      simpl in Hitem. rewrite forallb_forall in Hitem.
      apply (Hitem (sub_k, sub_v)). by apply list_elem_of_In.
  - by eapply Hv0.
Qed.

Lemma flatten_shallow_gives_scalars_witness :
  shallow (VDict [("a", VDict [("b", VInt 1)]);
                  ("list", VList [VDict [("x", VInt 1)]; VInt 2])]) = true
  /\ forall k v,
       (k, v) ∈ _flatten_yaml
                  (VDict [("a", VDict [("b", VInt 1)]);
                          ("list", VList [VDict [("x", VInt 1)]; VInt 2])])
                  "" "." ->
       is_scalar v = true.
Proof.
  split; [reflexivity|].
  apply (flatten_shallow_gives_scalars
           [("a", VDict [("b", VInt 1)]);
            ("list", VList [VDict [("x", VInt 1)]; VInt 2])] "" ".").
  reflexivity.
Defined.

(** *** Sequences without mappings *)

Lemma app_inj_r (a b c : string) : a +:+ c = b +:+ c -> a = b.
Proof.
  revert b. induction a as [|x a IH]; intros [|y b] H;
    rewrite ?app_String, ?app_empty_l in H.
  - done.
  - apply (f_equal String.length) in H. simpl in H.
    rewrite string_app_length in H. lia.
  - apply (f_equal String.length) in H. simpl in H.
    rewrite string_app_length in H. lia.
  - injection H as -> H. by rewrite (IH b H).
Qed.

Lemma indexed_key_inj new_key (i j : nat) :
  new_key +:+ "[" +:+ pretty i +:+ "]" = new_key +:+ "[" +:+ pretty j +:+ "]" ->
  i = j.
Proof.
  intros H. apply (inj (String.app new_key)) in H.
  rewrite !app_String, !app_empty_l in H. injection H as H.
  apply app_inj_r in H. by apply (inj pretty).
Qed.

Lemma elem_of_indexed_keys new_key n :
  forall i x,
    x ∈ indexed_keys new_key i n
    <-> exists j, i <= j < i + n /\ x = new_key +:+ "[" +:+ pretty j +:+ "]".
Proof.
  induction n as [|n IH]; intros i x; simpl.
  - rewrite elem_of_nil. split; [done|]. intros (j & ? & _). lia.
  - rewrite elem_of_cons, IH. split.
    + intros [->|(j & Hj & ->)]; [exists i|exists j]; split; (lia || done).
    + intros (j & Hj & ->). destruct (decide (j = i)) as [->|Hne]; [by left|].
      right. exists j. split; [lia|done].
Qed.

Lemma NoDup_indexed_keys new_key n : forall i, NoDup (indexed_keys new_key i n).
Proof.
  induction n as [|n IH]; intros i; simpl; [apply NoDup_nil_2|].
  apply NoDup_cons. split; [|apply IH].
  intros (j & Hj & Heq)%elem_of_indexed_keys.
  apply indexed_key_inj in Heq. lia.
Qed.

Lemma length_indexed_keys new_key n : forall i, length (indexed_keys new_key i n) = n.
Proof. induction n as [|n IH]; intros i; simpl; [done|by rewrite IH]. Qed.

Lemma list_entries_no_mapping new_key (l : list value) :
  Forall (fun item => is_dict item = false) l ->
  forall i,
    list_entries new_key i l = zip (indexed_keys new_key i (length l)) l.
Proof.
  induction 1 as [|item l Hitem _ IH]; intros i; [done|]. simpl.
  rewrite IH. by destruct item.
Qed.

(** X6.  A sequence under key [k] that holds no mapping yields one entry
    per element, under [k[1]], [k[2]], ... in order, with the element
    itself as the value (also when the element is a sequence). *)
Theorem flatten_sequence_of_non_mappings k (l : list value) parent_key sep :
  Forall (fun item => is_dict item = false) l ->
  _flatten_yaml (VDict [(k, VList l)]) parent_key sep
  = zip (indexed_keys (join_key parent_key sep (replace_char " " "_" k)) 1
           (length l)) l.
Proof.
  intros Hl. rewrite _flatten_yaml_eq. simpl. rewrite app_nil_r.
  rewrite list_entries_no_mapping by done.
  apply dict_of_items_NoDup. unfold keys.
  rewrite fst_zip by (rewrite length_indexed_keys; lia).
  apply NoDup_indexed_keys.
Qed.

Lemma flatten_sequence_of_non_mappings_witness :
  _flatten_yaml (VDict [("my list", VList [VInt 7; VList [VInt 8]])]) "" "."
  = zip (indexed_keys (join_key "" "." (replace_char " " "_" "my list")) 1
           (length [VInt 7; VList [VInt 8]]))
        [VInt 7; VList [VInt 8]].
Proof.
  apply (flatten_sequence_of_non_mappings "my list"
           [VInt 7; VList [VInt 8]] "" ".").
  repeat constructor.
Defined.

End FlattenMore.

(* ===================================================================== *)
(** ** More on the key filter *)
(* ===================================================================== *)

Module FilterMore.

Import PyFacts FlattenSpec FilterSpec.

(** X7.  The case of the filter does not matter: two filters that are
    equal up to the case of letters retain the same entries. *)
Theorem filter_case_of_filter_irrelevant f g (d : dict) :
  caseless_eq f g ->
  Loader.apply_filter (Some f) d = Loader.apply_filter (Some g) d.
Proof.
  intros Hfg. apply lower_caseless_eq in Hfg as Hlow.
  unfold Loader.apply_filter, Loader.filter_items. rewrite Hlow.
  assert (truthy f = truthy g) as ->; [|done].
  by destruct Hfg.
Qed.

Lemma filter_case_of_filter_irrelevant_witness :
  Loader.apply_filter (Some "Name"%string)
    [("name.first", VStr "a"); ("age", VInt 3)]
  = Loader.apply_filter (Some "nAME"%string)
      [("name.first", VStr "a"); ("age", VInt 3)].
Proof.
  apply (filter_case_of_filter_irrelevant "Name" "nAME").
  repeat (constructor;
    [first [ by left
           | right; left; split;
             [left; vm_compute; split; congruence|reflexivity]
           | right; right; split;
             [left; vm_compute; split; congruence|reflexivity] ]|]).
  constructor.
Defined.

(** X8.  Filtering is idempotent: applying the same filter to its own
    result retains every entry. *)
Theorem filter_idempotent key_filter (d : dict) :
  NoDup (keys d) ->
  Loader.apply_filter key_filter (Loader.apply_filter key_filter d)
  = Loader.apply_filter key_filter d.
Proof.
  intros Hnd. unfold Loader.apply_filter.
  destruct key_filter as [f|]; simpl; [|done].
  destruct (truthy f) eqn:Hf; [|done].
  rewrite (filter_items_eq f d) by done.
  rewrite filter_items_eq.
  - apply LoaderSpec.filter_all. by intros x [? _]%list_elem_of_filter.
  - eapply sublist_NoDup; [exact Hnd|]. apply fmap_sublist, sublist_filter.
Qed.

Lemma filter_idempotent_witness :
  let d := [("Name.First", VStr "a"); ("Age", VInt 3)] in
  Loader.apply_filter (Some "name"%string)
    (Loader.apply_filter (Some "name"%string) d)
  = Loader.apply_filter (Some "name"%string) d.
Proof.
  apply (filter_idempotent (Some "name"%string)
           [("Name.First", VStr "a"); ("Age", VInt 3)]).
  apply (bool_decide_unpack _). reflexivity.
Defined.

End FilterMore.

(* ===================================================================== *)
(** ** More on [_purge_old_parameters] and [YAMLLoaderNode.process] *)
(* ===================================================================== *)

Module LoaderMore.

Import PyFacts FlattenSpec FilterSpec NamingSpec LoaderSpec NewLoaderSpec.

Lemma purge_loop_marks (valid : gset string) (l : list string) :
  forall n acc, exists acc',
    for_each (purge_param valid) acc l n
    = (Node (filter (fun x => x ∈ valid \/ x ∉ l) (parameters n))
            (parameter_values n) (parameter_output_values n)
            (journal n ++ map Removed (filter (fun x => x ∉ valid) l)),
       inr acc')
    /\ (forall x, x ∈ acc' <-> x ∈ acc \/ (x ∈ l /\ x ∉ valid)).
Proof.
  induction l as [|name l IH]; intros n acc.
  - exists acc. split.
    + simpl. unfold ret. f_equal.
      rewrite filter_all, app_nil_r; [by destruct n|].
      intros x _. right. apply not_elem_of_nil.
    + intros x. rewrite elem_of_nil. naive_solver.
  - rewrite for_each_cons. unfold purge_param at 1. case_bool_decide as Hv.
    + rewrite bind_eq. unfold remove_parameter_element at 1, modify, ret.
      edestruct IH as (acc' & -> & Hacc). exists acc'. split.
      * simpl. f_equal.
        rewrite list_filter_filter, filter_cons_True by done.
        rewrite <- app_assoc. simpl. f_equal.
        apply list_filter_iff. intros x. rewrite not_elem_of_cons.
        destruct (decide (x = name)) as [->|Hne]; naive_solver.
      * intros x. rewrite Hacc, elem_of_union, elem_of_singleton, elem_of_cons.
        destruct (decide (x = name)) as [->|Hne]; naive_solver.
    + unfold ret. edestruct IH as (acc' & -> & Hacc). exists acc'. split.
      * f_equal. rewrite filter_cons_False by naive_solver. f_equal.
        apply list_filter_iff. intros x. rewrite not_elem_of_cons.
        destruct (decide (x = name)) as [->|Hne]; naive_solver.
      * intros x. rewrite Hacc, elem_of_cons.
        destruct (decide (x = name)) as [->|Hne]; naive_solver.
Qed.

Lemma purge_spec_marks (valid : gset string) n :
  exists modified,
    _purge_old_parameters valid n
    = (Node (filter (fun x => x ∈ valid ∪ {["yaml_file"; "yaml_data";
                                             "status_message"]})
               (parameters n))
            (parameter_values n) (parameter_output_values n)
            (journal n
               ++ map Removed
                    (filter (fun x => x ∉ valid ∪ {["yaml_file"; "yaml_data";
                                                    "status_message"]})
                       (parameters n))),
       inr (valid ∪ {["yaml_file"; "yaml_data"; "status_message"]},
            modified))
    /\ (forall x, x ∈ modified
               <-> x ∈ parameters n
                   /\ x ∉ valid ∪ {["yaml_file"; "yaml_data";
                                     "status_message"]}).
Proof.
  unfold _purge_old_parameters. rewrite bind_eq. unfold gets at 1.
  rewrite bind_eq.
  edestruct (purge_loop_marks
    (valid ∪ {["yaml_file"; "yaml_data"; "status_message"]})
    (parameters n) n ∅) as (acc' & -> & Hacc).
  exists acc'. split.
  - unfold ret. do 2 f_equal.
    apply filter_iff_on. intros x Hx. naive_solver.
  - intros x. rewrite Hacc, elem_of_empty. naive_solver.
Qed.

(** X9.  [_purge_old_parameters] never raises.  It keeps a parameter
    exactly when its name is in the given set or is one of [yaml_file],
    [yaml_data], [status_message] (so [key_filter] is removed unless the
    caller lists it), returns the names it removed, hands back the set
    with the three names added, and changes no value. *)
Theorem purge_keeps_exactly_the_valid_names (valid : gset string) n :
  let protected : gset string :=
    valid ∪ {["yaml_file"; "yaml_data"; "status_message"]} in
  let r := _purge_old_parameters valid n in
  exists removed,
    r.2 = inr (protected, removed)
    /\ parameters r.1 = filter (fun x => x ∈ protected) (parameters n)
    /\ (forall x, x ∈ removed <-> x ∈ parameters n /\ x ∉ protected)
    /\ parameter_values r.1 = parameter_values n
    /\ parameter_output_values r.1 = parameter_output_values n.
Proof.
  intros protected r.
  destruct (purge_spec_marks valid n) as (removed & Heq & Hrem).
  exists removed. unfold r. rewrite Heq. by simpl.
Qed.

(** X10.  Purging again with the same set removes nothing: the second
    call leaves the parameters and the journal as they are and returns
    the empty set. *)
Theorem purge_twice_removes_nothing (valid : gset string) n :
  let n1 := (_purge_old_parameters valid n).1 in
  let r := _purge_old_parameters valid n1 in
  parameters r.1 = parameters n1
  /\ journal r.1 = journal n1
  /\ (exists protected, r.2 = inr (protected, ∅)).
Proof.
  intros n1 r.
  destruct (purge_spec_marks valid n) as (removed & Heq & _).
  assert (forall x, x ∈ parameters n1 ->
            x ∈ valid ∪ {["yaml_file"; "yaml_data"; "status_message"]})
    as Hall.
  { intros x. unfold n1. rewrite Heq. simpl.
    by intros [? _]%list_elem_of_filter. }
  destruct (purge_spec_marks valid n1) as (removed1 & Heq1 & Hrem).
  unfold r. rewrite Heq1. simpl. split_and!.
  - by apply filter_all.
  - rewrite filter_none, app_nil_r; [done|].
    intros x Hx Hnot. by apply Hnot, Hall.
  - eexists. do 2 f_equal. apply leibniz_equiv.
    intros x. rewrite Hrem, elem_of_empty. split; [|done].
    intros [Hx Hnot]. by apply Hnot, Hall.
Qed.

(** *** The values a pass writes *)

Lemma set_outputs_other repr names :
  forall out vs x,
    x ∉ names -> set_outputs repr out names vs !! x = out !! x.
Proof.
  induction names as [|y names IH]; intros out vs x Hx; [done|].
  destruct vs as [|v vs]; [done|]. simpl.
  apply not_elem_of_cons in Hx as [Hne Hx].
  rewrite IH by done. by rewrite lookup_insert_ne.
Qed.

Lemma set_outputs_lookup repr (entries : dict) :
  forall out k v,
    NoDup (keys entries) ->
    (k, v) ∈ entries ->
    set_outputs repr out (map (String.app "output_") (keys entries))
      (map snd entries) !! ("output_" +:+ k)
    = Some (VStr (str repr v)).
Proof.
  induction entries as [|[k0 v0] entries IH]; intros out k v Hnd Hin.
  - by apply elem_of_nil in Hin.
  - simpl in Hnd. apply NoDup_cons in Hnd as [Hk0 Hnd]. simpl.
    apply elem_of_cons in Hin as [[= -> ->]|Hin]; [|by apply IH].
    rewrite set_outputs_other; [by rewrite lookup_insert_eq|].
    intros (k' & Heq & Hk')%list_elem_of_fmap.
    apply (inj (String.app "output_")) in Heq. by subst.
Qed.

(** X11.  After a pass that loaded a mapping, the slot of each retained
    entry holds [str] of the entry's value, [yaml_data] holds the dump of
    the retained entries, and the status says so. *)
Theorem process_writes_each_entry fs repr yaml_dump n path kvs :
  get_str n "yaml_file" = Some path ->
  fs path = inr (VDict kvs) ->
  let flat :=
    Loader.apply_filter (get_str n "key_filter")
      (_flatten_yaml (VDict kvs) "" ".") in
  let n' := (Loader.process fs repr yaml_dump n).1 in
  (forall k v, (k, v) ∈ flat ->
     parameter_output_values n' !! ("output_" +:+ k)
     = Some (VStr (str repr v)))
  /\ parameter_output_values n' !! "yaml_data"%string
     = Some (VStr (yaml_dump (VDict flat)))
  /\ parameter_values n' !! "status_message"%string
     = Some (VStr "YAML file loaded successfully").
Proof.
  intros Hfile Hload flat n'. unfold n'.
  rewrite (process_success _ _ _ _ _ _ Hfile Hload). cbv zeta.
  unfold fst, parameter_output_values, parameter_values.
  rewrite desired_names_plain. fold flat. split_and!.
  - intros k v Hin. rewrite lookup_insert_ne.
    + apply set_outputs_lookup; [|done].
      apply (NoDup_keys_apply_filter _ (VDict kvs)).
    + intros Heq. by rewrite app_String in Heq.
  - by rewrite lookup_insert_eq.
  - by rewrite lookup_insert_eq.
Qed.

Lemma process_writes_each_entry_witness :
  let fs := fun _ : string => inr (VDict [("a b", VInt 1); ("c", VBool true)]) in
  let repr := fun _ : value => ""%string in
  let yaml_dump := fun _ : value => ""%string in
  let n := Node fixed_names {["yaml_file" := VStr "doc.yaml"]} ∅ [] in
  let flat :=
    Loader.apply_filter (get_str n "key_filter")
      (_flatten_yaml (VDict [("a b", VInt 1); ("c", VBool true)]) "" ".") in
  let n' := (Loader.process fs repr yaml_dump n).1 in
  (forall k v, (k, v) ∈ flat ->
     parameter_output_values n' !! ("output_" +:+ k)
     = Some (VStr (str repr v)))
  /\ parameter_output_values n' !! "yaml_data"%string
     = Some (VStr (yaml_dump (VDict flat)))
  /\ parameter_values n' !! "status_message"%string
     = Some (VStr "YAML file loaded successfully").
Proof.
  apply (process_writes_each_entry
           (fun _ : string => inr (VDict [("a b", VInt 1); ("c", VBool true)]))
           (fun _ => ""%string) (fun _ => ""%string)
           (Node fixed_names {["yaml_file" := VStr "doc.yaml"]} ∅ [])
           "doc.yaml" [("a b", VInt 1); ("c", VBool true)]).
  - reflexivity.
  - reflexivity.
Defined.

(** X12.  [process] raises exactly when a file is named and loading it
    raises, and then it raises that same exception: no call it makes on
    the registry can fail. *)
Theorem process_raises_iff_load_raises fs repr yaml_dump n e :
  (Loader.process fs repr yaml_dump n).2 = inl e
  <-> exists path, get_str n "yaml_file" = Some path /\ fs path = inl e.
Proof.
  destruct (get_str n "yaml_file") as [path|] eqn:Hfile.
  - destruct (fs path) as [e'|doc] eqn:Hload.
    + rewrite (process_load_error _ _ _ _ _ _ Hfile Hload). simpl. split.
      * intros [= ->]. by exists path.
      * intros (path' & [= <-] & Hl). congruence.
    + assert ((Loader.process fs repr yaml_dump n).2 = inr tt) as ->.
      { destruct (is_dict doc) eqn:Hd.
        - destruct doc; try done.
          by rewrite (process_success _ _ _ _ _ _ Hfile Hload).
        - by rewrite (process_root_not_dict _ _ _ _ _ _ Hfile Hload Hd). }
      split; [done|]. intros (path' & [= <-] & Hl). congruence.
  - rewrite (process_no_file _ _ _ _ Hfile). simpl. split; [done|].
    by intros (path & ? & _).
Qed.

(** X13.  The registry calls of a pass that loaded a mapping: it removes
    every managed parameter that was there, in order, and then creates
    one parameter for each name of the pass, in order. *)
Theorem process_removes_all_then_creates fs repr yaml_dump n path kvs :
  get_str n "yaml_file" = Some path ->
  fs path = inr (VDict kvs) ->
  let n' := (Loader.process fs repr yaml_dump n).1 in
  pass_events n n'
  = map Removed (managed_names n)
    ++ map Added (Loader.desired_names (get_str n "key_filter") (VDict kvs)).
Proof.
  intros Hfile Hload n'. unfold n', pass_events.
  rewrite (process_success _ _ _ _ _ _ Hfile Hload). simpl.
  by rewrite drop_app_length.
Qed.

Lemma process_removes_all_then_creates_witness :
  let fs := fun _ : string => inr (VDict [("a", VInt 1)]) in
  let n := Node (fixed_names ++ ["output_old"])
             {["yaml_file" := VStr "doc.yaml"]} ∅ [] in
  let n' := (Loader.process fs (fun _ => ""%string) (fun _ => ""%string) n).1 in
  pass_events n n'
  = map Removed (managed_names n)
    ++ map Added (Loader.desired_names (get_str n "key_filter")
                    (VDict [("a", VInt 1)])).
Proof.
  apply (process_removes_all_then_creates
           (fun _ : string => inr (VDict [("a", VInt 1)]))
           (fun _ => ""%string) (fun _ => ""%string)
           (Node (fixed_names ++ ["output_old"])
              {["yaml_file" := VStr "doc.yaml"]} ∅ [])
           "doc.yaml" [("a", VInt 1)]).
  - reflexivity.
  - reflexivity.
Defined.

End LoaderMore.

(* ===================================================================== *)
(** ** [YAMLLoaderNode.after_value_set] *)
(* ===================================================================== *)

Module CallbackSpec.

Import PyFacts FlattenSpec FilterSpec NamingSpec LoaderSpec NewLoaderSpec.
Import LoaderCallback.

Lemma cb_sync_entry_step repr used valid key v f :
  let p := Loader.unique_name used ("output_" +:+ key) in
  LoaderCallback.sync_entry repr (used, valid) (key, v) f
  = (Frame (Loader.sync_entry repr (used, valid) (key, v) (self f)).1
           (modified_parameters_set f ∪ {[p]}),
     inr (used ∪ {[p]}, valid ∪ {[p]})).
Proof.
  intros p. rewrite sync_entry_step. fold p.
  unfold LoaderCallback.sync_entry, bind, gets, does_name_exist. fold p.
  case_bool_decide as Hp; [done|].
  unfold on_self, add_parameter, does_name_exist.
  by rewrite bool_decide_false.
Qed.

Lemma cb_loop repr (entries : dict) :
  forall f used valid, exists st m',
    for_each (LoaderCallback.sync_entry repr) (used, valid) entries f
    = (Frame (for_each (Loader.sync_entry repr) (used, valid) entries
                (self f)).1 m', inr st)
    /\ (forall x, x ∈ m'
          <-> x ∈ modified_parameters_set f
              \/ x ∈ Loader.assign_names used (keys entries)).
Proof.
  induction entries as [|[key v] entries IH]; intros f used valid.
  - exists (used, valid), (modified_parameters_set f). split.
    + by destruct f.
    + intros x. simpl. rewrite elem_of_nil. naive_solver.
  - rewrite !for_each_cons, cb_sync_entry_step, sync_entry_step. cbv zeta.
    edestruct (IH (Frame
      (Loader.sync_entry repr (used, valid) (key, v) (self f)).1
      (modified_parameters_set f
         ∪ {[Loader.unique_name used ("output_" +:+ key)]})))
      as (st & m' & Heq & Hm').
    rewrite sync_entry_step in Heq. cbv zeta in Heq.
    exists st, m'. split; [exact Heq|].
    intros x. rewrite Hm'. simpl.
    rewrite elem_of_union, elem_of_singleton, elem_of_cons. naive_solver.
Qed.

(** What the method does when the changed parameter is one of the two
    triggers and the file holds a mapping. *)
Lemma after_value_set_success fs repr yaml_dump name f path kvs :
  name ∈ ["yaml_file"; "key_filter"]%string ->
  get_str (self f) "yaml_file" = Some path ->
  fs path = inr (VDict kvs) ->
  exists m',
    after_value_set fs repr yaml_dump name f
    = (Frame (Loader.process fs repr yaml_dump (self f)).1 m', inr tt)
    /\ (forall x, x ∈ m'
          <-> x ∈ modified_parameters_set f
              \/ x ∈ Loader.desired_names (get_str (self f) "key_filter")
                       (VDict kvs)
              \/ x = "yaml_data"%string \/ x = "status_message"%string).
Proof.
  intros Hname Hfile Hload.
  rewrite (process_success _ _ _ _ _ _ Hfile Hload). cbv zeta. unfold fst.
  unfold after_value_set.
  rewrite bool_decide_true by done.
  unfold bind at 1, gets at 1. rewrite Hfile.
  unfold bind at 1, gets at 1.
  unfold try_except, bind at 1, lift. rewrite Hload.
  change (negb (is_dict (VDict kvs))) with false. cbv iota.
  unfold bind at 1, on_self at 1.
  destruct (purge_spec (self f)) as [modified ->]. simpl fst.
  unfold bind at 1.
  set (flat := Loader.apply_filter (get_str (self f) "key_filter")
                 (_flatten_yaml (VDict kvs) "" ".")).
  edestruct (cb_loop repr flat) as (st & m' & -> & Hm').
  simpl self in *. simpl modified_parameters_set in *.
  edestruct (sync_loop repr flat) as [st' ->]. simpl.
  unfold Loader.desired_names. fold flat.
  destruct (ensure_all_fresh (Loader.assign_names ∅ (keys flat))
              (filter (fun x => x ∈ fixed_names) (parameters (self f))))
    as [-> ->].
  - apply assign_names_NoDup.
  - intros x Hx Hin. apply list_elem_of_filter in Hin as [Hfix _].
    by apply assign_names_not_fixed in Hx.
  - eexists. split.
    + unfold on_self, mark_modified, modify, bind, Loader.set_status,
        assign_output, assign_value, ret. simpl.
      rewrite <- app_assoc. reflexivity.
    + intros x. rewrite !elem_of_union, !elem_of_singleton, Hm'.
      naive_solver.
Qed.

(** What it does in the other cases. *)
Lemma after_value_set_no_mapping fs repr yaml_dump name f :
  name ∈ ["yaml_file"; "key_filter"]%string ->
  (forall path kvs,
     get_str (self f) "yaml_file" = Some path -> fs path <> inr (VDict kvs)) ->
  after_value_set fs repr yaml_dump name f
  = (Frame (Loader.process fs repr yaml_dump (self f)).1
           (modified_parameters_set f ∪ {["status_message"]}),
     (Loader.process fs repr yaml_dump (self f)).2).
Proof.
  intros Hname Hno.
  destruct (get_str (self f) "yaml_file") as [path|] eqn:Hfile.
  - destruct (fs path) as [e|doc] eqn:Hload.
    + rewrite (process_load_error _ _ _ _ _ _ Hfile Hload).
      unfold after_value_set. rewrite bool_decide_true by done.
      unfold bind at 1, gets at 1. rewrite Hfile.
      unfold bind at 1, gets at 1.
      unfold try_except, bind at 1, lift. by rewrite Hload.
    + destruct (is_dict doc) eqn:Hd.
      { destruct doc; try done. by destruct (Hno path d). }
      rewrite (process_root_not_dict _ _ _ _ _ _ Hfile Hload Hd).
      unfold after_value_set. rewrite bool_decide_true by done.
      unfold bind at 1, gets at 1. rewrite Hfile.
      unfold bind at 1, gets at 1.
      unfold try_except, bind at 1, lift. by rewrite Hload, Hd.
  - rewrite (process_no_file _ _ _ _ Hfile).
    unfold after_value_set. rewrite bool_decide_true by done.
    unfold bind at 1, gets at 1. rewrite Hfile.
    unfold bind at 1, gets at 1. done.
Qed.

(** X14.  When the changed parameter is [yaml_file] or [key_filter],
    [after_value_set] leaves the node in the state [process] would leave
    it in, and returns or raises as [process] does. *)
Theorem after_value_set_acts_as_process fs repr yaml_dump name f :
  name ∈ ["yaml_file"; "key_filter"]%string ->
  let r := after_value_set fs repr yaml_dump name f in
  let r0 := Loader.process fs repr yaml_dump (self f) in
  self r.1 = r0.1 /\ r.2 = r0.2.
Proof.
  intros Hname r r0. unfold r, r0.
  destruct (get_str (self f) "yaml_file") as [path|] eqn:Hfile.
  - destruct (fs path) as [e|doc] eqn:Hload.
    + rewrite after_value_set_no_mapping; [done|done|].
      intros path' kvs Hp Heq. congruence.
    + destruct (is_dict doc) eqn:Hd.
      * destruct doc; try done.
        destruct (after_value_set_success fs repr yaml_dump name f path d
                    Hname Hfile Hload) as (m' & -> & _).
        split; [done|].
        by rewrite (process_success _ _ _ _ _ _ Hfile Hload).
      * rewrite after_value_set_no_mapping; [done|done|].
        intros path' kvs Hp Heq.
        assert (doc = VDict kvs) as -> by congruence. done.
  - rewrite after_value_set_no_mapping; [done|done|].
    intros path kvs. congruence.
Qed.

Lemma after_value_set_acts_as_process_witness :
  let fs := fun _ : string => inr (VDict [("a", VInt 1)]) in
  let f := Frame (Node fixed_names {["yaml_file" := VStr "doc.yaml"]} ∅ []) ∅ in
  let r := after_value_set fs (fun _ => ""%string) (fun _ => ""%string)
             "key_filter" f in
  let r0 := Loader.process fs (fun _ => ""%string) (fun _ => ""%string)
              (self f) in
  self r.1 = r0.1 /\ r.2 = r0.2.
Proof.
  apply (after_value_set_acts_as_process
           (fun _ : string => inr (VDict [("a", VInt 1)]))
           (fun _ => ""%string) (fun _ => ""%string) "key_filter"
           (Frame (Node fixed_names {["yaml_file" := VStr "doc.yaml"]} ∅ []) ∅)).
  apply list_elem_of_further, list_elem_of_here.
Defined.

(** X15.  After such a call has loaded a mapping, the set handed in holds
    what it held before, the name of every slot of the pass, [yaml_data]
    and [status_message], and nothing else: a parameter the pass removed
    and did not create again is not reported. *)
Theorem after_value_set_reports_slots_of_the_pass
    fs repr yaml_dump name f path kvs :
  name ∈ ["yaml_file"; "key_filter"]%string ->
  get_str (self f) "yaml_file" = Some path ->
  fs path = inr (VDict kvs) ->
  let f' := (after_value_set fs repr yaml_dump name f).1 in
  forall x,
    x ∈ modified_parameters_set f'
    <-> x ∈ modified_parameters_set f
        \/ x ∈ Loader.desired_names (get_str (self f) "key_filter") (VDict kvs)
        \/ x = "yaml_data"%string \/ x = "status_message"%string.
Proof.
  intros Hname Hfile Hload f'. unfold f'.
  destruct (after_value_set_success fs repr yaml_dump name f path kvs
              Hname Hfile Hload) as (m' & -> & Hm').
  exact Hm'.
Qed.

Lemma after_value_set_reports_slots_of_the_pass_witness :
  let fs := fun _ : string => inr (VDict [("a", VInt 1)]) in
  let f := LoaderCallback.Frame
             (Node (fixed_names ++ ["output_old"])
                {["yaml_file" := VStr "doc.yaml"]} ∅ []) ∅ in
  let f' := (after_value_set fs (fun _ => ""%string) (fun _ => ""%string)
               "yaml_file" f).1 in
  get_str (self f) "yaml_file" = Some "doc.yaml"%string
  /\ forall x,
       x ∈ modified_parameters_set f'
       <-> x ∈ modified_parameters_set f
           \/ x ∈ Loader.desired_names (get_str (self f) "key_filter")
                    (VDict [("a", VInt 1)])
           \/ x = "yaml_data"%string \/ x = "status_message"%string.
Proof.
  split; [reflexivity|].
  apply (after_value_set_reports_slots_of_the_pass
           (fun _ : string => inr (VDict [("a", VInt 1)]))
           (fun _ => ""%string) (fun _ => ""%string) "yaml_file"
           (Frame (Node (fixed_names ++ ["output_old"])
                     {["yaml_file" := VStr "doc.yaml"]} ∅ []) ∅)
           "doc.yaml" [("a", VInt 1)]).
  - apply list_elem_of_here.
  - reflexivity.
  - reflexivity.
Defined.

(** X16.  When such a call loads no mapping (no file is named, the load
    raises, or the root is not a mapping), the only name it adds to the
    set is [status_message], and no parameter is created or removed. *)
Theorem after_value_set_failed_pass_reports_status_only
    fs repr yaml_dump name f :
  name ∈ ["yaml_file"; "key_filter"]%string ->
  (forall path kvs,
     get_str (self f) "yaml_file" = Some path -> fs path <> inr (VDict kvs)) ->
  let f' := (after_value_set fs repr yaml_dump name f).1 in
  modified_parameters_set f'
  = modified_parameters_set f ∪ {["status_message"]}
  /\ parameters (self f') = parameters (self f)
  /\ journal (self f') = journal (self f).
Proof.
  intros Hname Hno f'. unfold f'.
  rewrite (after_value_set_no_mapping _ _ _ _ _ Hname Hno). simpl.
  split; [done|].
  destruct (get_str (self f) "yaml_file") as [path|] eqn:Hfile.
  - destruct (fs path) as [e|doc] eqn:Hload.
    + by rewrite (process_load_error _ _ _ _ _ _ Hfile Hload).
    + destruct (is_dict doc) eqn:Hd.
      { destruct doc; try done. by destruct (Hno path d). }
      by rewrite (process_root_not_dict _ _ _ _ _ _ Hfile Hload Hd).
  - by rewrite (process_no_file _ _ _ _ Hfile).
Qed.

Lemma after_value_set_failed_pass_reports_status_only_witness :
  let fs := fun _ : string => inr (VList [VInt 1]) in
  let f := Frame (Node fixed_names {["yaml_file" := VStr "doc.yaml"]} ∅ []) ∅ in
  let f' := (after_value_set fs (fun _ => ""%string) (fun _ => ""%string)
               "yaml_file" f).1 in
  modified_parameters_set f'
  = modified_parameters_set f ∪ {["status_message"]}
  /\ parameters (self f') = parameters (self f)
  /\ journal (self f') = journal (self f).
Proof.
  apply (after_value_set_failed_pass_reports_status_only
           (fun _ : string => inr (VList [VInt 1]))
           (fun _ => ""%string) (fun _ => ""%string) "yaml_file"
           (Frame (Node fixed_names {["yaml_file" := VStr "doc.yaml"]} ∅ []) ∅)).
  - apply list_elem_of_here.
  - intros path kvs _ Heq. discriminate Heq.
Defined.

End CallbackSpec.

(* ===================================================================== *)
(** ** More on [NEW_YAMLLoaderNode] *)
(* ===================================================================== *)

Module NewLoaderMore.

Import PyFacts FlattenSpec FilterSpec NamingSpec LoaderSpec NewLoaderSpec.

(** *** [_load_yaml_file] *)

(** X17.  [_load_yaml_file] returns a document exactly when the file
    loads and its root is a mapping or a sequence, and then returns the
    document as loaded.  Every exception it lets out is a
    [FileNotFoundError], a [ValueError] or a plain [Exception]; for a root
    that is neither a mapping nor a sequence it is the plain [Exception]
    the last handler makes of the [ValueError] raised in the [try]. *)
Theorem load_yaml_file_outcomes fs path :
  (forall doc,
     NewLoader._load_yaml_file fs path = inr doc
     <-> fs path = inr doc /\ (is_dict doc || is_list doc) = true)
  /\ (forall e,
        NewLoader._load_yaml_file fs path = inl e ->
        (exists m, e = FileNotFoundError m) \/ (exists m, e = ValueError m)
        \/ (exists m, e = Exception m))
  /\ (forall doc,
        fs path = inr doc -> (is_dict doc || is_list doc) = false ->
        NewLoader._load_yaml_file fs path
        = inl (Exception
            ("An unexpected error occurred while loading the YAML file: "
             +:+ "YAML file must contain a dictionary or a list at the root level"))).
Proof.
  unfold NewLoader._load_yaml_file. split_and!.
  - intros doc. destruct (fs path) as [e|v].
    + split; [by destruct e|]. by intros [? _].
    + destruct (is_dict v) eqn:Hd; [|destruct (is_list v) eqn:Hl].
      * split; [intros [= ->]; by rewrite Hd|]. by intros [[= ->] _].
      * split; [intros [= ->]; by rewrite Hd, Hl|]. by intros [[= ->] _].
      * split; [done|]. intros [[= ->] H]. by rewrite Hd, Hl in H.
  - intros e. destruct (fs path) as [e0|v].
    + destruct e0; intros [= <-]; eauto.
    + destruct (is_dict v); [done|]. destruct (is_list v); [done|].
      intros [= <-]. eauto.
  - intros doc -> [Hd Hl]%orb_false_iff. by rewrite Hd, Hl.
Qed.

(** *** The names of the slots *)

(** X18.  The names [f"{index}_{item}"] of one pass are pairwise
    distinct whatever the items are, equal items included, and none of
    them is the name of a fixed parameter. *)
Theorem slot_names_distinct index ks :
  NoDup (slot_names index ks)
  /\ length (slot_names index ks) = length ks
  /\ (forall x, x ∈ slot_names index ks -> x ∉ fixed_names).
Proof.
  split_and!.
  - revert index. induction ks as [|k ks IH]; intros index; simpl.
    + constructor.
    + constructor; [|apply IH].
      intros (j & k' & _ & Heq)%elem_of_slot_names.
      apply slot_name_inj in Heq as [Heq _]. lia.
  - revert index. induction ks as [|k ks IH]; intros index; simpl;
      [done|by rewrite IH].
  - intros x. apply slot_names_not_fixed.
Qed.

(** *** A pass that loads a mapping *)

Lemma ensure_all_present names :
  forall params,
    (forall x, x ∈ names -> x ∈ params) ->
    ensure_all params names = params /\ added params names = [].
Proof.
  induction names as [|y names IH]; intros params Hin; simpl; [done|].
  rewrite bool_decide_true by (apply Hin; left).
  apply IH. intros x Hx. apply Hin. by right.
Qed.

Lemma synchronise_stored_journal repr yaml_dump key_filter s :
  NewLoader.yaml_dictionary s <> [] ->
  "yaml_data"%string ∈ parameters (NewLoader.host s) ->
  let flat :=
    Loader.apply_filter key_filter
      (_flatten_yaml (VDict (NewLoader.yaml_dictionary s)) "" ".") in
  let names := slot_names 1 (keys flat) in
  let h := NewLoader.host s in
  exists (valid' modified : gset string),
    synchronise repr yaml_dump key_filter s
    = (NewLoader.State
         (Node (filter (fun x => x ∈ valid')
                  (ensure_all (parameters h) names))
               (set_values
                  (<["yaml_data" := VStr (yaml_dump (VDict flat))]>
                     (parameter_values h)) 1 flat)
               (parameter_output_values h)
               ((journal h ++ map Added (added (parameters h) names))
                  ++ map Removed
                       (filter (fun x => x ∉ valid')
                          (ensure_all (parameters h) names))))
         (NewLoader.yaml_dictionary s) (VDict flat) modified,
       inr (Some modified))
    /\ (forall x, x ∈ valid' <-> x ∈ fixed_names \/ x ∈ names).
Proof.
  intros Hstored Hdata flat names h. unfold synchronise.
  rewrite bind_eq. unfold gets at 1.
  destruct (NewLoader.yaml_dictionary s) as [|kv stored] eqn:Hd; [done|].
  rewrite bind_eq. unfold NewLoader.set_yaml_list at 1, modify at 1.
  rewrite bind_eq.
  rewrite (filter_step key_filter _ (_flatten_yaml (VDict (kv :: stored)) "" "."))
    by done.
  fold flat. simpl NewLoader.host. simpl NewLoader.yaml_dictionary.
  simpl NewLoader.modified_parameters_set.
  rewrite bind_eq. unfold gets at 1. simpl NewLoader.yaml_list.
  rewrite bind_eq.
  unfold NewLoader.on_host at 1, set_parameter_value, does_name_exist.
  simpl NewLoader.host. rewrite bool_decide_true by done.
  rewrite bind_eq. unfold NewLoader.mark_modified at 1, modify at 1.
  rewrite bind_eq. unfold lift at 1, iterate. rewrite bind_eq.
  match goal with
  | |- context [for_each _ (?i, ?u, ?v) _ ?s1] =>
      destruct (dict_loop repr flat flat i u v s1)
        as (used' & valid1 & modified1 & -> & Hvalid)
  end.
  { done. }
  { intros k v Hin. apply elem_getitem; [|done].
    subst flat. rewrite <- Hd. apply NoDup_keys_apply_filter. }
  rewrite bind_eq. unfold NewLoader.on_host at 1. simpl NewLoader.host.
  simpl snd.
  match goal with
  | |- context [_purge_old_parameters valid1 ?n1] =>
      destruct (purge_spec_any valid1 n1) as [modified2 ->]
  end.
  rewrite bind_eq. unfold NewLoader.mark_all_modified at 1, modify at 1.
  rewrite bind_eq. unfold gets at 1. unfold ret.
  cbn [NewLoader.host parameters parameter_values parameter_output_values
       journal NewLoader.yaml_dictionary NewLoader.yaml_list
       NewLoader.modified_parameters_set fst snd].
  rewrite Hd. fold h. eexists _, _. split; [reflexivity|].
  intros x. rewrite elem_of_union, Hvalid. fold names.
  unfold fixed_names. set_solver.
Qed.

(** The whole pass, when the file holds a non-empty mapping. *)
Lemma mapping_pass fs repr yaml_dump parameter_name s path d :
  parameter_name ∈ ["yaml_file"; "key_filter"]%string ->
  get_str (NewLoader.host s) "yaml_file" = Some path ->
  fs path = inr (VDict d) ->
  d <> [] ->
  "yaml_data"%string ∈ parameters (NewLoader.host s) ->
  let h := NewLoader.host s in
  let flat :=
    Loader.apply_filter (get_str h "key_filter")
      (_flatten_yaml (VDict d) "" ".") in
  let names := slot_names 1 (keys flat) in
  exists (valid' modified : gset string),
    NewLoader.after_value_set fs repr yaml_dump parameter_name s
    = (NewLoader.State
         (Node (filter (fun x => x ∈ valid')
                  (ensure_all (parameters h) names))
               (set_values
                  (<["yaml_data" := VStr (yaml_dump (VDict flat))]>
                     (parameter_values h)) 1 flat)
               (parameter_output_values h)
               ((journal h ++ map Added (added (parameters h) names))
                  ++ map Removed
                       (filter (fun x => x ∉ valid')
                          (ensure_all (parameters h) names))))
         d (VDict flat) modified,
       inr (Some modified))
    /\ (forall x, x ∈ valid' <-> x ∈ fixed_names \/ x ∈ names).
Proof.
  intros Hp Hfile Hfs Hd Hdata h flat names.
  assert (NewLoader._load_yaml_file fs path = inr (VDict d)) as Hload.
  { unfold NewLoader._load_yaml_file. by rewrite Hfs. }
  rewrite (after_value_set_loaded _ _ _ _ _ (VDict d))
    by (by eapply loaded_ok).
  rewrite bind_eq. unfold NewLoader.set_yaml_dictionary at 1, modify at 1.
  match goal with
  | |- context [synchronise _ _ ?kf ?s1] =>
      destruct (synchronise_stored_journal repr yaml_dump kf s1 Hd Hdata)
        as (valid' & modified & Heq & Hvalid)
  end.
  exists valid', modified. split; [exact Heq|exact Hvalid].
Qed.

(** X19.  A pass of [NEW_YAMLLoaderNode] that loads a non-empty mapping
    returns the set of modified names, stores the mapping, and leaves one
    slot [<i>_<key>] for the [i]-th retained entry (counting from 1)
    holding the entry's value itself; the parameters left are the fixed
    ones that were there and these slots. *)
Theorem mapping_pass_slots fs repr yaml_dump parameter_name s path d :
  parameter_name ∈ ["yaml_file"; "key_filter"]%string ->
  get_str (NewLoader.host s) "yaml_file" = Some path ->
  fs path = inr (VDict d) ->
  d <> [] ->
  "yaml_data"%string ∈ parameters (NewLoader.host s) ->
  let flat :=
    Loader.apply_filter (get_str (NewLoader.host s) "key_filter")
      (_flatten_yaml (VDict d) "" ".") in
  let r := NewLoader.after_value_set fs repr yaml_dump parameter_name s in
  (exists modified, r.2 = inr (Some modified))
  /\ NewLoader.yaml_dictionary r.1 = d
  /\ (forall j k v,
        flat !! j = Some (k, v) ->
        parameter_values (NewLoader.host r.1)
          !! (pretty (1 + j) +:+ "_" +:+ k) = Some v)
  /\ (forall x,
        x ∈ parameters (NewLoader.host r.1)
        <-> (x ∈ parameters (NewLoader.host s) /\ x ∈ fixed_names)
            \/ x ∈ slot_names 1 (keys flat)).
Proof.
  intros Hp Hfile Hfs Hd Hdata flat r.
  destruct (mapping_pass fs repr yaml_dump parameter_name s path d
              Hp Hfile Hfs Hd Hdata) as (valid' & modified & Heq & Hvalid).
  unfold r. rewrite Heq. cbn [fst snd NewLoader.host NewLoader.yaml_dictionary
    parameters parameter_values]. fold flat. split_and!.
  - by exists modified.
  - done.
  - intros j k v Hj. by apply set_values_lookup.
  - intros x. rewrite list_elem_of_filter, Hvalid, elem_of_ensure_all.
    split; [|naive_solver].
    intros [[Hfix|Hn] [Hin|Hn']]; try naive_solver.
Qed.

Lemma mapping_pass_slots_witness :
  let fs := fun _ : string => inr (VDict [("a", VInt 1)]) in
  let s := NewLoader.State
             (Node fixed_names {["yaml_file" := VStr "doc.yaml"]} ∅ [])
             [] (VList []) ∅ in
  let flat :=
    Loader.apply_filter (get_str (NewLoader.host s) "key_filter")
      (_flatten_yaml (VDict [("a", VInt 1)]) "" ".") in
  let r := NewLoader.after_value_set fs (fun _ => ""%string)
             (fun _ => ""%string) "yaml_file" s in
  (exists modified, r.2 = inr (Some modified))
  /\ NewLoader.yaml_dictionary r.1 = [("a", VInt 1)]
  /\ (forall j k v,
        flat !! j = Some (k, v) ->
        parameter_values (NewLoader.host r.1)
          !! (pretty (1 + j) +:+ "_" +:+ k) = Some v)
  /\ (forall x,
        x ∈ parameters (NewLoader.host r.1)
        <-> (x ∈ parameters (NewLoader.host s) /\ x ∈ fixed_names)
            \/ x ∈ slot_names 1 (keys flat)).
Proof.
  apply (mapping_pass_slots
           (fun _ : string => inr (VDict [("a", VInt 1)]))
           (fun _ => ""%string) (fun _ => ""%string) "yaml_file"
           (NewLoader.State
              (Node fixed_names {["yaml_file" := VStr "doc.yaml"]} ∅ [])
              [] (VList []) ∅)
           "doc.yaml" [("a", VInt 1)]).
  - apply list_elem_of_here.
  - reflexivity.
  - reflexivity.
  - discriminate.
  - apply list_elem_of_further, list_elem_of_further, list_elem_of_here.
Defined.

Lemma get_str_set_values values entries name h v :
  parameter_values h = set_values (<["yaml_data" := v]> values) 1 entries ->
  name ∈ fixed_names -> name <> "yaml_data"%string ->
  get_str h name
  = match values !! name with Some (VStr s) => Some s | _ => None end.
Proof.
  intros Hpv Hfix Hne. unfold get_str. rewrite Hpv.
  rewrite set_values_other.
  - by rewrite lookup_insert_ne.
  - intros Hin. by apply slot_names_not_fixed in Hin.
Qed.

Lemma set_values_again values (entries : dict) v :
  set_values (<["yaml_data" := v]> (set_values (<["yaml_data" := v]> values)
                                      1 entries)) 1 entries
  = set_values (<["yaml_data" := v]> values) 1 entries.
Proof.
  apply map_eq. intros name.
  destruct (decide (name ∈ slot_names 1 (keys entries))) as [Hin|Hout].
  - apply elem_of_slot_names in Hin as (j & k & Hj & ->).
    apply list_lookup_fmap_Some in Hj as ([k' v'] & -> & Hj'). cbn [fst].
    by rewrite !(set_values_lookup _ _ _ _ _ _ Hj').
  - rewrite !(set_values_other entries _ _ _ Hout).
    destruct (decide (name = "yaml_data"%string)) as [->|Hne].
    + by rewrite !lookup_insert_eq.
    + rewrite !lookup_insert_ne by done.
      by rewrite (set_values_other entries _ _ _ Hout), lookup_insert_ne.
Qed.

(** X20.  In [NEW_YAMLLoaderNode] the purge comes after the loop: a
    second pass over the same non-empty mapping, with the same filter,
    creates no parameter, removes none, and leaves every value as the
    first pass left it. *)
Theorem mapping_pass_again_changes_nothing
    fs repr yaml_dump name name' s path d :
  name ∈ ["yaml_file"; "key_filter"]%string ->
  name' ∈ ["yaml_file"; "key_filter"]%string ->
  get_str (NewLoader.host s) "yaml_file" = Some path ->
  fs path = inr (VDict d) ->
  d <> [] ->
  "yaml_data"%string ∈ parameters (NewLoader.host s) ->
  let s1 := (NewLoader.after_value_set fs repr yaml_dump name s).1 in
  let r2 := NewLoader.after_value_set fs repr yaml_dump name' s1 in
  (exists modified, r2.2 = inr (Some modified))
  /\ pass_events (NewLoader.host s1) (NewLoader.host r2.1) = []
  /\ parameters (NewLoader.host r2.1) = parameters (NewLoader.host s1)
  /\ parameter_values (NewLoader.host r2.1)
     = parameter_values (NewLoader.host s1).
Proof.
  intros Hp Hp' Hfile Hfs Hd Hdata s1 r2.
  destruct (mapping_pass fs repr yaml_dump name s path d
              Hp Hfile Hfs Hd Hdata) as (valid1 & modified1 & Heq1 & Hvalid1).
  set (h := NewLoader.host s) in *.
  set (flat := Loader.apply_filter (get_str h "key_filter")
                 (_flatten_yaml (VDict d) "" ".")) in *.
  set (names := slot_names 1 (keys flat)) in *.
  set (P1 := filter (fun x => x ∈ valid1) (ensure_all (parameters h) names)).
  assert (parameters (NewLoader.host s1) = P1) as HP1
    by (unfold s1; by rewrite Heq1).
  assert (parameter_values (NewLoader.host s1)
          = set_values (<["yaml_data" := VStr (yaml_dump (VDict flat))]>
                          (parameter_values h)) 1 flat) as Hpv1
    by (unfold s1; by rewrite Heq1).
  assert (get_str (NewLoader.host s1) "yaml_file" = Some path) as Hfile1.
  { rewrite (get_str_set_values _ _ _ _ _ Hpv1), <- Hfile; [done|..].
    - apply list_elem_of_here.
    - done. }
  assert (get_str (NewLoader.host s1) "key_filter" = get_str h "key_filter")
    as Hkf1.
  { rewrite (get_str_set_values _ _ _ _ _ Hpv1); [done|..].
    - apply list_elem_of_further, list_elem_of_here.
    - done. }
  assert ("yaml_data"%string ∈ parameters (NewLoader.host s1)) as Hdata1.
  { rewrite HP1. apply list_elem_of_filter. split.
    - apply Hvalid1. left.
      apply list_elem_of_further, list_elem_of_further, list_elem_of_here.
    - apply elem_of_ensure_all. by left. }
  destruct (mapping_pass fs repr yaml_dump name' s1 path d
              Hp' Hfile1 Hfs Hd Hdata1)
    as (valid2 & modified2 & Heq2 & Hvalid2).
  rewrite Hkf1 in Heq2, Hvalid2. fold flat names in Heq2, Hvalid2.
  rewrite HP1, Hpv1 in Heq2.
  assert (forall x, x ∈ names -> x ∈ P1) as Hnames.
  { intros x Hx. apply list_elem_of_filter. split.
    - apply Hvalid1. by right.
    - apply elem_of_ensure_all. by right. }
  destruct (ensure_all_present names P1 Hnames) as [Hens Hadd].
  rewrite Hens, Hadd in Heq2.
  assert (forall x, x ∈ P1 -> x ∈ valid2) as Hall.
  { intros x [Hx _]%list_elem_of_filter. apply Hvalid2. by apply Hvalid1. }
  rewrite (filter_all (fun x => x ∈ valid2) P1 Hall) in Heq2.
  rewrite (filter_none (fun x => x ∉ valid2) P1) in Heq2
    by (intros x Hx Hnot; by apply Hnot, Hall).
  rewrite set_values_again in Heq2. simpl in Heq2. rewrite !app_nil_r in Heq2.
  unfold r2. rewrite Heq2. cbn [fst snd NewLoader.host parameters
    parameter_values journal]. split_and!.
  - by exists modified2.
  - unfold pass_events. cbn [journal]. by rewrite drop_all.
  - done.
  - done.
Qed.

Lemma mapping_pass_again_changes_nothing_witness :
  let fs := fun _ : string => inr (VDict [("a", VInt 1)]) in
  let repr := fun _ : value => ""%string in
  let s := NewLoader.State
             (Node (fixed_names ++ ["7_old"])
                {["yaml_file" := VStr "doc.yaml"]} ∅ [])
             [] (VList []) ∅ in
  let s1 := (NewLoader.after_value_set fs repr repr "yaml_file" s).1 in
  let r2 := NewLoader.after_value_set fs repr repr "key_filter" s1 in
  (exists modified, r2.2 = inr (Some modified))
  /\ pass_events (NewLoader.host s1) (NewLoader.host r2.1) = []
  /\ parameters (NewLoader.host r2.1) = parameters (NewLoader.host s1)
  /\ parameter_values (NewLoader.host r2.1)
     = parameter_values (NewLoader.host s1).
Proof.
  apply (mapping_pass_again_changes_nothing
           (fun _ : string => inr (VDict [("a", VInt 1)]))
           (fun _ => ""%string) (fun _ => ""%string)
           "yaml_file" "key_filter"
           (NewLoader.State
              (Node (fixed_names ++ ["7_old"])
                 {["yaml_file" := VStr "doc.yaml"]} ∅ [])
              [] (VList []) ∅)
           "doc.yaml" [("a", VInt 1)]).
  - apply list_elem_of_here.
  - apply list_elem_of_further, list_elem_of_here.
  - reflexivity.
  - reflexivity.
  - discriminate.
  - apply list_elem_of_further, list_elem_of_further, list_elem_of_here.
Defined.

(** *** A pass that loads a sequence *)

Lemma items_loop repr l pre :
  forall index used valid s,
    NewLoader.yaml_list s = VList l ->
    forallb (valid_index l) pre = true ->
    exists used' valid' modified',
      for_each (NewLoader.sync_item repr) (index, used, valid) pre s
      = (NewLoader.State
           (Node (ensure_all (parameters (NewLoader.host s))
                    (slot_names index (map (str repr) pre)))
                 (set_values (parameter_values (NewLoader.host s)) index
                    (map (item_entry repr l) pre))
                 (parameter_output_values (NewLoader.host s))
                 (journal (NewLoader.host s)
                    ++ map Added (added (parameters (NewLoader.host s))
                                    (slot_names index (map (str repr) pre)))))
           (NewLoader.yaml_dictionary s) (NewLoader.yaml_list s) modified',
         inr (index + length pre, used', valid')).
Proof.
  induction pre as [|x pre IH]; intros index used valid s Hl Hv.
  - exists used, valid, (NewLoader.modified_parameters_set s). simpl.
    unfold ret. rewrite Nat.add_0_r, app_nil_r.
    destruct s as [[] ? ? ?]. done.
  - simpl in Hv. apply andb_true_iff in Hv as [Hx Hv].
    rewrite for_each_cons, sync_item_eq, Hl.
    destruct (subscript_valid _ _ Hx) as [v Hsub]. rewrite Hsub.
    set (p := pretty index +:+ "_" +:+ str repr x).
    match goal with
    | |- context [for_each _ _ _ ?s1] =>
        destruct (IH (S index) (used ∪ {[p]}) (valid ∪ {[p]}) s1)
          as (used' & valid' & modified' & -> )
    end.
    + done.
    + done.
    + exists used', valid', modified'.
      change (map (item_entry repr l) (x :: pre))
        with ((str repr x,
               match subscript (VList l) x with
               | inr v => v
               | inl _ => VNone
               end) :: map (item_entry repr l) pre).
      rewrite Hsub. simpl. fold p.
      unfold does_name_exist.
      destruct (bool_decide (p ∈ parameters (NewLoader.host s))); simpl.
      * do 4 f_equal. lia.
      * rewrite <- app_assoc. simpl. do 4 f_equal. lia.
Qed.

Lemma forallb_lookup {A} (P : A -> bool) (l : list A) j x :
  forallb P l = true -> l !! j = Some x -> P x = true.
Proof.
  revert j. induction l as [|y l IH]; intros j Hall Hj; [done|].
  simpl in Hall. apply andb_true_iff in Hall as [Hy Hall].
  destruct j as [|j]; simpl in Hj.
  - by injection Hj as <-.
  - by apply (IH j).
Qed.

Lemma items_loop_fails repr l pre :
  forall st s,
    NewLoader.yaml_list s = VList l ->
    forallb (valid_index l) pre = false ->
    exists s' e, for_each (NewLoader.sync_item repr) st pre s = (s', inl e).
Proof.
  induction pre as [|x pre IH]; intros [[index used] valid] s Hl Hv;
    [done|].
  simpl in Hv. rewrite for_each_cons, sync_item_eq, Hl.
  destruct (valid_index l x) eqn:Hx.
  - destruct (subscript_valid _ _ Hx) as [v ->]. by apply IH.
  - destruct (is_int x) eqn:Hi.
    + rewrite subscript_out_of_range by done. eauto.
    + rewrite subscript_not_int by done. eauto.
Qed.

(** X21.  With no mapping stored and an empty filter, a pass over a
    sequence returns normally exactly when every element of the sequence
    is an integer (or bool) that is a valid index of the sequence; then
    the slot [<i>_<str(item)>] of the [i]-th element holds the element of
    the sequence at index [item]. *)
Theorem sequence_pass_returns_iff_valid_indices
    fs repr yaml_dump parameter_name s path l :
  parameter_name ∈ ["yaml_file"; "key_filter"]%string ->
  get_str (NewLoader.host s) "yaml_file" = Some path ->
  fs path = inr (VList l) ->
  NewLoader.yaml_dictionary s = [] ->
  match get_str (NewLoader.host s) "key_filter" with
  | Some f => f = ""%string
  | None => True
  end ->
  "yaml_data"%string ∈ parameters (NewLoader.host s) ->
  let r := NewLoader.after_value_set fs repr yaml_dump parameter_name s in
  ((exists modified, r.2 = inr (Some modified))
   <-> forallb (valid_index l) l = true)
  /\ (forallb (valid_index l) l = true ->
      forall j item,
        l !! j = Some item ->
        exists v,
          subscript (VList l) item = inr v
          /\ parameter_values (NewLoader.host r.1)
               !! (pretty (1 + j) +:+ "_" +:+ str repr item) = Some v).
Proof.
  intros Hp Hfile Hfs Hdict Hfilter Hdata r.
  assert (r = NewLoader.after_value_set fs repr yaml_dump parameter_name s)
    as Hr by done. clearbody r.
  rewrite (after_value_set_loaded _ _ _ _ _ (VList l)) in Hr
    by (eapply loaded_ok; [done|done|by apply load_list]).
  rewrite bind_eq in Hr.
  unfold NewLoader.set_yaml_list at 1, modify at 1 in Hr.
  unfold synchronise in Hr. rewrite bind_eq in Hr. unfold gets at 1 in Hr.
  simpl NewLoader.yaml_dictionary in Hr. rewrite Hdict in Hr.
  rewrite bind_eq in Hr. unfold ret at 1 in Hr.
  assert ((match get_str (NewLoader.host s) "key_filter" with
           | Some f =>
               if truthy f
               then
                 let* current := gets NewLoader.yaml_list
                 in let* filtered := lift (NewLoader.filter_yaml_list f current)
                    in NewLoader.set_yaml_list filtered
               else ret ()
           | None => ret ()
           end) = ret tt) as Hskip.
  { destruct (get_str (NewLoader.host s) "key_filter") as [f|]; [|done].
    by rewrite Hfilter. }
  rewrite Hskip in Hr. clear Hskip.
  rewrite bind_eq in Hr. unfold ret at 1 in Hr.
  rewrite bind_eq in Hr. unfold gets at 1 in Hr.
  simpl NewLoader.yaml_list in Hr. rewrite bind_eq in Hr.
  unfold NewLoader.on_host at 1, set_parameter_value, does_name_exist in Hr.
  simpl NewLoader.host in Hr. rewrite bool_decide_true in Hr by done.
  rewrite bind_eq in Hr.
  unfold NewLoader.mark_modified at 1, modify at 1 in Hr.
  rewrite bind_eq in Hr. unfold lift at 1, iterate in Hr.
  rewrite bind_eq in Hr.
  destruct (forallb (valid_index l) l) eqn:Hall.
  - match type of Hr with
    | context [for_each _ (?i, ?u, ?v) _ ?s1] =>
        destruct (items_loop repr l l i u v s1 eq_refl Hall)
          as (used' & valid1 & modified1 & Hloop)
    end.
    rewrite Hloop in Hr. clear Hloop.
    rewrite bind_eq in Hr. unfold NewLoader.on_host at 1 in Hr.
    simpl NewLoader.host in Hr. simpl snd in Hr.
    match type of Hr with
    | context [_purge_old_parameters valid1 ?n1] =>
        destruct (purge_spec_any valid1 n1) as [modified2 Hpurge]
    end.
    rewrite Hpurge in Hr. clear Hpurge.
    rewrite bind_eq in Hr.
    unfold NewLoader.mark_all_modified at 1, modify at 1 in Hr.
    rewrite bind_eq in Hr. unfold gets at 1, ret in Hr.
    cbn [NewLoader.host parameters parameter_values parameter_output_values
         journal NewLoader.yaml_dictionary NewLoader.yaml_list
         NewLoader.modified_parameters_set fst snd] in Hr.
    subst r. cbn [fst snd NewLoader.host parameter_values]. split.
    + split; [done|]. intros _. by eexists.
    + intros _ j item Hj.
      destruct (subscript_valid l item) as [v Hsub].
      { by apply (forallb_lookup _ _ _ _ Hall Hj). }
      exists v. split; [done|].
      apply set_values_lookup. rewrite list_lookup_fmap, Hj. simpl.
      unfold item_entry. by rewrite Hsub.
  - match type of Hr with
    | context [for_each _ ?st _ ?s1] =>
        destruct (items_loop_fails repr l l st s1 eq_refl Hall)
          as (s' & e & Hloop)
    end.
    rewrite Hloop in Hr. subst r. simpl. split; [|done].
    split; [|done]. by intros [modified ?].
Qed.

Lemma sequence_pass_returns_iff_valid_indices_witness :
  let fs := fun _ : string => inr (VList [VInt 1; VInt 0]) in
  let repr := fun _ : value => ""%string in
  let s := NewLoader.State
             (Node fixed_names {["yaml_file" := VStr "doc.yaml"]} ∅ [])
             [] (VList []) ∅ in
  let l := [VInt 1; VInt 0] in
  let r := NewLoader.after_value_set fs repr repr "yaml_file" s in
  ((exists modified, r.2 = inr (Some modified))
   <-> forallb (valid_index l) l = true)
  /\ (forallb (valid_index l) l = true ->
      forall j item,
        l !! j = Some item ->
        exists v,
          subscript (VList l) item = inr v
          /\ parameter_values (NewLoader.host r.1)
               !! (pretty (1 + j) +:+ "_" +:+ str repr item) = Some v).
Proof.
  apply (sequence_pass_returns_iff_valid_indices
           (fun _ : string => inr (VList [VInt 1; VInt 0]))
           (fun _ => ""%string) (fun _ => ""%string) "yaml_file"
           (NewLoader.State
              (Node fixed_names {["yaml_file" := VStr "doc.yaml"]} ∅ [])
              [] (VList []) ∅)
           "doc.yaml" [VInt 1; VInt 0]).
  - apply list_elem_of_here.
  - reflexivity.
  - reflexivity.
  - reflexivity.
  - exact I.
  - apply list_elem_of_further, list_elem_of_further, list_elem_of_here.
Defined.

(** X22.  With no mapping stored, a non-empty filter and a sequence in
    the file, the pass raises [AttributeError] at the comprehension over
    [self.yaml_list.items()]: the sequence is stored, and no parameter
    or value of the node is touched. *)
Theorem filtered_sequence_pass_raises
    fs repr yaml_dump parameter_name s path l f :
  parameter_name ∈ ["yaml_file"; "key_filter"]%string ->
  get_str (NewLoader.host s) "yaml_file" = Some path ->
  fs path = inr (VList l) ->
  NewLoader.yaml_dictionary s = [] ->
  get_str (NewLoader.host s) "key_filter" = Some f ->
  truthy f = true ->
  let r := NewLoader.after_value_set fs repr yaml_dump parameter_name s in
  (exists msg, r.2 = inl (AttributeError msg))
  /\ NewLoader.host r.1 = NewLoader.host s
  /\ NewLoader.yaml_list r.1 = VList l.
Proof.
  intros Hp Hfile Hfs Hdict Hkf Hf r.
  assert (r = (NewLoader.State (NewLoader.host s) [] (VList l)
                 (NewLoader.modified_parameters_set s),
               inl (AttributeError "object has no attribute 'items'")))
    as ->; [|by eauto].
  unfold r.
  rewrite (after_value_set_loaded _ _ _ _ _ (VList l))
    by (eapply loaded_ok; [done|done|by apply load_list]).
  rewrite bind_eq. unfold NewLoader.set_yaml_list at 1, modify at 1.
  unfold synchronise. rewrite bind_eq. unfold gets at 1.
  simpl NewLoader.yaml_dictionary. rewrite Hdict.
  rewrite bind_eq. unfold ret at 1. rewrite Hkf, Hf.
  rewrite bind_eq, bind_eq. unfold gets at 1. simpl NewLoader.yaml_list.
  rewrite bind_eq. unfold lift at 1. simpl. done.
Qed.

Lemma filtered_sequence_pass_raises_witness :
  let fs := fun _ : string => inr (VList [VInt 0]) in
  let repr := fun _ : value => ""%string in
  let s := NewLoader.State
             (Node fixed_names
                {["yaml_file" := VStr "doc.yaml"; "key_filter" := VStr "a"]}
                ∅ [])
             [] (VList []) ∅ in
  let r := NewLoader.after_value_set fs repr repr "key_filter" s in
  (exists msg, r.2 = inl (AttributeError msg))
  /\ NewLoader.host r.1 = NewLoader.host s
  /\ NewLoader.yaml_list r.1 = VList [VInt 0].
Proof.
  apply (filtered_sequence_pass_raises
           (fun _ : string => inr (VList [VInt 0]))
           (fun _ => ""%string) (fun _ => ""%string) "key_filter"
           (NewLoader.State
              (Node fixed_names
                 {["yaml_file" := VStr "doc.yaml"; "key_filter" := VStr "a"]}
                 ∅ [])
              [] (VList []) ∅)
           "doc.yaml" [VInt 0] "a").
  - apply list_elem_of_further, list_elem_of_here.
  - reflexivity.
  - reflexivity.
  - reflexivity.
  - reflexivity.
  - reflexivity.
Defined.

End NewLoaderMore.

(* ===================================================================== *)
(** ** [ExampleNode] *)
(* ===================================================================== *)

Module ExampleSpec.

Import PyFacts.
Import Example.

(** *** [split] and [join] *)

Lemma split_words t : Forall (fun w => is_word w = true) (split t).
Proof.
  induction t as [|c t IH]; simpl; [constructor|].
  destruct (isspace c) eqn:Hc; [done|].
  assert (forall w, is_word w = true -> is_word (String c w) = true) as Hw.
  { unfold is_word. simpl. intros w [_ Hn]%andb_true_iff. by rewrite Hc. }
  destruct (starts_word t).
  - destruct (split t) as [|w ws].
    + constructor; [|done]. unfold is_word. simpl. by rewrite Hc.
    + apply Forall_cons in IH as [Hw0 Hws]. constructor; [by apply Hw|done].
  - constructor; [|done]. unfold is_word. simpl. by rewrite Hc.
Qed.

Lemma split_word_app w rest :
  is_word w = true -> starts_word rest = false ->
  split (w +:+ rest) = w :: split rest.
Proof.
  induction w as [|c w IH]; [done|]. intros Hw Hrest.
  unfold is_word in Hw. simpl in Hw.
  apply andb_true_iff in Hw as [Hc Hn]. apply negb_true_iff in Hc.
  rewrite app_String. simpl. rewrite Hc.
  destruct w as [|c' w].
  - rewrite app_empty_l, Hrest. done.
  - assert (is_word (String c' w) = true) as Hw' by done.
    rewrite (IH Hw' Hrest). rewrite app_String. simpl.
    simpl in Hn. apply andb_true_iff in Hn as [Hc' _]. by rewrite Hc'.
Qed.

Lemma split_word w : is_word w = true -> split w = [w].
Proof.
  intros Hw. assert (w = w +:+ "") as Heq.
  { clear Hw. induction w as [|c w IH]; [done|].
    by rewrite app_String, <- IH. }
  rewrite Heq at 1. by rewrite split_word_app.
Qed.

Lemma split_join ws :
  Forall (fun w => is_word w = true) ws ->
  split (join " " ws) = ws.
Proof.
  induction ws as [|w ws IH]; intros Hws; [done|].
  apply Forall_cons in Hws as [Hw Hws].
  destruct ws as [|w' ws].
  - simpl. by apply split_word.
  - change (join " " (w :: w' :: ws))
      with (w +:+ " " +:+ join " " (w' :: ws)).
    rewrite split_word_app by done.
    f_equal. rewrite app_String, app_empty_l.
    change (split (String " " (join " " (w' :: ws))))
      with (split (join " " (w' :: ws))).
    by apply IH.
Qed.

Lemma split_reversed_words t :
  split (reversed_words t) = reverse (split t).
Proof.
  unfold reversed_words. apply split_join.
  apply Forall_reverse, split_words.
Qed.

(** The no-break space [U+00A0] and the next-line control [U+0085]
    separate words as the space does. *)
Example split_no_break_space :
  split (String "a" (String "160" (String "b" (String "133" "c"))))
  = ["a"; "b"; "c"]%string.
Proof. reflexivity. Qed.

(** X23.  Joining words (non-empty, free of whitespace) with single
    spaces and splitting the result gives the words back. *)
Theorem split_join_words ws :
  Forall (fun w => is_word w = true) ws ->
  split (join " " ws) = ws.
Proof. apply split_join. Qed.

Lemma split_join_words_witness :
  Forall (fun w => is_word w = true) ["ab"; "c"]%string
  /\ split (join " " ["ab"; "c"]%string) = ["ab"; "c"]%string.
Proof.
  assert (Forall (fun w => is_word w = true) ["ab"; "c"]%string) as H.
  { repeat constructor. }
  split; [exact H|]. exact (split_join_words ["ab"; "c"]%string H).
Defined.

(** X24.  [split] yields words only.  The text [process] computes has
    the words of [free_text] in reverse order, whatever whitespace
    separated them; reversing twice gives the words of the text joined by
    single spaces. *)
Theorem reversed_words_reverses t :
  Forall (fun w => is_word w = true) (split t)
  /\ split (reversed_words t) = reverse (split t)
  /\ reversed_words (reversed_words t) = join " " (split t).
Proof.
  split_and!; [apply split_words|apply split_reversed_words|].
  unfold reversed_words at 1.
  by rewrite split_reversed_words, reverse_involutive.
Qed.

(** *** [process] *)

(** X25.  [process] never raises and touches no parameter.  It stores
    under [reversed_text] a text whose words are those of [free_text] in
    reverse order (the empty text when [free_text] is unset or empty), and
    under [random_float] the number drawn. *)
Theorem process_outputs random_float s :
  let r := process random_float s in
  let free_text := default ""%string (get_str (host s) "free_text") in
  r.2 = inr tt
  /\ parameters (host r.1) = parameters (host s)
  /\ parameter_values (host r.1) = parameter_values (host s)
  /\ incoming_connections r.1 = incoming_connections s
  /\ parameter_output_values (host r.1) !! "random_float"%string
     = Some random_float
  /\ exists out,
       parameter_output_values (host r.1) !! "reversed_text"%string
       = Some (VStr out)
       /\ split out = reverse (split free_text).
Proof.
  intros r free_text.
  assert (exists out,
            r = (State (Node (parameters (host s)) (parameter_values (host s))
                          (<["random_float" := random_float]>
                             (<["reversed_text" := VStr out]>
                                (parameter_output_values (host s))))
                          (journal (host s)))
                       (incoming_connections s), inr tt)
            /\ split out = reverse (split free_text)) as (out & -> & Hout).
  { unfold r, free_text, process. unfold bind at 1, gets at 1.
    destruct (get_str (host s) "free_text") as [t|]; simpl.
    - destruct (truthy t) eqn:Ht.
      + eexists. split; [reflexivity|]. apply split_reversed_words.
      + eexists. split; [reflexivity|]. by destruct t.
    - eexists. split; [reflexivity|done]. }
  simpl. split_and!; try done.
  - by rewrite lookup_insert_eq.
  - eexists. split; [|exact Hout].
    rewrite lookup_insert_ne by done. by rewrite lookup_insert_eq.
Qed.

(** *** Validation *)

Lemma validate_iff s :
  validate_before_workflow_run s = None
  <-> from_option truthy false (get_str (host s) "free_text") = true
      /\ default false (incoming_connections s !! "free_text"%string) = true.
Proof.
  unfold validate_before_workflow_run.
  destruct (from_option truthy false (get_str (host s) "free_text"));
    destruct (default false (incoming_connections s !! "free_text"%string));
    simpl; naive_solver.
Qed.

Lemma deliver_host s e : host (deliver s e) = host s.
Proof. by destruct e. Qed.

Lemma deliver_connected s e :
  default false (incoming_connections (deliver s e) !! "free_text"%string)
  = last_connected
      (default false (incoming_connections s !! "free_text"%string)) [e]
      "free_text".
Proof.
  destruct e as [t|t]; simpl.
  - destruct (String.eqb_spec t "free_text") as [->|Hne].
    + by rewrite lookup_insert_eq.
    + by rewrite lookup_insert_ne.
  - destruct (String.eqb_spec t "free_text") as [->|Hne].
    + by rewrite lookup_insert_eq.
    + by rewrite lookup_insert_ne.
Qed.

(** X26.  Whatever connections the host reports, in whatever order,
    [validate_before_workflow_run] then finds no error exactly when
    [free_text] holds a non-empty text and the last report about
    [free_text] was that a connection was made; the node's parameters
    and values are not touched by the reports. *)
Theorem validation_follows_last_connection_report s evs :
  let s' := fold_left deliver evs s in
  host s' = host s
  /\ (validate_before_workflow_run s' = None
      <-> from_option truthy false (get_str (host s) "free_text") = true
          /\ last_connected
               (default false (incoming_connections s !! "free_text"%string))
               evs "free_text" = true).
Proof.
  revert s. induction evs as [|e evs IH]; intros s; simpl.
  - split; [done|]. apply validate_iff.
  - destruct (IH (deliver s e)) as [Hh Hv]. split.
    + by rewrite Hh, deliver_host.
    + rewrite Hv, deliver_host, deliver_connected. by destruct e.
Qed.

End ExampleSpec.

(* ===================================================================== *)
(** ** [TextToSpeechNode] *)
(* ===================================================================== *)

Module SpeechSpec.

Import TextToSpeech.

(** What [process] does, case by case. *)
Lemma process_cases {artifact : Type}
    (get_config_value : exn + option string)
    (run_text_to_audio :
       option string -> option string -> string -> string -> exn + artifact)
    (s : state artifact) :
  process get_config_value run_text_to_audio s
  = match text s with
    | Some (String c t) =>
        match get_config_value with
        | inl e =>
            (State (text s) (voice s) (format s)
               (Some ("Error generating audio: " +:+ exn_msg e))
               (audio_output s), inl e)
        | inr (Some (String k key)) =>
            match run_text_to_audio (voice s) (format s) (String k key)
                    (String c t) with
            | inl e =>
                (State (text s) (voice s) (format s)
                   (Some ("Error generating audio: " +:+ exn_msg e))
                   (audio_output s), inl e)
            | inr a =>
                (State (text s) (voice s) (format s)
                   (Some "Audio generated successfully"%string) (Some a),
                 inr tt)
            end
        | inr _ =>
            (State (text s) (voice s) (format s)
               (Some "OpenAI API key not found in configuration"%string)
               (audio_output s), inr tt)
        end
    | _ =>
        (State (text s) (voice s) (format s)
           (Some "No text provided"%string) (audio_output s), inr tt)
    end.
Proof.
  destruct s as [tx vo fo st au]. unfold process, bind at 1, gets at 1.
  unfold bind at 1, gets at 1. unfold bind at 1, gets at 1. simpl.
  destruct tx as [[|c t]|]; [done| |done].
  unfold try_except, bind at 1, lift at 1.
  destruct get_config_value as [e|[[|k key]|]]; [done|done| |done].
  unfold bind at 1, lift at 1.
  by destruct (run_text_to_audio vo fo (String k key) (String c t)).
Qed.

(** X27.  [process] raises exactly when there is a text and either the
    configuration lookup raises, or there is an API key and the driver
    raises; it raises that same exception, after recording it in the
    status message and without touching the audio output. *)
Theorem process_raises_iff {artifact : Type}
    (get_config_value : exn + option string)
    (run_text_to_audio :
       option string -> option string -> string -> string -> exn + artifact)
    (s : state artifact) e :
  let r := process get_config_value run_text_to_audio s in
  (r.2 = inl e
   <-> exists t, text s = Some t /\ truthy t = true
       /\ (get_config_value = inl e
           \/ exists key, get_config_value = inr (Some key)
                /\ truthy key = true
                /\ run_text_to_audio (voice s) (format s) key t = inl e))
  /\ (r.2 = inl e ->
      status_message r.1 = Some ("Error generating audio: " +:+ exn_msg e)
      /\ audio_output r.1 = audio_output s).
Proof.
  intros r. unfold r. rewrite process_cases.
  destruct (text s) as [[|c t]|].
  - split; [|done]. split; [done|]. by intros (t & [= <-] & ? & _).
  - destruct get_config_value as [e0|[[|k key]|]] eqn:Hcfg.
    + split.
      * split.
        -- intros [= ->]. exists (String c t). split_and!; [done..|by left].
        -- intros (t' & _ & _ & [[= ->]|(key & ? & _)]); done.
      * by intros [= ->].
    + split; [|done]. split; [done|].
      intros (t' & _ & _ & [?|(key & [= <-] & ? & _)]); done.
    + destruct (run_text_to_audio (voice s) (format s) (String k key)
                  (String c t)) as [e0|a] eqn:Hrun.
      * split.
        -- split.
           ++ intros [= ->]. exists (String c t). split_and!; [done..|].
              right. by exists (String k key).
           ++ intros (t' & [= <-] & _ & [?|(key' & [= <-] & _ & Hr)]);
                [done|]. simpl. congruence.
        -- by intros [= ->].
      * split; [|done]. split; [done|].
        intros (t' & [= <-] & _ & [?|(key' & [= <-] & _ & Hr)]); [done|].
        congruence.
    + split; [|done]. split; [done|].
      intros (t' & _ & _ & [?|(key & ? & _)]); done.
  - split; [|done]. split; [done|]. by intros (t & ? & _).
Qed.

(** X28.  [process] always leaves a status message and never changes
    the text, the voice or the format.  It writes the audio output only
    when the driver returned: then the output is the driver's result, the
    status reports success and [process] returns normally. *)
Theorem process_writes_audio_only_on_success {artifact : Type}
    (get_config_value : exn + option string)
    (run_text_to_audio :
       option string -> option string -> string -> string -> exn + artifact)
    (s : state artifact) :
  let r := process get_config_value run_text_to_audio s in
  status_message r.1 <> None
  /\ text r.1 = text s /\ voice r.1 = voice s /\ format r.1 = format s
  /\ (audio_output r.1 = audio_output s
      \/ exists t key a,
           text s = Some t /\ get_config_value = inr (Some key)
           /\ run_text_to_audio (voice s) (format s) key t = inr a
           /\ audio_output r.1 = Some a
           /\ status_message r.1 = Some "Audio generated successfully"%string
           /\ r.2 = inr tt).
Proof.
  intros r. unfold r. rewrite process_cases.
  destruct (text s) as [[|c t]|] eqn:Ht;
    [by simpl; split_and!; [..|left]| |by simpl; split_and!; [..|left]].
  destruct get_config_value as [e0|[[|k key]|]] eqn:Hcfg;
    [by simpl; split_and!; [..|left]|by simpl; split_and!; [..|left]|
    |by simpl; split_and!; [..|left]].
  destruct (run_text_to_audio (voice s) (format s) (String k key)
              (String c t)) as [e0|a] eqn:Hrun;
    [by simpl; split_and!; [..|left]|].
  simpl. split_and!; try done. right.
  by exists (String c t), (String k key), a.
Qed.

(** X29.  [validate_before_workflow_run] returns [None] exactly when an
    API key is configured and listing the models succeeds.  When it
    returns a list, the list holds one exception: the [KeyError] for a
    missing key, or the [AuthenticationError] raised by the listing.  Any
    other exception of the listing is raised to the caller. *)
Theorem validation_outcomes
    (get_config_value : exn + option string)
    (models_list : string -> exn + unit)
    (is_authentication_error : exn -> bool) :
  let r := validate_before_workflow_run get_config_value models_list
             is_authentication_error in
  (r = inr None
   <-> exists key, get_config_value = inr (Some key) /\ truthy key = true
         /\ models_list key = inr tt)
  /\ (forall errors,
        r = inr (Some errors) ->
        errors = [KeyError "OPENAI_API_KEY is not defined in configuration"]
        \/ exists key e, get_config_value = inr (Some key)
             /\ models_list key = inl e
             /\ is_authentication_error e = true /\ errors = [e])
  /\ (forall key e,
        get_config_value = inr (Some key) -> truthy key = true ->
        models_list key = inl e -> is_authentication_error e = false ->
        r = inl e).
Proof.
  intros r. unfold r, validate_before_workflow_run. split_and!.
  - destruct get_config_value as [e0|[[|k key]|]].
    + split; [done|]. by intros (key & ? & _).
    + split; [done|]. by intros (key & [= <-] & ? & _).
    + destruct (models_list (String k key)) as [e0|[]] eqn:Hm.
      * split.
        -- by destruct (is_authentication_error e0).
        -- intros (key' & [= <-] & _ & Hm'). congruence.
      * split; [|done]. intros _. by exists (String k key).
    + split; [done|]. by intros (key & ? & _).
  - intros errors. destruct get_config_value as [e0|[[|k key]|]].
    + done.
    + intros [= <-]. by left.
    + destruct (models_list (String k key)) as [e0|[]] eqn:Hm; [|done].
      destruct (is_authentication_error e0) eqn:Hauth; [|done].
      intros [= <-]. right. by exists (String k key), e0.
    + intros [= <-]. by left.
  - intros key e -> Hkey Hm Hauth. destruct key as [|k key]; [done|].
    by rewrite Hm, Hauth.
Qed.

End SpeechSpec.

(* ===================================================================== *)
(** ** [SaveAudio] *)
(* ===================================================================== *)

Module SaveAudioSpec.

Import SaveAudio.

Lemma process_save_cases {artifact : Type} (truth : artifact -> bool)
    (parse : value -> exn + artifact)
    (save_static_file : artifact -> value -> exn + string)
    (s : state artifact) :
  process truth parse save_static_file s
  = match audio s with
    | Some a =>
        if provided truth (Some a) then
          (State (audio s) (output_path s)
             (Some (default (VStr DEFAULT_FILENAME) (output_path s))),
           match saved parse save_static_file a
                   (default (VStr DEFAULT_FILENAME) (output_path s)) with
           | inl e => inl (ValueError ("Error saving audio: " +:+ exn_msg e))
           | inr _ => inr tt
           end)
        else (s, inr tt)
    | None => (s, inr tt)
    end.
Proof.
  destruct s as [au op ov]. unfold process, bind at 1, gets at 1, saved.
  cbn [audio output_path]. destruct au as [a|]; [|done].
  destruct (provided truth (Some a)); [|done].
  unfold bind at 1, gets at 1. unfold bind at 1.
  unfold set_output_path_value, modify, try_except, bind at 1, lift at 1.
  cbn [audio output_path].
  destruct (to_audio_artifact parse a) as [e|art]; [done|].
  unfold bind, lift, ret.
  by destruct (save_static_file art _).
Qed.

(** X30.  When no audio is provided [process] returns and changes
    nothing.  Otherwise it records the requested file name (by default
    [griptape_nodes.mp3]) as the [output_path] output before it tries to
    save, so also when saving fails; and whatever goes wrong, in the
    conversion or in the saving, is raised as a [ValueError] whose message
    is [Error saving audio: ] followed by the message of that error: a
    non-empty dict without a [url] entry among them. *)
Theorem process_save_outcomes {artifact : Type} (truth : artifact -> bool)
    (parse : value -> exn + artifact)
    (save_static_file : artifact -> value -> exn + string)
    (s : state artifact) :
  let r := process truth parse save_static_file s in
  let output_file := default (VStr DEFAULT_FILENAME) (output_path s) in
  (provided truth (audio s) = false -> r = (s, inr tt))
  /\ (provided truth (audio s) = true ->
      audio r.1 = audio s /\ output_path r.1 = output_path s
      /\ output_path_value r.1 = Some output_file)
  /\ (forall e,
        r.2 = inl e <->
        exists a e0,
          audio s = Some a /\ provided truth (audio s) = true
          /\ saved parse save_static_file a output_file = inl e0
          /\ e = ValueError ("Error saving audio: " +:+ exn_msg e0))
  /\ (forall d,
        audio s = Some (AudioDict d) -> d <> [] -> getitem d "url" = None ->
        r.2 = inl (ValueError
                ("Error saving audio: " +:+ "Dictionary must contain 'url' key"))).
Proof.
  intros r output_file. unfold r, output_file. rewrite process_save_cases.
  destruct (audio s) as [a|] eqn:Ha.
  - destruct (provided truth (Some a)) eqn:Hp.
    + cbn [fst snd audio output_path output_path_value].
      split_and!; try done.
      * intros e.
        destruct (saved parse save_static_file a
                    (default (VStr DEFAULT_FILENAME) (output_path s)))
          as [e0|p] eqn:Hs.
        -- split.
           ++ intros [= <-]. by exists a, e0.
           ++ intros (a' & e1 & [= <-] & _ & He1 & ->).
              rewrite Hs in He1. by injection He1 as ->.
        -- split; [done|].
           intros (a' & e1 & [= <-] & _ & He1 & _). congruence.
      * intros d [= ->] Hd Hurl. unfold saved. simpl. by rewrite Hurl.
    + split_and!; try done.
      * intros e. split; [done|]. by intros (a' & e0 & _ & ? & _).
      * intros d [= ->] Hd _. by destruct d.
  - split_and!; try done.
    intros e. split; [done|]. by intros (a' & e0 & ? & _).
Qed.

End SaveAudioSpec.
